(** * CortexShade secure event pipeline: a shallow embedding

    The development follows the Python sources of the repository:

    - [crypto.py]          (CryptoUtils, a thin wrapper around Fernet),
    - [key_manager.py]     (derive_key_from_password: salt file + PBKDF2),
    - [schemas.py]         (EventSchema.validate),
    - [redact.py]          (Redactor.redact),
    - [secure_logger.py]   (SecureLogger.log_event),
    - [sync.py]            (EventSynchronizer.sync),
    - [main.py]            (CortexShadeSystem: producers and persistence tick),
    - [admin_control.py]   (decrypt_suspicions: the offline audit),
    - [snapshot_hasher.py] (SnapshotHasher.hash_snapshot),
    - [neurosentinel_audio.py]  (classify_audio, the classifier of the
                                 audio producer),
    - [neurosentinel_camera.py] (CameraDetector: finger count, screenshots,
                                 the loop of [run], the score database).

    Python [str] values are sequences of code points, [bytes] values are
    sequences of octets; both are lists of binary naturals here.  Stateful
    code is written in a state-and-exception monad over an explicit
    [World] (files, directories, standard output, clock, entropy, the
    heap of event dictionaries, the suspicion store and its lock).
    Paths are octet strings; opening a file walks the directories its
    path names ([Path], [open_error]).  The interleavings of the threads
    are studied on the sequence of store operations each of them
    performs, and tied to the code through [locked_append]
    ([Interleaving]). *)

From Stdlib Require Import ZArith NArith List Lia Bool String Ascii Floats.
From stdpp Require Import base option list gmap strings pretty.
Import ListNotations.
Open Scope N_scope.

(** Linear arithmetic over [N] with division and remainder by constants. *)
Ltac nlia := zify; Z.to_euclidean_division_equations; lia.

(** ** Python strings and byte strings *)

(** A [str] is a list of code points, a [bytes] object a list of octets. *)
Abbreviation pystr := (list N) (only parsing).
Abbreviation pybytes := (list N) (only parsing).

(** A string literal of the source, as its code points (ASCII literals). *)
Definition py (s : string) : pystr :=
  map N_of_ascii (list_ascii_of_string s).

(** ** [str.encode()] and [bytes.decode()]: strict UTF-8 *)

Module Utf8.

(** The octets of one code point; surrogates (U+D800..U+DFFF) and values
    above U+10FFFF have no encoding ([UnicodeEncodeError]). *)
Definition encode_cp (c : N) : option pybytes :=
  if c <? 0x80 then Some [c]
  else if c <? 0x800 then Some [0xC0 + c / 64; 0x80 + c mod 64]
  else if c <? 0x10000 then
    if (0xD800 <=? c) && (c <=? 0xDFFF) then None
    else Some [0xE0 + c / 4096; 0x80 + (c / 64) mod 64; 0x80 + c mod 64]
  else if c <? 0x110000 then
    Some [0xF0 + c / 262144; 0x80 + (c / 4096) mod 64;
          0x80 + (c / 64) mod 64; 0x80 + c mod 64]
  else None.

Fixpoint encode (s : pystr) : option pybytes :=
  match s with
  | [] => Some []
  | c :: r =>
    match encode_cp c, encode r with
    | Some a, Some b => Some (a ++ b)
    | _, _ => None
    end
  end.

Definition is_cont (b : N) : bool := (0x80 <=? b) && (b <=? 0xBF).

(** Strict decoding: overlong forms, surrogates, code points above
    U+10FFFF, stray continuation octets and truncated sequences are
    rejected ([UnicodeDecodeError]). *)
Fixpoint decode (bs : pybytes) : option pystr :=
  match bs with
  | [] => Some []
  | b0 :: r0 =>
    if b0 <? 0x80 then option_map (cons b0) (decode r0)
    else if (0xC2 <=? b0) && (b0 <=? 0xDF) then
      match r0 with
      | b1 :: r1 =>
        if is_cont b1
        then option_map (cons ((b0 - 0xC0) * 64 + (b1 - 0x80))) (decode r1)
        else None
      | _ => None
      end
    else if (0xE0 <=? b0) && (b0 <=? 0xEF) then
      match r0 with
      | b1 :: b2 :: r2 =>
        let c := (b0 - 0xE0) * 4096 + (b1 - 0x80) * 64 + (b2 - 0x80) in
        if is_cont b1 && is_cont b2 && (0x800 <=? c)
           && negb ((0xD800 <=? c) && (c <=? 0xDFFF))
        then option_map (cons c) (decode r2)
        else None
      | _ => None
      end
    else if (0xF0 <=? b0) && (b0 <=? 0xF4) then
      match r0 with
      | b1 :: b2 :: b3 :: r3 =>
        let c := (b0 - 0xF0) * 262144 + (b1 - 0x80) * 4096
                 + (b2 - 0x80) * 64 + (b3 - 0x80) in
        if is_cont b1 && is_cont b2 && is_cont b3
           && (0x10000 <=? c) && (c <? 0x110000)
        then option_map (cons c) (decode r3)
        else None
      | _ => None
      end
    else None
  end.

Definition is_ascii (s : pystr) : Prop := Forall (fun c => c < 0x80) s.

(** Name quotient and remainder of [x] by 64, keeping only their
    defining equations. *)
Ltac name_divmod x :=
  let q := fresh "q" in
  let r := fresh "r" in
  let Hq := fresh "Hq" in
  let Hr := fresh "Hr" in
  pose proof (N.div_mod x 64 ltac:(discriminate)) as Hq;
  pose proof (N.mod_lt x 64 ltac:(discriminate)) as Hr;
  set (q := x / 64) in *; set (r := x mod 64) in *;
  clearbody q r.

(** Replace every comparison in the goal by its truth value. *)
Ltac eval_cmp :=
  repeat match goal with
  | |- context [?a <? ?b] =>
    first [ replace (a <? b) with true by (symmetry; apply N.ltb_lt; lia)
          | replace (a <? b) with false by (symmetry; apply N.ltb_ge; lia) ]
  | |- context [?a <=? ?b] =>
    first [ replace (a <=? b) with true by (symmetry; apply N.leb_le; lia)
          | replace (a <=? b) with false by (symmetry; apply N.leb_gt; lia) ]
  end.

Lemma decode_encode_cp (c : N) (bs rest : pybytes) :
  encode_cp c = Some bs ->
  decode (bs ++ rest) = option_map (cons c) (decode rest).
Proof.
  unfold encode_cp.
  replace (c / 262144) with (c / 64 / 64 / 64)
    by (rewrite !N.Div0.div_div; reflexivity).
  replace (c / 4096) with (c / 64 / 64)
    by (rewrite !N.Div0.div_div; reflexivity).
  destruct (N.ltb_spec c 0x80).
  { intros [= <-]. cbn [app decode]. now eval_cmp. }
  destruct (N.ltb_spec c 0x800).
  { intros [= <-]. name_divmod c.
    cbn [app decode]. unfold is_cont. eval_cmp.
    cbn [andb]. do 2 f_equal. lia. }
  destruct (N.ltb_spec c 0x10000).
  { destruct (N.leb_spec 0xD800 c), (N.leb_spec c 0xDFFF);
      cbn [andb]; try discriminate; intros [= <-];
      name_divmod c; name_divmod q;
      cbn [app decode]; unfold is_cont; cbv zeta; eval_cmp;
      cbn [andb negb]; do 2 f_equal; lia. }
  destruct (N.ltb_spec c 0x110000); [|discriminate].
  intros [= <-]. name_divmod c. name_divmod q. name_divmod q0.
  cbn [app decode]. unfold is_cont. cbv zeta. eval_cmp.
  cbn [andb]. do 2 f_equal. lia.
Qed.

Lemma decode_encode (s : pystr) (bs : pybytes) :
  encode s = Some bs -> decode bs = Some s.
Proof.
  revert bs. induction s as [|c r IH]; intros bs.
  - now intros [= <-].
  - cbn [encode]. destruct (encode_cp c) as [a|] eqn:Ea; [|discriminate].
    destruct (encode r) as [b|]; [|discriminate]. intros [= <-].
    rewrite (decode_encode_cp _ _ _ Ea), (IH b eq_refl). reflexivity.
Qed.

Lemma encode_ascii (s : pystr) : is_ascii s -> encode s = Some s.
Proof.
  induction 1 as [|c r Hc _ IH]; [reflexivity|].
  cbn [encode]. unfold encode_cp.
  destruct (N.ltb_spec c 0x80); [|lia]. now rewrite IH.
Qed.

(** Every octet of an encoding is below 256. *)
Lemma encode_cp_octets (c : N) (bs : pybytes) :
  encode_cp c = Some bs -> Forall (fun b => b < 256) bs.
Proof.
  unfold encode_cp.
  repeat match goal with
  | |- context [if ?b then _ else _] => destruct b eqn:?
  end; try discriminate; intros [= <-];
  repeat match goal with
  | H : (_ <? _) = true |- _ => apply N.ltb_lt in H
  | H : (_ <? _) = false |- _ => apply N.ltb_ge in H
  end;
  repeat (constructor; [nlia|]); constructor.
Qed.

Lemma encode_octets (s : pystr) (bs : pybytes) :
  encode s = Some bs -> Forall (fun b => b < 256) bs.
Proof.
  revert bs. induction s as [|c r IH]; intros bs; cbn [encode].
  - intros [= <-]. constructor.
  - destruct (encode_cp c) as [a|] eqn:Ea; [|discriminate].
    destruct (encode r) as [b|]; [|discriminate]. intros [= <-].
    apply Forall_app. split; [now apply encode_cp_octets in Ea|now apply IH].
Qed.

(** Truth values of the range tests, as arithmetic facts. *)
Ltac cmp_props :=
  repeat match goal with
  | H : (_ && _) = true |- _ => apply andb_prop in H as [? ?]
  | H : negb _ = true |- _ => apply negb_true_iff in H
  | H : (_ && _) = false |- _ => apply andb_false_iff in H
  | H : (_ <? _) = true |- _ => apply N.ltb_lt in H
  | H : (_ <? _) = false |- _ => apply N.ltb_ge in H
  | H : (_ <=? _) = true |- _ => apply N.leb_le in H
  | H : (_ <=? _) = false |- _ => apply N.leb_gt in H
  end.

(** The first code point of a decoded byte string, with its octets. *)
Lemma decode_cons (bs : pybytes) (c : N) (s : pystr) :
  decode bs = Some (c :: s) ->
  exists (a rest : pybytes),
    bs = a ++ rest /\ a <> [] /\ encode_cp c = Some a /\ decode rest = Some s.
Proof.
  destruct bs as [|b0 r0]; [discriminate|]. cbn [decode].
  destruct (b0 <? 0x80) eqn:E0.
  { destruct (decode r0) as [s'|] eqn:E; [|discriminate]. intros [= <- <-].
    exists [b0], r0. split; [reflexivity|]. split; [discriminate|]. split; [|exact E].
    unfold encode_cp. now rewrite E0. }
  destruct ((0xC2 <=? b0) && (b0 <=? 0xDF)) eqn:E1.
  { destruct r0 as [|b1 r1]; [discriminate|].
    destruct (is_cont b1) eqn:C1; [|discriminate].
    destruct (decode r1) as [s'|] eqn:E; [|discriminate]. intros [= <- <-].
    exists [b0; b1], r1. split; [reflexivity|]. split; [discriminate|]. split; [|exact E].
    unfold is_cont in C1. cmp_props. unfold encode_cp.
    set (c := (b0 - 0xC0) * 64 + (b1 - 0x80)).
    assert (c = 64 * (b0 - 0xC0) + (b1 - 0x80)) as Hc by (subst c; lia).
    assert (c / 64 = b0 - 0xC0 /\ c mod 64 = b1 - 0x80) as [-> ->].
    { split; [symmetry; apply (N.div_unique c 64 _ (b1 - 0x80))
             |symmetry; apply (N.mod_unique c 64 (b0 - 0xC0))]; lia. }
    clearbody c. eval_cmp.
    replace (0xC0 + (b0 - 0xC0)) with b0 by lia.
    replace (0x80 + (b1 - 0x80)) with b1 by lia. reflexivity. }
  destruct ((0xE0 <=? b0) && (b0 <=? 0xEF)) eqn:E2.
  { destruct r0 as [|b1 [|b2 r2]]; try discriminate. cbv zeta.
    match goal with
    | |- (if ?b then _ else _) = _ -> _ => destruct b eqn:C; [|discriminate]
    end.
    destruct (decode r2) as [s'|] eqn:E; [|discriminate]. intros [= <- <-].
    exists [b0; b1; b2], r2. split; [reflexivity|]. split; [discriminate|]. split; [|exact E].
    unfold is_cont in C. cmp_props. unfold encode_cp.
    set (c := (b0 - 0xE0) * 4096 + (b1 - 0x80) * 64 + (b2 - 0x80)) in *.
    assert (c = 64 * (64 * (b0 - 0xE0) + (b1 - 0x80)) + (b2 - 0x80)) as Hc
      by (subst c; lia).
    assert (c / 64 = 64 * (b0 - 0xE0) + (b1 - 0x80) /\ c mod 64 = b2 - 0x80)
      as [Hq Hr].
    { split; [symmetry; apply (N.div_unique c 64 _ (b2 - 0x80))
             |symmetry; apply (N.mod_unique c 64 (64 * (b0 - 0xE0) + (b1 - 0x80)))];
        lia. }
    assert (c / 4096 = b0 - 0xE0 /\ (c / 64) mod 64 = b1 - 0x80) as [Hq2 Hr2].
    { change 4096 with (64 * 64). rewrite <- N.Div0.div_div, Hq.
      split; [symmetry; apply (N.div_unique _ 64 _ (b1 - 0x80))
             |symmetry; apply (N.mod_unique _ 64 (b0 - 0xE0))]; lia. }
    rewrite Hq2, Hr2, Hr. clearbody c.
    replace ((0xD800 <=? c) && (c <=? 0xDFFF)) with false
      by (symmetry; apply andb_false_iff; tauto || (destruct H3; [left|right]; assumption)).
    eval_cmp.
    replace (0xE0 + (b0 - 0xE0)) with b0 by lia.
    replace (0x80 + (b1 - 0x80)) with b1 by lia.
    replace (0x80 + (b2 - 0x80)) with b2 by lia. reflexivity. }
  destruct ((0xF0 <=? b0) && (b0 <=? 0xF4)) eqn:E3; [|discriminate].
  destruct r0 as [|b1 [|b2 [|b3 r3]]]; try discriminate. cbv zeta.
  match goal with
  | |- (if ?b then _ else _) = _ -> _ => destruct b eqn:C; [|discriminate]
  end.
  destruct (decode r3) as [s'|] eqn:E; [|discriminate]. intros [= <- <-].
  exists [b0; b1; b2; b3], r3. split; [reflexivity|]. split; [discriminate|]. split; [|exact E].
  unfold is_cont in C. cmp_props. unfold encode_cp.
  set (c := (b0 - 0xF0) * 262144 + (b1 - 0x80) * 4096
            + (b2 - 0x80) * 64 + (b3 - 0x80)) in *.
  assert (c = 64 * (64 * (64 * (b0 - 0xF0) + (b1 - 0x80)) + (b2 - 0x80))
              + (b3 - 0x80)) as Hc by (subst c; lia).
  assert (c / 64 = 64 * (64 * (b0 - 0xF0) + (b1 - 0x80)) + (b2 - 0x80)
          /\ c mod 64 = b3 - 0x80) as [Hq Hr].
  { split; [symmetry; apply (N.div_unique c 64 _ (b3 - 0x80))
           |symmetry; apply (N.mod_unique c 64
                               (64 * (64 * (b0 - 0xF0) + (b1 - 0x80)) + (b2 - 0x80)))];
      lia. }
  assert (c / 4096 = 64 * (b0 - 0xF0) + (b1 - 0x80)
          /\ (c / 64) mod 64 = b2 - 0x80) as [Hq2 Hr2].
  { change 4096 with (64 * 64). rewrite <- N.Div0.div_div, Hq.
    split; [symmetry; apply (N.div_unique _ 64 _ (b2 - 0x80))
           |symmetry; apply (N.mod_unique _ 64 (64 * (b0 - 0xF0) + (b1 - 0x80)))];
      lia. }
  assert (c / 262144 = b0 - 0xF0 /\ (c / 4096) mod 64 = b1 - 0x80)
    as [Hq3 Hr3].
  { change 262144 with (4096 * 64). rewrite <- N.Div0.div_div, Hq2.
    split; [symmetry; apply (N.div_unique _ 64 _ (b1 - 0x80))
           |symmetry; apply (N.mod_unique _ 64 (b0 - 0xF0))]; lia. }
  rewrite Hq3, Hr3, Hr2, Hr. clearbody c. eval_cmp.
  replace (0xF0 + (b0 - 0xF0)) with b0 by lia.
  replace (0x80 + (b1 - 0x80)) with b1 by lia.
  replace (0x80 + (b2 - 0x80)) with b2 by lia.
  replace (0x80 + (b3 - 0x80)) with b3 by lia. reflexivity.
Qed.

(** X3: strict UTF-8 is canonical: a byte string decodes to a text
    exactly when it is the encoding of that text, so [decode] accepts one
    byte string per text (no overlong form, no encoded surrogate) and
    [encode] and [decode] are inverse to each other on their ranges. *)
Theorem decode_canonical (bs : pybytes) (s : pystr) :
  decode bs = Some s <-> encode s = Some bs.
Proof.
  split; [|apply decode_encode].
  revert bs. induction s as [|c r IH]; intros bs H.
  - destruct bs as [|b0 r0]; [reflexivity|]. exfalso. revert H. cbn [decode].
    destruct (b0 <? 0x80); [destruct (decode r0); discriminate|].
    destruct ((0xC2 <=? b0) && (b0 <=? 0xDF)).
    { destruct r0 as [|b1 r1]; [discriminate|].
      destruct (is_cont b1); [|discriminate].
      destruct (decode r1); discriminate. }
    destruct ((0xE0 <=? b0) && (b0 <=? 0xEF)).
    { destruct r0 as [|b1 [|b2 r2]]; try discriminate. cbv zeta.
      match goal with
      | |- (if ?b then _ else _) = _ -> _ => destruct b; [|discriminate]
      end.
      destruct (decode r2); discriminate. }
    destruct ((0xF0 <=? b0) && (b0 <=? 0xF4)); [|discriminate].
    destruct r0 as [|b1 [|b2 [|b3 r3]]]; try discriminate. cbv zeta.
    match goal with
    | |- (if ?b then _ else _) = _ -> _ => destruct b; [|discriminate]
    end.
    destruct (decode r3); discriminate.
  - apply decode_cons in H as (a & rest & -> & _ & Ha & Hrest).
    cbn [encode]. now rewrite Ha, (IH rest Hrest).
Qed.

End Utf8.

(** ** SHA-256, HMAC and PBKDF2

    [key_manager.py] configures [PBKDF2HMAC(algorithm=SHA256, length=32,
    salt, iterations=390000)].  The primitives are written out after
    FIPS 180-4, RFC 2104 and RFC 8018 so that the derived key is a
    concrete function of password and salt. *)

Module Sha256.

Definition w32 : N := 0x100000000.
Definition add32 (a b : N) : N := (a + b) mod w32.
Definition rotr (n x : N) : N :=
  N.lor (N.shiftr x n) (N.shiftl x (32 - n) mod w32).
Definition shr (n x : N) : N := N.shiftr x n.
Definition not32 (x : N) : N := N.lxor x 0xFFFFFFFF.

Definition Ch (x y z : N) : N := N.lxor (N.land x y) (N.land (not32 x) z).
Definition Maj (x y z : N) : N :=
  N.lxor (N.lxor (N.land x y) (N.land x z)) (N.land y z).
Definition bsig0 (x : N) : N := N.lxor (N.lxor (rotr 2 x) (rotr 13 x)) (rotr 22 x).
Definition bsig1 (x : N) : N := N.lxor (N.lxor (rotr 6 x) (rotr 11 x)) (rotr 25 x).
Definition ssig0 (x : N) : N := N.lxor (N.lxor (rotr 7 x) (rotr 18 x)) (shr 3 x).
Definition ssig1 (x : N) : N := N.lxor (N.lxor (rotr 17 x) (rotr 19 x)) (shr 10 x).

(** The round constants are the first 32 bits of the fractional parts
    of the cube roots of the first 64 primes, the initial hash value
    those of the square roots of the first 8 primes. *)
Definition is_prime (n : nat) : bool :=
  forallb (fun d => negb (n mod d =? 0)%nat) (seq 2 (n - 2)).

Definition first_primes : list N :=
  map N.of_nat (List.filter is_prime (seq 2 310)).

(** Integer cube root, one bit at a time from bit [bits - 1] down. *)
Fixpoint cube_root (bits : nat) (n r : N) : N :=
  match bits with
  | O => r
  | S b =>
    let r' := r + 2 ^ N.of_nat b in
    cube_root b n (if r' * r' * r' <=? n then r' else r)
  end.

Definition frac_cube_root (p : N) : N := cube_root 36 (p * 2 ^ 96) 0 mod w32.
Definition frac_square_root (p : N) : N := N.sqrt (p * 2 ^ 64) mod w32.

Definition K : list N := Eval vm_compute in map frac_cube_root first_primes.

(** The eight working variables / chaining values. *)
Record state := State {
  sa : N; sb : N; sc : N; sd : N; se : N; sf : N; sg : N; sh : N }.

Definition state_of (ws : list N) : state :=
  State (nth 0 ws 0) (nth 1 ws 0) (nth 2 ws 0) (nth 3 ws 0)
        (nth 4 ws 0) (nth 5 ws 0) (nth 6 ws 0) (nth 7 ws 0).

Definition H0 : state :=
  Eval vm_compute in state_of (map frac_square_root (firstn 8 first_primes)).

Example round_constants_ends :
  nth 0 K 0 = 0x428a2f98 /\ nth 63 K 0 = 0xc67178f2 /\ length K = 64%nat
  /\ sa H0 = 0x6a09e667 /\ sh H0 = 0x5be0cd19.
Proof. repeat split. Qed.

(** Big-endian packing of octets into 32-bit words. *)
Fixpoint words (bs : pybytes) : list N :=
  match bs with
  | a :: b :: c :: d :: r =>
    (((a mod 256) * 256 + b mod 256) * 256 + c mod 256) * 256 + d mod 256
    :: words r
  | _ => []
  end.

Definition word_bytes (w : N) : pybytes :=
  [w / 0x1000000 mod 256; w / 0x10000 mod 256; w / 0x100 mod 256; w mod 256].

(** The message schedule: entries 16..63 from the sixteen block words. *)
Fixpoint schedule (n : nat) (w : list N) : list N :=
  match n with
  | O => w
  | S n' =>
    let t := List.length w in
    let x i := nth (t - i) w 0 in
    schedule n'
      (w ++ [add32 (add32 (ssig1 (x 2%nat)) (x 7%nat))
                   (add32 (ssig0 (x 15%nat)) (x 16%nat))])
  end.

Definition round (s : state) (kw : N * N) : state :=
  let '(k, w) := kw in
  let t1 := add32 (add32 (add32 (sh s) (bsig1 (se s)))
                         (add32 (Ch (se s) (sf s) (sg s)) k)) w in
  let t2 := add32 (bsig0 (sa s)) (Maj (sa s) (sb s) (sc s)) in
  State (add32 t1 t2) (sa s) (sb s) (sc s)
        (add32 (sd s) t1) (se s) (sf s) (sg s).

Definition compress (h : state) (block : pybytes) : state :=
  let w := schedule 48 (words block) in
  let s := fold_left round (combine K w) h in
  State (add32 (sa h) (sa s)) (add32 (sb h) (sb s))
        (add32 (sc h) (sc s)) (add32 (sd h) (sd s))
        (add32 (se h) (se s)) (add32 (sf h) (sf s))
        (add32 (sg h) (sg s)) (add32 (sh h) (sh s)).

(** Padding: 0x80, zeros up to 56 modulo 64, then the bit length on
    eight octets. *)
Definition pad (m : pybytes) : pybytes :=
  let n := N.of_nat (List.length m) in
  let z := (119 - n mod 64) mod 64 in
  let bits := n * 8 in
  m ++ [0x80] ++ repeat 0 (N.to_nat z)
    ++ word_bytes (bits / w32 mod w32) ++ word_bytes (bits mod w32).

Fixpoint blocks (fuel : nat) (h : state) (bs : pybytes) : state :=
  match fuel, bs with
  | S f, _ :: _ => blocks f (compress h (firstn 64 bs)) (skipn 64 bs)
  | _, _ => h
  end.

Definition digest_bytes (s : state) : pybytes :=
  word_bytes (sa s) ++ word_bytes (sb s) ++ word_bytes (sc s)
  ++ word_bytes (sd s) ++ word_bytes (se s) ++ word_bytes (sf s)
  ++ word_bytes (sg s) ++ word_bytes (sh s).

Definition sha256 (m : pybytes) : pybytes :=
  let p := pad m in digest_bytes (blocks (List.length p) H0 p).

Lemma sha256_length (m : pybytes) : List.length (sha256 m) = 32%nat.
Proof. reflexivity. Qed.

(** FIPS 180-4 sample messages. *)
Example sha256_abc :
  sha256 (py "abc") =
  [0xba; 0x78; 0x16; 0xbf; 0x8f; 0x01; 0xcf; 0xea; 0x41; 0x41; 0x40; 0xde;
   0x5d; 0xae; 0x22; 0x23; 0xb0; 0x03; 0x61; 0xa3; 0x96; 0x17; 0x7a; 0x9c;
   0xb4; 0x10; 0xff; 0x61; 0xf2; 0x00; 0x15; 0xad].
Proof. vm_compute. reflexivity. Qed.

Example sha256_two_blocks :
  sha256 (py "abcdbcdecdefdefgefghfghighijhijkijkljklmklmnlmnomnopnopq") =
  [0x24; 0x8d; 0x6a; 0x61; 0xd2; 0x06; 0x38; 0xb8; 0xe5; 0xc0; 0x26; 0x93;
   0x0c; 0x3e; 0x60; 0x39; 0xa3; 0x3c; 0xe4; 0x59; 0x64; 0xff; 0x21; 0x67;
   0xf6; 0xec; 0xed; 0xd4; 0x19; 0xdb; 0x06; 0xc1].
Proof. vm_compute. reflexivity. Qed.

Lemma word_bytes_octets (w : N) : Forall (fun b => b < 256) (word_bytes w).
Proof.
  unfold word_bytes.
  repeat (constructor; [apply N.mod_lt; discriminate|]). constructor.
Qed.

Lemma sha256_octets (m : pybytes) : Forall (fun b => b < 256) (sha256 m).
Proof.
  unfold sha256, digest_bytes. cbv zeta.
  repeat (apply Forall_app; split); apply word_bytes_octets.
Qed.

End Sha256.

Module Hmac.

Definition block_size : nat := 64.

(** RFC 2104, step 1-2: a key longer than the block is hashed, then the
    key is filled with zero octets up to the block size. *)
Definition block_key (key : pybytes) : pybytes :=
  let k := if (block_size <? List.length key)%nat
           then Sha256.sha256 key else key in
  k ++ repeat 0 (block_size - List.length k).

Definition xor_with (c : N) (bs : pybytes) : pybytes := map (N.lxor c) bs.

Definition hmac (key msg : pybytes) : pybytes :=
  let k := block_key key in
  Sha256.sha256 (xor_with 0x5c k ++ Sha256.sha256 (xor_with 0x36 k ++ msg)).

(** RFC 4231, test case 2. *)
Example hmac_rfc4231_2 :
  hmac (py "Jefe") (py "what do ya want for nothing?") =
  [0x5b; 0xdc; 0xc1; 0x46; 0xbf; 0x60; 0x75; 0x4e; 0x6a; 0x04; 0x24; 0x26;
   0x08; 0x95; 0x75; 0xc7; 0x5a; 0x00; 0x3f; 0x08; 0x9d; 0x27; 0x39; 0x83;
   0x9d; 0xec; 0x58; 0xb9; 0x64; 0xec; 0x38; 0x43].
Proof. vm_compute. reflexivity. Qed.

(** RFC 4231, test case 6 (a key longer than the block). *)
Example hmac_rfc4231_6 :
  hmac (repeat 0xaa 131)
       (py "Test Using Larger Than Block-Size Key - Hash Key First") =
  [0x60; 0xe4; 0x31; 0x59; 0x1e; 0xe0; 0xb6; 0x7f; 0x0d; 0x8a; 0x26; 0xaa;
   0xcb; 0xf5; 0xb7; 0x7f; 0x8e; 0x0b; 0xc6; 0x21; 0x37; 0x28; 0xc5; 0x14;
   0x05; 0x46; 0x04; 0x0f; 0x0e; 0xe3; 0x7f; 0x54].
Proof. vm_compute. reflexivity. Qed.

Lemma hmac_length (key msg : pybytes) : List.length (hmac key msg) = 32%nat.
Proof. apply Sha256.sha256_length. Qed.

(** The key enters the MAC only through its block form. *)
Lemma hmac_block_key (k1 k2 msg : pybytes) :
  block_key k1 = block_key k2 -> hmac k1 msg = hmac k2 msg.
Proof. unfold hmac. now intros ->. Qed.

(** Zero octets appended to a short key do not change its block form. *)
Lemma block_key_zero_padded (k : pybytes) (j : nat) :
  (List.length k + j <= block_size)%nat ->
  block_key (k ++ repeat 0 j) = block_key k.
Proof.
  intros Hlen. unfold block_key.
  rewrite length_app, repeat_length.
  replace (block_size <? List.length k + j)%nat with false
    by (symmetry; apply Nat.ltb_ge; lia).
  replace (block_size <? List.length k)%nat with false
    by (symmetry; apply Nat.ltb_ge; lia).
  rewrite <- app_assoc, <- repeat_app. do 2 f_equal.
  rewrite length_app, repeat_length. lia.
Qed.

Lemma hmac_octets (key msg : pybytes) :
  Forall (fun b => b < 256) (hmac key msg).
Proof. apply Sha256.sha256_octets. Qed.

End Hmac.

Module Pbkdf2.

Definition xor_bytes (a b : pybytes) : pybytes :=
  map (fun p => N.lxor (fst p) (snd p)) (combine a b).

(** One output block: U_1 xor ... xor U_c. *)
Definition F (pw salt : pybytes) (c : N) (i : N) : pybytes :=
  let u1 := Hmac.hmac pw (salt ++ Sha256.word_bytes i) in
  snd (N.iter (c - 1)
         (fun ut => let u := Hmac.hmac pw (fst ut) in
                    (u, xor_bytes (snd ut) u))
         (u1, u1)).

Fixpoint blocks (n : nat) (pw salt : pybytes) (c : N) (i : N) : pybytes :=
  match n with
  | O => []
  | S n' => F pw salt c i ++ blocks n' pw salt c (i + 1)
  end.

Definition pbkdf2_hmac_sha256 (pw salt : pybytes) (c : N) (dklen : nat)
  : pybytes :=
  firstn dklen (blocks ((dklen + 31) / 32) pw salt c 1).

Example pbkdf2_one_iteration :
  pbkdf2_hmac_sha256 (py "password") (py "salt") 1 32 =
  [0x12; 0x0f; 0xb6; 0xcf; 0xfc; 0xf8; 0xb3; 0x2c; 0x43; 0xe7; 0x22; 0x52;
   0x56; 0xc4; 0xf8; 0x37; 0xa8; 0x65; 0x48; 0xc9; 0x2c; 0xcc; 0x35; 0x48;
   0x08; 0x05; 0x98; 0x7c; 0xb7; 0x0b; 0xe1; 0x7b].
Proof. vm_compute. reflexivity. Qed.

Example pbkdf2_three_iterations_40 :
  pbkdf2_hmac_sha256 (py "password") (py "salt") 3 40 =
  [0xad; 0x35; 0x24; 0x0a; 0xc6; 0x83; 0xfe; 0xbf; 0xaf; 0x3c; 0xd4; 0x9d;
   0x84; 0x54; 0x73; 0xfb; 0xbb; 0xaa; 0x24; 0x37; 0xf5; 0xf8; 0x2d; 0x5a;
   0x41; 0x5a; 0xe0; 0x0a; 0xc7; 0x6c; 0x6b; 0xfc; 0xcf; 0x9a; 0x9b; 0x8d;
   0x6d; 0x2f; 0xe4; 0xa1].
Proof. vm_compute. reflexivity. Qed.

Lemma xor_bytes_length (a b : pybytes) :
  List.length (xor_bytes a b) = Nat.min (List.length a) (List.length b).
Proof. unfold xor_bytes. now rewrite length_map, length_combine. Qed.

Lemma F_length (pw salt : pybytes) (c i : N) :
  List.length (F pw salt c i) = 32%nat.
Proof.
  unfold F.
  apply (N.iter_invariant (c - 1) _ _
           (fun ut : pybytes * pybytes => List.length (snd ut) = 32%nat)).
  - intros [u t] Ht. cbn [fst snd] in *.
    now rewrite xor_bytes_length, Ht, Hmac.hmac_length.
  - apply Hmac.hmac_length.
Qed.

(** The configured output length: one block, taken whole. *)
Lemma pbkdf2_length_32 (pw salt : pybytes) (c : N) :
  List.length (pbkdf2_hmac_sha256 pw salt c 32) = 32%nat.
Proof.
  unfold pbkdf2_hmac_sha256.
  change ((32 + 31) / 32)%nat with 1%nat. cbn [blocks].
  rewrite app_nil_r, firstn_all2; rewrite F_length; lia.
Qed.

Lemma F_block_key (pw1 pw2 salt : pybytes) (c i : N) :
  Hmac.block_key pw1 = Hmac.block_key pw2 ->
  F pw1 salt c i = F pw2 salt c i.
Proof. intros H. unfold F, Hmac.hmac. now rewrite H. Qed.

Lemma pbkdf2_block_key (pw1 pw2 salt : pybytes) (c : N) (dklen : nat) :
  Hmac.block_key pw1 = Hmac.block_key pw2 ->
  pbkdf2_hmac_sha256 pw1 salt c dklen = pbkdf2_hmac_sha256 pw2 salt c dklen.
Proof.
  intros H. unfold pbkdf2_hmac_sha256. f_equal.
  generalize 1 as i. induction ((dklen + 31) / 32)%nat as [|m IH]; intros i.
  - reflexivity.
  - cbn [blocks]. now rewrite (F_block_key _ _ _ _ _ H), IH.
Qed.

Lemma lxor_octet (a b : N) : a < 256 -> b < 256 -> N.lxor a b < 256.
Proof.
  intros Ha Hb.
  assert (forall x, x < 256 -> N.log2 x < 8) as Hlog.
  { intros x Hx. destruct (N.eq_dec x 0) as [->|Hx0]; [reflexivity|].
    apply N.log2_lt_pow2; [lia|exact Hx]. }
  destruct (N.eq_dec (N.lxor a b) 0) as [->|Hne]; [reflexivity|].
  change 256 with (2 ^ 8). apply N.log2_lt_pow2; [lia|].
  pose proof (N.log2_lxor a b). pose proof (Hlog a Ha). pose proof (Hlog b Hb).
  lia.
Qed.

Lemma xor_bytes_octets (a b : pybytes) :
  Forall (fun x => x < 256) a -> Forall (fun x => x < 256) b ->
  Forall (fun x => x < 256) (xor_bytes a b).
Proof.
  intros Ha. revert b. unfold xor_bytes.
  induction Ha as [|x a Hx _ IH]; intros b Hb; [constructor|].
  destruct Hb as [|y b Hy Hb]; [constructor|].
  cbn [combine map fst snd]. constructor; [now apply lxor_octet|now apply IH].
Qed.

Lemma F_octets (pw salt : pybytes) (c i : N) :
  Forall (fun x => x < 256) (F pw salt c i).
Proof.
  unfold F.
  apply (N.iter_invariant (c - 1) _ _
           (fun ut : pybytes * pybytes => Forall (fun x => x < 256) (snd ut))).
  - intros [u t] Ht. cbn [fst snd] in *.
    apply xor_bytes_octets; [exact Ht|apply Hmac.hmac_octets].
  - apply Hmac.hmac_octets.
Qed.

Lemma pbkdf2_octets (pw salt : pybytes) (c : N) (dklen : nat) :
  Forall (fun x => x < 256) (pbkdf2_hmac_sha256 pw salt c dklen).
Proof.
  unfold pbkdf2_hmac_sha256. apply Forall_take.
  generalize 1 as i. induction ((dklen + 31) / 32)%nat as [|m IH]; intros i.
  - constructor.
  - cbn [blocks]. apply Forall_app. split; [apply F_octets|apply IH].
Qed.

(** The iterated MAC is never run by the proofs below. *)
#[global] Opaque F.

End Pbkdf2.

(** ** [base64.urlsafe_b64encode] *)

Module Base64.

Definition sym (i : N) : N :=
  if i <? 26 then 65 + i
  else if i <? 52 then 97 + (i - 26)
  else if i <? 62 then 48 + (i - 52)
  else if i =? 62 then 45 else 95.

Fixpoint urlsafe_b64encode (bs : pybytes) : pybytes :=
  match bs with
  | [] => []
  | [a] => [sym (a / 4); sym (a mod 4 * 16); 61; 61]
  | [a; b] => [sym (a / 4); sym (a mod 4 * 16 + b / 16); sym (b mod 16 * 4); 61]
  | a :: b :: c :: r =>
    [sym (a / 4); sym (a mod 4 * 16 + b / 16);
     sym (b mod 16 * 4 + c / 64); sym (c mod 64)] ++ urlsafe_b64encode r
  end.

Example b64_sample :
  urlsafe_b64encode [0xfb; 0xff; 0xfe; 1; 2] = py "-__-AQI=".
Proof. reflexivity. Qed.

Lemma urlsafe_b64encode_length (bs : pybytes) :
  length (urlsafe_b64encode bs) = (4 * ((length bs + 2) / 3))%nat.
Proof.
  assert (exists n, length bs <= n)%nat as [n Hle] by eauto.
  revert bs Hle. induction n as [|n IH]; intros bs Hle.
  - now destruct bs.
  - destruct bs as [|a [|b [|c r]]]; try reflexivity.
    cbn [urlsafe_b64encode app length] in *.
    rewrite IH by lia.
    replace (S (S (S (length r))) + 2)%nat with (length r + 2 + 1 * 3)%nat
      by lia.
    rewrite Nat.div_add by lia. lia.
Qed.

(** The alphabet of the url-safe variant: letters, digits, [-] and [_]. *)
Definition urlsafe (c : N) : bool :=
  ((65 <=? c) && (c <=? 90)) || ((97 <=? c) && (c <=? 122))
  || ((48 <=? c) && (c <=? 57)) || (c =? 45) || (c =? 95).

Lemma sym_urlsafe (i : N) : i < 64 -> urlsafe (sym i) = true.
Proof.
  intros Hi. unfold sym, urlsafe.
  destruct (N.ltb_spec i 26).
  { replace (65 <=? 65 + i) with true by (symmetry; apply N.leb_le; lia).
    replace (65 + i <=? 90) with true by (symmetry; apply N.leb_le; lia).
    reflexivity. }
  destruct (N.ltb_spec i 52).
  { replace (97 <=? 97 + (i - 26)) with true by (symmetry; apply N.leb_le; lia).
    replace (97 + (i - 26) <=? 122) with true
      by (symmetry; apply N.leb_le; lia).
    now rewrite orb_true_r. }
  destruct (N.ltb_spec i 62).
  { replace (48 <=? 48 + (i - 52)) with true by (symmetry; apply N.leb_le; lia).
    replace (48 + (i - 52) <=? 57) with true by (symmetry; apply N.leb_le; lia).
    now rewrite !orb_true_r. }
  destruct (N.eqb_spec i 62); reflexivity.
Qed.

(** Input whose length leaves two octets for the last group is encoded
    with one [=] of padding after symbols of the alphabet. *)
Lemma urlsafe_b64encode_padded (bs : pybytes) :
  Forall (fun b => b < 256) bs ->
  (length bs mod 3 = 2)%nat ->
  exists body : pybytes,
    urlsafe_b64encode bs = body ++ [61]
    /\ Forall (fun c => urlsafe c = true) body.
Proof.
  assert (exists n, length bs <= n)%nat as [n Hle] by eauto.
  revert bs Hle. induction n as [|n IH]; intros bs Hle Hoct Hmod.
  - destruct bs; [discriminate|cbn [length] in Hle; lia].
  - destruct bs as [|a [|b [|c r]]]; try discriminate.
    + exists [sym (a / 4); sym (a mod 4 * 16 + b / 16); sym (b mod 16 * 4)].
      split; [reflexivity|].
      apply Forall_cons in Hoct as [Ha Hoct].
      apply Forall_cons in Hoct as [Hb _].
      repeat (constructor; [apply sym_urlsafe; nlia|]). constructor.
    + apply Forall_cons in Hoct as [Ha Hoct].
      apply Forall_cons in Hoct as [Hb Hoct].
      apply Forall_cons in Hoct as [Hc Hoct].
      destruct (IH r) as (body & E & Hbody).
      { cbn [length] in Hle. lia. }
      { exact Hoct. }
      { cbn [length] in Hmod.
        replace (S (S (S (length r)))) with (length r + 1 * 3)%nat in Hmod
          by lia.
        now rewrite Nat.Div0.mod_add in Hmod. }
      exists ([sym (a / 4); sym (a mod 4 * 16 + b / 16);
               sym (b mod 16 * 4 + c / 64); sym (c mod 64)] ++ body).
      split.
      * cbn [urlsafe_b64encode]. rewrite E. now rewrite <- app_assoc.
      * apply Forall_app. split; [|exact Hbody].
        repeat (constructor; [apply sym_urlsafe; nlia|]). constructor.
Qed.

End Base64.

(** ** [str.replace] and the redactor *)

Module Str.

Fixpoint startswith (p s : pystr) : bool :=
  match p, s with
  | [], _ => true
  | x :: p', c :: s' => (x =? c) && startswith p' s'
  | _ :: _, [] => false
  end.

Definition endswith (suffix s : pystr) : bool :=
  startswith (rev suffix) (rev s).

(** [sub in s]: the substring test. *)
Fixpoint contains (sub s : pystr) : bool :=
  startswith sub s ||
  match s with
  | [] => false
  | _ :: r => contains sub r
  end.

(** Scan from the left; at a match emit [new] and step over the
    matched text ([skip] counts the characters still to step over). *)
Fixpoint replace_from (old new : pystr) (skip : nat) (s : pystr) : pystr :=
  match s with
  | [] => []
  | c :: r =>
    match skip with
    | S k => replace_from old new k r
    | O =>
      if startswith old s
      then new ++ replace_from old new (length old - 1) r
      else c :: replace_from old new 0 r
    end
  end.

(** [s.replace(old, new)]: every non-overlapping occurrence, leftmost
    first; an empty [old] matches before every character and at the end. *)
Definition replace (old new s : pystr) : pystr :=
  match old with
  | [] => new ++ flat_map (fun c => c :: new) s
  | _ :: _ => replace_from old new 0 s
  end.

Example replace_adjacent :
  replace (py "secret") (py "[REDACTED]") (py "xsecretsecret!")
  = py "x[REDACTED][REDACTED]!".
Proof. reflexivity. Qed.

Example replace_empty_pattern :
  replace [] (py "-") (py "ab") = py "-a-b-".
Proof. reflexivity. Qed.

Lemma replace_from_skip (old new : pystr) (k : nat) (s : pystr) :
  replace_from old new k s = replace_from old new 0 (drop k s).
Proof.
  revert k. induction s as [|c r IH]; intros [|k]; try reflexivity.
  cbn [replace_from drop]. apply IH.
Qed.

Lemma startswith_spec (p s : pystr) :
  startswith p s = true <-> exists r, s = p ++ r.
Proof.
  revert s. induction p as [|x p IH]; intros s; cbn [startswith].
  - split; [eauto|reflexivity].
  - destruct s as [|c s].
    + split; [discriminate|]. now intros [r [=]].
    + rewrite andb_true_iff, N.eqb_eq, IH. split.
      * intros [-> [r ->]]. now exists r.
      * intros [r [= -> ->]]. eauto.
Qed.

Lemma endswith_spec (suffix s : pystr) :
  endswith suffix s = true <-> exists stem, s = stem ++ suffix.
Proof.
  unfold endswith. rewrite startswith_spec. split.
  - intros [r Hr]. exists (rev r).
    apply (f_equal (@rev N)) in Hr.
    now rewrite rev_involutive, rev_app_distr, rev_involutive in Hr.
  - intros [stem ->]. exists (rev stem). apply rev_app_distr.
Qed.

(** [sub in s] holds exactly when [sub] starts at some position of [s]. *)
Lemma contains_spec (sub s : pystr) :
  contains sub s = true <-> exists i, startswith sub (drop i s) = true.
Proof.
  induction s as [|c r IH]; cbn [contains].
  - rewrite orb_false_r. split; [intros H; now exists 0%nat|].
    intros [i H]. now rewrite drop_nil in H.
  - rewrite orb_true_iff, IH. split.
    + intros [H|[i H]]; [now exists 0%nat|now exists (S i)].
    + intros [[|i] H]; [now left|right; now exists i].
Qed.

Lemma contains_false (sub s : pystr) :
  contains sub s = false <-> forall i, startswith sub (drop i s) = false.
Proof.
  rewrite <- not_true_iff_false, contains_spec. split.
  - intros H i. apply not_true_iff_false. intros Hi. apply H. now exists i.
  - intros H [i Hi]. now rewrite H in Hi.
Qed.

Section Idempotence.

(** The pattern [o :: os] and the replacement [n :: ns]: the first
    character of the pattern does not occur in the replacement, and the
    first character of the replacement does not occur in the rest of the
    pattern. *)
Variables (o : N) (os : pystr) (n : N) (ns : pystr).
Hypothesis head_old_fresh : o ∉ n :: ns.
Hypothesis head_new_fresh : n ∉ os.

Local Abbreviation old := (o :: os) (only parsing).
Local Abbreviation new := (n :: ns) (only parsing).
Local Abbreviation rep := (replace (o :: os) (n :: ns)) (only parsing).

Lemma rep_nil : rep [] = [].
Proof. reflexivity. Qed.

Lemma rep_cons (c : N) (r : pystr) :
  rep (c :: r) =
  if startswith old (c :: r) then new ++ rep (drop (length os) r)
  else c :: rep r.
Proof.
  unfold replace. cbn [replace_from].
  destruct (startswith (o :: os) (c :: r)); [|reflexivity].
  rewrite replace_from_skip.
  replace (length (o :: os) - 1)%nat with (length os)
    by (cbn [length]; lia).
  reflexivity.
Qed.

(** Induction following the scan. *)
Lemma rep_ind (P : pystr -> Prop) :
  P [] ->
  (forall c r, startswith old (c :: r) = true ->
               P (drop (length os) r) -> P (c :: r)) ->
  (forall c r, startswith old (c :: r) = false -> P r -> P (c :: r)) ->
  forall s, P s.
Proof.
  intros Hnil Hhit Hmiss s.
  remember (length s) as m eqn:Hm. revert s Hm.
  induction m as [m IH] using lt_wf_ind. intros [|c r] Hm; [exact Hnil|].
  cbn [length] in Hm.
  destruct (startswith old (c :: r)) eqn:E.
  - apply Hhit; [exact E|].
    apply (IH (length (drop (length os) r))); [|reflexivity].
    rewrite length_drop. lia.
  - apply Hmiss; [exact E|]. apply (IH (length r)); [lia|reflexivity].
Qed.

(** A prefix free of the replacement's first character that shows up in
    the output was already a prefix of the input. *)
Lemma startswith_rep (p s : pystr) :
  n ∉ p -> startswith p (rep s) = true -> startswith p s = true.
Proof.
  revert s. induction p as [|x p IH]; intros s Hp; [reflexivity|].
  destruct s as [|c r]; [rewrite rep_nil; discriminate|].
  rewrite rep_cons. destruct (startswith old (c :: r)).
  - cbn [app startswith].
    destruct (N.eqb_spec x n) as [->|_]; [|discriminate].
    exfalso. apply Hp. left.
  - cbn [startswith]. intros [Hx Hr]%andb_prop. rewrite Hx. cbn [andb].
    apply IH; [|exact Hr]. intros ?. apply Hp. now right.
Qed.

(** No position of the output starts an occurrence of the pattern. *)
Lemma rep_no_match (s : pystr) (i : nat) :
  startswith old (drop i (rep s)) = false.
Proof.
  revert i. induction s as [|c r Hhit IH|c r Hmiss IH] using rep_ind;
    intros i.
  - rewrite rep_nil. now destruct i.
  - rewrite rep_cons, Hhit.
    destruct (decide (i < length new)%nat) as [Hi|Hi].
    + rewrite (drop_app_le (n :: ns) _ i) by lia.
      destruct (drop i new) as [|x t] eqn:E.
      { apply (f_equal length) in E. rewrite length_drop in E.
        cbn [length] in E, Hi. lia. }
      cbn [app startswith].
      destruct (N.eqb_spec o x) as [<-|_]; [|reflexivity].
      exfalso. apply head_old_fresh.
      assert (o ∈ drop i new) as Hx by (rewrite E; left).
      apply list_elem_of_lookup in Hx as [j Hj].
      rewrite lookup_drop in Hj. eapply list_elem_of_lookup_2, Hj.
    + rewrite (drop_app_ge (n :: ns) _ i) by lia. apply IH.
  - rewrite rep_cons, Hmiss. destruct i as [|i]; [|apply IH].
    cbn [drop]. cbn [startswith].
    destruct (N.eqb_spec o c) as [<-|_]; [|reflexivity]. cbn [andb].
    destruct (startswith os (rep r)) eqn:E; [|reflexivity].
    apply startswith_rep in E; [|exact head_new_fresh].
    cbn [startswith] in Hmiss.
    rewrite N.eqb_refl, E in Hmiss. discriminate.
Qed.

(** Text without an occurrence of the pattern is left alone. *)
Lemma rep_fixed (t : pystr) :
  (forall i, startswith old (drop i t) = false) -> rep t = t.
Proof.
  induction t as [|c r IH]; intros H; [apply rep_nil|].
  rewrite rep_cons. specialize (H 0%nat) as H0. cbn [drop] in H0.
  rewrite H0. f_equal. apply IH. intros i. apply (H (S i)).
Qed.

Lemma rep_idempotent (s : pystr) : rep (rep s) = rep s.
Proof. apply rep_fixed. intros i. apply rep_no_match. Qed.

End Idempotence.

End Str.

(** [redact.py]: [text.replace("secret", "[REDACTED]")]. *)
Module Redactor.

Definition redact (text : pystr) : pystr :=
  Str.replace (py "secret") (py "[REDACTED]") text.

Example redact_sample :
  redact (py "top secret: secretsecrets") =
  py "top [REDACTED]: [REDACTED][REDACTED]s".
Proof. reflexivity. Qed.

(** A text whose halves around a marker would spell a new marker once
    the inner one is gone: the replacement is inserted, not removed, so
    nothing recombines. *)
Example redact_nested :
  redact (py "secsecretret") = py "sec[REDACTED]ret"
  /\ redact (redact (py "secsecretret")) = py "sec[REDACTED]ret".
Proof. split; reflexivity. Qed.

Lemma marker_head_fresh : 115 ∉ 91 :: py "REDACTED]".
Proof.
  cbv [py map list_ascii_of_string N_of_ascii N_of_digits].
  rewrite !elem_of_cons, elem_of_nil. intuition discriminate.
Qed.

Lemma placeholder_head_fresh : 91 ∉ py "ecret".
Proof.
  cbv [py map list_ascii_of_string N_of_ascii N_of_digits].
  rewrite !elem_of_cons, elem_of_nil. intuition discriminate.
Qed.

(** C5: redacting an already redacted text changes nothing, for every
    text: the output of [redact] contains no occurrence of "secret" (the
    placeholder shares no character with the marker's first character,
    so no occurrence can form across an inserted placeholder), and a
    text without occurrence is returned as it is. *)
Theorem redact_idempotent (X : pystr) : redact (redact X) = redact X.
Proof.
  unfold redact.
  change (py "secret") with (115 :: py "ecret").
  change (py "[REDACTED]") with (91 :: py "REDACTED]").
  apply Str.rep_idempotent.
  - exact marker_head_fresh.
  - exact placeholder_head_fresh.
Qed.

Lemma redact_clean (X : pystr) :
  Str.contains (py "secret") (redact X) = false.
Proof.
  apply Str.contains_false. intros i. unfold redact.
  change (py "secret") with (115 :: py "ecret").
  change (py "[REDACTED]") with (91 :: py "REDACTED]").
  apply Str.rep_no_match.
  - exact marker_head_fresh.
  - exact placeholder_head_fresh.
Qed.

(** X1: the marker never survives redaction: no position of the output
    of [redact] starts the text "secret", whatever the input. *)
Theorem redact_removes_marker (X : pystr) :
  Str.contains (py "secret") (redact X) = false.
Proof.
  apply Str.contains_false. intros i. unfold redact.
  change (py "secret") with (115 :: py "ecret").
  change (py "[REDACTED]") with (91 :: py "REDACTED]").
  apply Str.rep_no_match.
  - exact marker_head_fresh.
  - exact placeholder_head_fresh.
Qed.

(** X2: [redact] returns its argument unchanged exactly when the
    argument does not contain the marker. *)
Theorem redact_fixed_iff_clean (X : pystr) :
  redact X = X <-> Str.contains (py "secret") X = false.
Proof.
  split.
  - intros H. rewrite <- H. apply Str.contains_false. intros i. unfold redact.
    change (py "secret") with (115 :: py "ecret").
    change (py "[REDACTED]") with (91 :: py "REDACTED]").
    apply Str.rep_no_match.
    + exact marker_head_fresh.
    + exact placeholder_head_fresh.
  - intros H. unfold redact.
    change (py "secret") with (115 :: py "ecret").
    change (py "[REDACTED]") with (91 :: py "REDACTED]").
    apply Str.rep_fixed. now apply Str.contains_false.
Qed.

End Redactor.

(** ** Python values that reach [json]: dictionaries, lists, strings *)

Set Warnings "-register-all".

Inductive json : Type :=
| JNull
| JBool (b : bool)
| JInt (z : Z)
| JStr (s : pystr)
| JList (l : list json)
| JDict (d : list (pystr * json)).

(** A [dict] with [str] keys, in insertion order. *)
Abbreviation pydict := (list (pystr * json)) (only parsing).

Module Dict.

(** [k in d] *)
Fixpoint has (k : pystr) (d : pydict) : bool :=
  match d with
  | [] => false
  | (k', _) :: r => if decide (k = k') then true else has k r
  end.

(** [d.get(k)] *)
Fixpoint get (k : pystr) (d : pydict) : option json :=
  match d with
  | [] => None
  | (k', v) :: r => if decide (k = k') then Some v else get k r
  end.

(** [d[k] = v]: an existing key keeps its place, a new one goes last. *)
Fixpoint set (k : pystr) (v : json) (d : pydict) : pydict :=
  match d with
  | [] => [(k, v)]
  | (k', v') :: r =>
    if decide (k = k') then (k, v) :: r else (k', v') :: set k v r
  end.

Lemma get_set_eq (k : pystr) (v : json) (d : pydict) :
  get k (set k v d) = Some v.
Proof.
  induction d as [|[k' v'] r IH]; cbn [set get].
  - now rewrite decide_True.
  - destruct (decide (k = k')) as [->|Hk]; cbn [get].
    + now rewrite decide_True.
    + now rewrite decide_False.
Qed.

Lemma get_set_ne (k k0 : pystr) (v : json) (d : pydict) :
  k0 <> k -> get k0 (set k v d) = get k0 d.
Proof.
  intros Hne. induction d as [|[k' v'] r IH]; cbn [set get].
  - now rewrite decide_False.
  - destruct (decide (k = k')) as [->|Hk]; cbn [get].
    + now rewrite !decide_False.
    + now rewrite IH.
Qed.

Lemma has_get (k : pystr) (d : pydict) : has k d = bool_decide (is_Some (get k d)).
Proof.
  induction d as [|[k' v'] r IH]; cbn [has get].
  - symmetry. apply bool_decide_eq_false. now intros [? ?].
  - destruct (decide (k = k')); [|exact IH].
    symmetry. now apply bool_decide_eq_true.
Qed.

Lemma has_set_eq (k : pystr) (v : json) (d : pydict) :
  has k (set k v d) = true.
Proof.
  rewrite has_get, get_set_eq. now apply bool_decide_eq_true.
Qed.

Lemma has_set_ne (k k0 : pystr) (v : json) (d : pydict) :
  k0 <> k -> has k0 (set k v d) = has k0 d.
Proof. intros. now rewrite !has_get, get_set_ne. Qed.

(** Assigning twice to a key keeps the later value only. *)
Lemma set_set (k : pystr) (v1 v2 : json) (d : pydict) :
  set k v2 (set k v1 d) = set k v2 d.
Proof.
  induction d as [|[k' v'] r IH]; cbn [set].
  - now rewrite decide_True.
  - destruct (decide (k = k')) as [->|Hk]; cbn [set].
    + now rewrite decide_True.
    + now rewrite decide_False, IH.
Qed.

(** The keys after an assignment: unchanged when the key was present,
    otherwise the new key comes last. *)
Lemma keys_set (k : pystr) (v : json) (d : pydict) :
  map fst (set k v d) = if has k d then map fst d else map fst d ++ [k].
Proof.
  induction d as [|[k' v'] r IH]; cbn [set has map fst app]; [reflexivity|].
  destruct (decide (k = k')) as [->|Hk]; cbn [map fst]; [reflexivity|].
  rewrite IH. now destruct (has k r).
Qed.

End Dict.

(** [schemas.py] *)
Module EventSchema.

Definition required_keys : list pystr := [py "id"; py "timestamp"; py "data"].

(** [all(key in event for key in required_keys)] *)
Definition validate (event : pydict) : bool :=
  forallb (fun key => Dict.has key event) required_keys.

Lemma validate_set (k : pystr) (v : json) (event : pydict) :
  validate event = true -> validate (Dict.set k v event) = true.
Proof.
  unfold validate. rewrite !forallb_forall. intros H key Hkey.
  destruct (decide (key = k)) as [->|Hne].
  - apply Dict.has_set_eq.
  - rewrite Dict.has_set_ne by exact Hne. now apply H.
Qed.

(** X6: [validate] looks at the presence of the three keys "id",
    "timestamp" and "data" and at nothing else: an event is accepted
    exactly when each of them has a value, of whatever type ([None]
    included) and whatever other keys there are; an accepted event stays
    accepted after any assignment [event[k] = v]. *)
Theorem validate_checks_presence_only (event : pydict) :
  (validate event = true <->
   is_Some (Dict.get (py "id") event)
   /\ is_Some (Dict.get (py "timestamp") event)
   /\ is_Some (Dict.get (py "data") event))
  /\ (forall (k : pystr) (v : json),
        validate event = true -> validate (Dict.set k v event) = true).
Proof.
  split; [|intros k v; apply validate_set].
  unfold validate, required_keys. cbn [forallb].
  rewrite !andb_true_iff, !Dict.has_get, !bool_decide_eq_true. tauto.
Qed.

End EventSchema.

(** ** Path texts

    Paths are the octet strings the file system sees; the separator is
    "/". *)

Module Path.

Definition is_sep (a : ascii) : bool := Ascii.eqb a "/"%char.

Fixpoint all_sep (p : string) : bool :=
  match p with
  | EmptyString => true
  | String a r => is_sep a && all_sep r
  end.

Fixpoint no_sep (p : string) : bool :=
  match p with
  | EmptyString => true
  | String a r => negb (is_sep a) && no_sep r
  end.

(** A name without separator: an entry of the working directory. *)
Definition bare (p : string) : bool :=
  match p with
  | EmptyString => false
  | _ => no_sep p
  end.

(** [p.rstrip("/")] *)
Fixpoint rstrip (p : string) : string :=
  match p with
  | EmptyString => EmptyString
  | String a r =>
    match rstrip r with
    | EmptyString => if is_sep a then EmptyString else String a EmptyString
    | r' => String a r'
    end
  end.

(** [p[:p.rfind("/") + 1]]: the text up to the last separator, with
    it. *)
Fixpoint head (p : string) : string :=
  match p with
  | EmptyString => EmptyString
  | String a r =>
    match head r with
    | EmptyString => if is_sep a then String a EmptyString else EmptyString
    | h => String a h
    end
  end.

(** [os.path.dirname] *)
Definition dirname (p : string) : string :=
  let h := head p in
  if all_sep h then h else rstrip h.

(** The directories on the way to [p], outermost first; the working
    directory and the root are left out. *)
Fixpoint ancestors (fuel : nat) (p : string) : list string :=
  match fuel with
  | O => []
  | S n =>
    let d := dirname p in
    if all_sep d then [] else ancestors n d ++ [d]
  end.

Example dirname_nested : dirname "logs/2024/secure_logs.jsonl" = "logs/2024".
Proof. reflexivity. Qed.

Example ancestors_nested :
  ancestors 27 "logs/2024/secure_logs.jsonl" = ["logs"; "logs/2024"].
Proof. reflexivity. Qed.

Lemma head_no_sep (p : string) : no_sep p = true -> head p = EmptyString.
Proof.
  induction p as [|a r IH]; [reflexivity|]. cbn [no_sep head].
  intros [Ha Hr]%andb_prop. rewrite (IH Hr).
  now destruct (is_sep a).
Qed.

Lemma rstrip_no_sep (p : string) : no_sep p = true -> rstrip p = p.
Proof.
  induction p as [|a r IH]; [reflexivity|]. cbn [no_sep rstrip].
  intros [Ha Hr]%andb_prop. rewrite (IH Hr).
  destruct r; [|reflexivity]. now destruct (is_sep a).
Qed.

Lemma ancestors_no_sep (fuel : nat) (p : string) :
  no_sep p = true -> ancestors fuel p = [].
Proof.
  intros Hp. destruct fuel as [|n]; [reflexivity|].
  cbn [ancestors]. unfold dirname. now rewrite (head_no_sep _ Hp).
Qed.

End Path.

(** ** The world the code runs in *)

Inductive exn : Type :=
| FileNotFoundError (path : string)
| IsADirectoryError (path : string)
| NotADirectoryError (path : string)
| UnicodeEncodeError
| UnicodeDecodeError
| InvalidToken
| ValueError
| JSONDecodeError
| AttributeError
| TypeError
| KeyError
| CollaboratorError (code : N)
| DanglingReference.

(** What a blocking call touches. *)
Inductive io_op : Type :=
| IoRead (path : string)
| IoWrite (path : string)
| IoAppend (path : string)
| IoListdir (path : string)
| IoPrint
| IoSleep (seconds : Z).

(** The lines the programs print, one constructor per [print] call of
    the sources, with the values interpolated into the message. *)
Inductive line : Type :=
| LInvalidSchema
| LLogged (logged_at : json)
| LSync (event : pydict)
| LAudioError (e : exn)
| LSaved
| LDecryptedHeader
| LDecrypted (text : pystr)
| LScoresHeader
| LVideoScore (n : nat)
| LAudioScore (n : nat)
| LNetScore (n : nat)
| LDisplayHeader
| LNoScreenshots
| LNotFound (file : string)
| LFailed (e : exn).

Inductive category : Type := Video | Audio.

(** [self.suspicions]: two sequences of references to event
    dictionaries. *)
Record Store : Type := mkStore { video : list nat; audio : list nat }.

Definition store_append (c : category) (l : nat) (s : Store) : Store :=
  match c with
  | Video => mkStore (video s ++ [l]) (audio s)
  | Audio => mkStore (video s) (audio s ++ [l])
  end.

Record World : Type := mkWorld {
  files : gmap string pybytes;          (* regular files, by path *)
  dirs : gmap string (list pystr);      (* directories and their entries *)
  stdout : list line;
  clock : nat -> N;                     (* clock readings, seconds since the epoch *)
  ticks : nat;
  entropy : nat -> N;                   (* the octets os.urandom hands out *)
  drawn : nat;
  imread : pystr -> bool;               (* images cv2.imread can decode *)
  windows : list (json * json * pystr); (* images shown, with their titles *)
  heap : list pydict;                   (* event dictionaries, by reference *)
  store : Store;
  lock_held : bool;                     (* the running activity holds the lock *)
  io_log : list (bool * io_op)          (* blocking calls, with [lock_held] *)
}.

Definition set_files (f : gmap string pybytes) (w : World) : World :=
  mkWorld f (dirs w) (stdout w) (clock w) (ticks w) (entropy w) (drawn w)
          (imread w) (windows w) (heap w) (store w) (lock_held w) (io_log w).
Definition set_stdout (o : list line) (w : World) : World :=
  mkWorld (files w) (dirs w) o (clock w) (ticks w) (entropy w) (drawn w)
          (imread w) (windows w) (heap w) (store w) (lock_held w) (io_log w).
Definition set_ticks (t : nat) (w : World) : World :=
  mkWorld (files w) (dirs w) (stdout w) (clock w) t (entropy w) (drawn w)
          (imread w) (windows w) (heap w) (store w) (lock_held w) (io_log w).
Definition set_drawn (d : nat) (w : World) : World :=
  mkWorld (files w) (dirs w) (stdout w) (clock w) (ticks w) (entropy w) d
          (imread w) (windows w) (heap w) (store w) (lock_held w) (io_log w).
Definition set_windows (x : list (json * json * pystr)) (w : World) : World :=
  mkWorld (files w) (dirs w) (stdout w) (clock w) (ticks w) (entropy w)
          (drawn w) (imread w) x (heap w) (store w) (lock_held w) (io_log w).
Definition set_heap (h : list pydict) (w : World) : World :=
  mkWorld (files w) (dirs w) (stdout w) (clock w) (ticks w) (entropy w)
          (drawn w) (imread w) (windows w) h (store w) (lock_held w) (io_log w).
Definition set_store (s : Store) (w : World) : World :=
  mkWorld (files w) (dirs w) (stdout w) (clock w) (ticks w) (entropy w)
          (drawn w) (imread w) (windows w) (heap w) s (lock_held w) (io_log w).
Definition set_lock_held (b : bool) (w : World) : World :=
  mkWorld (files w) (dirs w) (stdout w) (clock w) (ticks w) (entropy w)
          (drawn w) (imread w) (windows w) (heap w) (store w) b (io_log w).
Definition log_io (op : io_op) (w : World) : World :=
  mkWorld (files w) (dirs w) (stdout w) (clock w) (ticks w) (entropy w)
          (drawn w) (imread w) (windows w) (heap w) (store w) (lock_held w)
          (io_log w ++ [(lock_held w, op)]).

(** Every blocking call between [before] and [after] was made without
    the store lock. *)
Definition io_outside_lock (before after : World) : Prop :=
  forall op : io_op,
    (true, op) ∉ drop (length (io_log before)) (io_log after).

(** ** State and exceptions *)

Inductive result (A : Type) : Type :=
| Ok (a : A)
| Raise (e : exn).
Arguments Ok {A} a.
Arguments Raise {A} e.

Definition M (A : Type) : Type := World -> result A * World.

Definition ret {A} (a : A) : M A := fun w => (Ok a, w).
Definition raise {A} (e : exn) : M A := fun w => (Raise e, w).
Definition bind {A B} (m : M A) (k : A -> M B) : M B :=
  fun w => match m w with
           | (Ok a, w') => k a w'
           | (Raise e, w') => (Raise e, w')
           end.
(** [try: m except ...: h e] *)
Definition try_except {A} (m : M A) (h : exn -> M A) : M A :=
  fun w => match m w with
           | (Ok a, w') => (Ok a, w')
           | (Raise e, w') => h e w'
           end.
(** Lift a partial pure computation, raising [e] when it has no value. *)
Definition lift {A} (e : exn) (o : option A) : M A :=
  match o with Some a => ret a | None => raise e end.

Notation "'let*' x ':=' m 'in' k" := (bind m (fun x => k))
  (at level 10, x name, m at level 100, k at level 200).
Notation "m ';;' k" := (bind m (fun _ => k))
  (at level 100, k at level 200, right associativity).

(** *** Primitive effects *)

Lemma bool_decide_is_Some {A} (o : option A) :
  bool_decide (is_Some o) = match o with Some _ => true | None => false end.
Proof.
  destruct o.
  - apply bool_decide_eq_true_2. eauto.
  - apply bool_decide_eq_false_2, is_Some_None.
Qed.

(** Standard output is a UTF-8 text stream with strict error handling:
    [print] raises [UnicodeEncodeError], before anything is written,
    when the text of the line has a code point without encoding.  Of the values the lines
    interpolate only a path can bring one: a path whose octets are not
    UTF-8 reaches Python as text with surrogate escapes.  Dictionaries
    and the file names inside exception messages are shown through
    [repr], which escapes such code points; the time stamps, the numbers
    and the JSON texts are ASCII. *)
Definition printable (l : line) : bool :=
  match l with
  | LNotFound file => bool_decide (is_Some (Utf8.decode (py file)))
  | _ => true
  end.

Definition print (l : line) : M unit :=
  fun w =>
    if printable l
    then (Ok tt, set_stdout (stdout w ++ [l]) (log_io IoPrint w))
    else (Raise UnicodeEncodeError, w).

(** [os.path.exists] *)
Definition path_exists (p : string) : M bool :=
  fun w => (Ok (bool_decide (is_Some (files w !! p))
                || bool_decide (is_Some (dirs w !! p))), w).

(** Opening a file walks the directories its path names, outermost
    first; a bare name lies in the working directory.  The first name
    on the way that is no directory decides: [NotADirectoryError] when
    it is a regular file, [FileNotFoundError] when there is nothing. *)
Definition way_error (p : string) (w : World) : option exn :=
  let q := Path.rstrip p in
  match List.find (fun d => negb (bool_decide (is_Some (dirs w !! d))))
                  (Path.ancestors (String.length q) q) with
  | Some d =>
    if bool_decide (is_Some (files w !! d))
    then Some (NotADirectoryError p)
    else Some (FileNotFoundError p)
  | None => None
  end.

(** [open(p, "rb").read()] *)
Definition read_file (p : string) : M pybytes :=
  fun w =>
    match files w !! p with
    | Some bs => (Ok bs, log_io (IoRead p) w)
    | None =>
      if bool_decide (is_Some (dirs w !! p))
      then (Raise (IsADirectoryError p), w)
      else (Raise (default (FileNotFoundError p) (way_error p w)), w)
    end.

(** What [open(p, "wb")] and [open(p, "ab")] raise, if anything (POSIX).
    A directory cannot be opened for writing; a file that exists can; a
    new file is created in the directory its path names, which must be
    there, and a new name with a trailing separator is refused. *)
Definition create_error (p : string) (w : World) : option exn :=
  match p with
  | EmptyString => Some (FileNotFoundError p)
  | _ =>
    match way_error p w with
    | Some e => Some e
    | None =>
      if bool_decide (Path.rstrip p = p) then None
      else Some (IsADirectoryError p)
    end
  end.

Definition open_error (p : string) (w : World) : option exn :=
  if bool_decide (is_Some (dirs w !! p)) then Some (IsADirectoryError p)
  else if bool_decide (is_Some (files w !! p)) then None
  else create_error p w.

(** [open(p, "wb").write(bs)]: the file is created or truncated. *)
Definition write_file (p : string) (bs : pybytes) : M unit :=
  fun w =>
    match open_error p w with
    | Some e => (Raise e, w)
    | None =>
      (Ok tt, set_files (<[p := bs]> (files w)) (log_io (IoWrite p) w))
    end.

(** [open(p, "ab").write(bs)] *)
Definition append_file (p : string) (bs : pybytes) : M unit :=
  fun w =>
    match open_error p w with
    | Some e => (Raise e, w)
    | None =>
      (Ok tt, set_files (<[p := default [] (files w !! p) ++ bs]> (files w))
                        (log_io (IoAppend p) w))
    end.

(** A name without separator lies in the working directory: opening it
    for writing fails only when it is a directory. *)
Lemma way_error_bare (p : string) (w : World) :
  Path.bare p = true -> way_error p w = None.
Proof.
  intros Hp. unfold way_error.
  destruct p as [|a r]; [discriminate|]. cbn [Path.bare] in Hp.
  now rewrite (Path.rstrip_no_sep _ Hp), (Path.ancestors_no_sep _ _ Hp).
Qed.

Lemma create_error_bare (p : string) (w : World) :
  Path.bare p = true -> create_error p w = None.
Proof.
  intros Hp. unfold create_error. rewrite (way_error_bare _ _ Hp).
  destruct p as [|a r]; [discriminate|]. cbn [Path.bare] in Hp.
  now rewrite (Path.rstrip_no_sep _ Hp), bool_decide_eq_true_2.
Qed.

Lemma open_error_bare (p : string) (w : World) :
  Path.bare p = true ->
  open_error p w =
  if bool_decide (is_Some (dirs w !! p))
  then Some (IsADirectoryError p) else None.
Proof.
  intros Hp. unfold open_error. rewrite (create_error_bare _ _ Hp).
  now destruct (bool_decide (is_Some (files w !! p))).
Qed.

(** Opening for writing when the path is no directory and either the
    file exists or it can be created. *)
Lemma open_error_none (p : string) (w : World) :
  dirs w !! p = None -> create_error p w = None -> open_error p w = None.
Proof.
  intros Hd Hc. unfold open_error. rewrite bool_decide_is_Some, Hd, Hc.
  now destruct (bool_decide (is_Some (files w !! p))).
Qed.

(** A path that is neither a file nor a directory, and cannot be
    created. *)
Lemma open_error_create (p : string) (w : World) :
  files w !! p = None -> dirs w !! p = None ->
  open_error p w = create_error p w.
Proof.
  intros Hf Hd. unfold open_error. now rewrite !bool_decide_is_Some, Hd, Hf.
Qed.

Lemma open_error_directory (p : string) (names : list pystr) (w : World) :
  dirs w !! p = Some names -> open_error p w = Some (IsADirectoryError p).
Proof. intros Hd. unfold open_error. now rewrite bool_decide_is_Some, Hd. Qed.

(** The three ways in which opening for writing fails. *)
Lemma create_error_cases (p : string) (e : exn) (w : World) :
  create_error p w = Some e ->
  e = FileNotFoundError p \/ e = NotADirectoryError p
  \/ e = IsADirectoryError p.
Proof.
  unfold create_error, way_error.
  destruct p as [|a r]; [intros [= <-]; now left|].
  destruct (find _ _) as [d|].
  - destruct (bool_decide _); intros [= <-]; auto.
  - destruct (bool_decide _); [discriminate|]. intros [= <-]. auto.
Qed.

Lemma open_error_cases (p : string) (e : exn) (w : World) :
  open_error p w = Some e ->
  e = IsADirectoryError p /\ is_Some (dirs w !! p)
  \/ dirs w !! p = None /\ files w !! p = None /\ create_error p w = Some e.
Proof.
  unfold open_error. rewrite !bool_decide_is_Some.
  destruct (dirs w !! p) as [names|]; [intros [= <-]; left; eauto|].
  destruct (files w !! p); [discriminate|]. auto.
Qed.

(** Opening looks at the files and the directories only. *)
Lemma open_error_ext (p : string) (w w' : World) :
  files w' = files w -> dirs w' = dirs w -> open_error p w' = open_error p w.
Proof.
  intros Hf Hd. unfold open_error, create_error, way_error.
  now rewrite Hf, Hd.
Qed.

(** [os.listdir] *)
Definition listdir (p : string) : M (list pystr) :=
  fun w =>
    match dirs w !! p with
    | Some names => (Ok names, log_io (IoListdir p) w)
    | None =>
      if bool_decide (is_Some (files w !! p))
      then (Raise (NotADirectoryError p), w)
      else (Raise (default (FileNotFoundError p) (way_error p w)), w)
    end.

(** [int(time.time())]: the next reading of the clock. *)
Definition time_time : M N :=
  fun w => (Ok (clock w (ticks w)), set_ticks (S (ticks w)) w).

(** [time.sleep(s)] *)
Definition sleep (s : Z) : M unit :=
  fun w => (Ok tt, set_ticks (S (ticks w)) (log_io (IoSleep s) w)).

(** [os.urandom(n)] *)
Definition urandom (n : nat) : M pybytes :=
  fun w => (Ok (map (fun i => entropy w (drawn w + i)%nat mod 256) (seq 0 n)),
            set_drawn (drawn w + n) w).

(** A new dictionary object; the result is the reference to it. *)
Definition alloc (d : pydict) : M nat :=
  fun w => (Ok (length (heap w)), set_heap (heap w ++ [d]) w).

Definition deref (l : nat) : M pydict :=
  fun w => match heap w !! l with
           | Some d => (Ok d, w)
           | None => (Raise DanglingReference, w)
           end.

(** Assignment through the reference: every holder sees the change. *)
Definition assign (l : nat) (d : pydict) : M unit :=
  fun w => (Ok tt, set_heap (<[l := d]> (heap w)) w).

Definition acquire : M unit := fun w => (Ok tt, set_lock_held true w).
Definition release : M unit := fun w => (Ok tt, set_lock_held false w).

(** [with self.lock: body]: the lock is released on the way out, also
    when [body] raises. *)
Definition with_lock {A} (body : M A) : M A :=
  acquire ;;
  let* r := try_except (let* a := body in ret (Ok a))
                       (fun e => ret (Raise e)) in
  release ;;
  match r with Ok a => ret a | Raise e => raise e end.

Fixpoint for_each {A} (xs : list A) (body : A -> M unit) : M unit :=
  match xs with
  | [] => ret tt
  | x :: r => body x ;; for_each r body
  end.

(** [open(p, "w")] followed by writing text: the file is truncated when
    it is opened, then receives the encoded text. *)
Definition write_text (p : string) (s : pystr) : M unit :=
  write_file p [] ;;
  let* bs := lift UnicodeEncodeError (Utf8.encode s) in
  write_file p bs.

(** ** [snapshot_hasher.py] *)

Module SnapshotHasher.

Definition hexdigit (n : N) : N := if n <? 10 then 48 + n else 87 + n.

(** [digest.hexdigest()]: two lower-case hexadecimal digits per octet. *)
Definition hexdigest (bs : pybytes) : pystr :=
  flat_map (fun b => [hexdigit (b / 16); hexdigit (b mod 16)]) bs.

(** [hashlib.sha256(data.encode()).hexdigest()] *)
Definition hash_snapshot (data : pystr) : result pystr :=
  match Utf8.encode data with
  | Some bs => Ok (hexdigest (Sha256.sha256 bs))
  | None => Raise UnicodeEncodeError
  end.

Definition lower_hex (c : N) : bool :=
  ((48 <=? c) && (c <=? 57)) || ((97 <=? c) && (c <=? 102)).

Example hash_snapshot_abc :
  hash_snapshot (py "abc")
  = Ok (py "ba7816bf8f01cfea414140de5dae2223b00361a396177a9cb410ff61f20015ad").
Proof. vm_compute. reflexivity. Qed.

Lemma hexdigit_lower_hex (n : N) : n < 16 -> lower_hex (hexdigit n) = true.
Proof.
  intros Hn. unfold hexdigit, lower_hex.
  destruct (N.ltb_spec n 10).
  - replace (48 <=? 48 + n) with true by (symmetry; apply N.leb_le; lia).
    replace (48 + n <=? 57) with true by (symmetry; apply N.leb_le; lia).
    reflexivity.
  - replace (97 <=? 87 + n) with true by (symmetry; apply N.leb_le; lia).
    replace (87 + n <=? 102) with true by (symmetry; apply N.leb_le; lia).
    now rewrite orb_true_r.
Qed.

Lemma hexdigest_shape (bs : pybytes) :
  Forall (fun b => b < 256) bs ->
  length (hexdigest bs) = (2 * length bs)%nat
  /\ Forall (fun c => lower_hex c = true) (hexdigest bs).
Proof.
  unfold hexdigest. induction 1 as [|b r Hb _ [IHl IHf]]; [now split|].
  cbn [flat_map app length]. split; [lia|].
  repeat (constructor; [apply hexdigit_lower_hex; nlia|]). exact IHf.
Qed.

(** X22: for every text that has a UTF-8 encoding the hash of a
    snapshot is a string of exactly 64 lower-case hexadecimal digits; a
    text without encoding (a lone surrogate) raises
    [UnicodeEncodeError]: the two cases exclude each other and there is
    no third. *)
Theorem hash_snapshot_is_64_hex (data : pystr) :
  (exists h : pystr,
     hash_snapshot data = Ok h
     /\ length h = 64%nat
     /\ Forall (fun c => lower_hex c = true) h
     /\ is_Some (Utf8.encode data))
  \/ (hash_snapshot data = Raise UnicodeEncodeError
      /\ Utf8.encode data = None).
Proof.
  unfold hash_snapshot. destruct (Utf8.encode data) as [bs|]; [left|now right].
  destruct (hexdigest_shape (Sha256.sha256 bs) (Sha256.sha256_octets bs))
    as [Hl Hf].
  eexists. split; [reflexivity|]. split; [|split; [exact Hf|eauto]].
  rewrite Hl. reflexivity.
Qed.

End SnapshotHasher.

(** ** [key_manager.py] *)

Module KeyManager.

Definition iterations : N := 390000.

Definition derive_key_from_password (password : pystr) (salt_file : string)
  : M pybytes :=
  (* Load or create salt *)
  let* present := path_exists salt_file in
  let* salt :=
    if present then read_file salt_file
    else (let* fresh := urandom 16 in
          write_file salt_file fresh ;;
          ret fresh) in
  (* Derive 32-byte key *)
  let* pw := lift UnicodeEncodeError (Utf8.encode password) in
  let key := Pbkdf2.pbkdf2_hmac_sha256 pw salt iterations 32 in
  (* Fernet requires urlsafe base64 encoding *)
  ret (Base64.urlsafe_b64encode key).

(** The key a password and a salt determine. *)
Definition key_of (pw salt : pybytes) : pybytes :=
  Base64.urlsafe_b64encode (Pbkdf2.pbkdf2_hmac_sha256 pw salt iterations 32).

(** What the call returns for a password and the salt it used. *)
Definition outcome (password : pystr) (salt : pybytes) : result pybytes :=
  match Utf8.encode password with
  | Some pw => Ok (key_of pw salt)
  | None => Raise UnicodeEncodeError
  end.

Lemma derive_existing_salt (password : pystr) (salt_file : string)
    (salt : pybytes) (w : World) :
  files w !! salt_file = Some salt ->
  derive_key_from_password password salt_file w =
  (outcome password salt, log_io (IoRead salt_file) w).
Proof.
  intros Hs. unfold derive_key_from_password, outcome, key_of.
  cbv beta iota zeta delta [bind ret raise lift path_exists read_file].
  rewrite !bool_decide_is_Some, Hs. cbn [orb]. cbv beta iota. rewrite Hs.
  now destruct (Utf8.encode password).
Qed.

Lemma derive_fresh_salt (password : pystr) (salt_file : string) (w : World) :
  files w !! salt_file = None ->
  dirs w !! salt_file = None ->
  create_error salt_file w = None ->
  derive_key_from_password password salt_file w =
  (outcome password
     (map (fun i => entropy w (drawn w + i)%nat mod 256) (seq 0 16)),
   set_files (<[salt_file :=
                  map (fun i => entropy w (drawn w + i)%nat mod 256) (seq 0 16)]>
                (files w))
             (log_io (IoWrite salt_file) (set_drawn (drawn w + 16) w))).
Proof.
  intros Hf Hd Hc. unfold derive_key_from_password, outcome, key_of.
  cbv beta iota zeta delta [bind ret raise lift path_exists urandom write_file].
  rewrite !bool_decide_is_Some, Hf, Hd. cbn [orb]. cbv beta iota.
  rewrite (open_error_ext salt_file w) by reflexivity.
  rewrite (open_error_none _ _ Hd Hc).
  now destruct (Utf8.encode password).
Qed.

(** C3 (amended): when the salt file exists with contents [salt], a
    call reads it and leaves every file and the entropy source as they
    were (the salt is neither rewritten nor regenerated); the result is
    a function of password and salt alone, so every call with the same
    password and the same persisted salt returns the identical key (or
    fails alike with [UnicodeEncodeError] when the password has no UTF-8
    encoding).  Different passwords are not guaranteed different keys:
    two passwords whose encodings have the same HMAC block form derive
    the same key. *)
Theorem derive_key_reuses_salt (W : pystr) (salt : pybytes)
    (salt_file : string) (w1 w2 : World) :
  files w1 !! salt_file = Some salt ->
  files w2 !! salt_file = Some salt ->
  files (snd (derive_key_from_password W salt_file w1)) = files w1
  /\ drawn (snd (derive_key_from_password W salt_file w1)) = drawn w1
  /\ fst (derive_key_from_password W salt_file w1) = outcome W salt
  /\ fst (derive_key_from_password W salt_file w1)
     = fst (derive_key_from_password W salt_file w2)
  /\ (forall (W' : pystr) (pw pw' : pybytes),
        Utf8.encode W = Some pw ->
        Utf8.encode W' = Some pw' ->
        Hmac.block_key pw = Hmac.block_key pw' ->
        fst (derive_key_from_password W' salt_file w1)
        = fst (derive_key_from_password W salt_file w1)).
Proof.
  intros H1 H2.
  rewrite (derive_existing_salt W _ _ _ H1), (derive_existing_salt W _ _ _ H2).
  cbn [fst snd]. repeat split.
  intros W' pw pw' HW HW' Hblock.
  rewrite (derive_existing_salt W' _ _ _ H1). cbn [fst].
  unfold outcome, key_of. rewrite HW, HW'.
  rewrite (Pbkdf2.pbkdf2_block_key pw' pw salt iterations 32)
    by (symmetry; exact Hblock).
  reflexivity.
Qed.

(** *** Further properties of the key derivation *)

Lemma derive_salt_is_directory (password : pystr) (salt_file : string)
    (names : list pystr) (w : World) :
  files w !! salt_file = None ->
  dirs w !! salt_file = Some names ->
  derive_key_from_password password salt_file w
  = (Raise (IsADirectoryError salt_file), w).
Proof.
  intros Hf Hd. unfold derive_key_from_password.
  cbv beta iota zeta delta [bind ret raise lift path_exists read_file].
  rewrite !bool_decide_is_Some, Hf, Hd. cbn [orb]. cbv beta iota.
  now rewrite Hf, bool_decide_is_Some, Hd.
Qed.

(** Nothing under the name of the salt file, and no directory to
    create it in: the octets are drawn, the file is not written. *)
Lemma derive_salt_not_created (password : pystr) (salt_file : string)
    (e : exn) (w : World) :
  files w !! salt_file = None ->
  dirs w !! salt_file = None ->
  create_error salt_file w = Some e ->
  derive_key_from_password password salt_file w
  = (Raise e, set_drawn (drawn w + 16) w).
Proof.
  intros Hf Hd Hc. unfold derive_key_from_password.
  cbv beta iota zeta delta [bind ret raise lift path_exists urandom write_file].
  rewrite !bool_decide_is_Some, Hf, Hd. cbn [orb]. cbv beta iota.
  rewrite (open_error_ext salt_file w) by reflexivity.
  now rewrite (open_error_create _ _ Hf Hd), Hc.
Qed.

(** The key of a password and a salt: 43 symbols of the url-safe
    alphabet and one [=]. *)
Lemma key_of_shape (pw salt : pybytes) :
  exists body : pybytes,
    key_of pw salt = body ++ [61]
    /\ length body = 43%nat
    /\ Forall (fun c => Base64.urlsafe c = true) body.
Proof.
  unfold key_of.
  generalize (Pbkdf2.pbkdf2_length_32 pw salt iterations),
             (Pbkdf2.pbkdf2_octets pw salt iterations 32).
  generalize (Pbkdf2.pbkdf2_hmac_sha256 pw salt iterations 32) as raw.
  intros raw Hlen Hoct.
  pose proof (Base64.urlsafe_b64encode_length raw) as Hl.
  destruct (Base64.urlsafe_b64encode_padded raw Hoct) as (body & E & Hbody).
  { rewrite Hlen. reflexivity. }
  exists body. split; [exact E|]. split; [|exact Hbody].
  rewrite E, Hlen, length_app in Hl. cbn [length] in Hl.
  change ((32 + 2) / 3)%nat with 11%nat in Hl. lia.
Qed.

(** X4: whatever the world, the salt file and the password, a key that
    [derive_key_from_password] returns has the shape the token library
    asks for: 44 characters, the first 43 from the url-safe base64
    alphabet (letters, digits, [-], [_]) and a final [=]. *)
Theorem derived_key_is_fernet_shaped (password : pystr) (salt_file : string)
    (w w' : World) (k : pybytes) :
  derive_key_from_password password salt_file w = (Ok k, w') ->
  exists body : pybytes,
    k = body ++ [61]
    /\ length body = 43%nat
    /\ Forall (fun c => Base64.urlsafe c = true) body.
Proof.
  destruct (files w !! salt_file) as [salt|] eqn:Hf.
  { rewrite (derive_existing_salt _ _ _ _ Hf). unfold outcome.
    destruct (Utf8.encode password) as [pw|]; [|discriminate].
    generalize (key_of_shape pw salt). generalize (key_of pw salt) as k0.
    intros k0 Hk0 [= <- _]. exact Hk0. }
  destruct (dirs w !! salt_file) as [names|] eqn:Hd.
  { rewrite (derive_salt_is_directory _ _ _ _ Hf Hd). discriminate. }
  destruct (create_error salt_file w) as [e|] eqn:Hc.
  { rewrite (derive_salt_not_created _ _ _ _ Hf Hd Hc). discriminate. }
  rewrite (derive_fresh_salt _ _ _ Hf Hd Hc). unfold outcome.
  destruct (Utf8.encode password) as [pw|]; [|discriminate].
  match goal with
  | |- (Ok (key_of pw ?salt), _) = _ -> _ =>
    generalize (key_of_shape pw salt); generalize (key_of pw salt) as k0
  end.
  intros k0 Hk0 [= <- _]. exact Hk0.
Qed.

(** X5: the first call for a salt file that does not exist yet, in a
    directory that does, draws 16 octets, stores them in the salt file,
    and derives the key from them (the file is written even when the
    password then turns out to have no UTF-8 encoding); every later call
    that finds this file returns the result of the first call and writes
    and draws nothing.  When the file cannot be created (its directory
    is missing, or a regular file is in the way) the call raises after
    the 16 octets were drawn, no file is written, and the salt is
    lost. *)
Theorem derive_creates_then_reuses_salt (W : pystr) (salt_file : string)
    (w : World) :
  files w !! salt_file = None ->
  dirs w !! salt_file = None ->
  (create_error salt_file w = None ->
   exists (salt : pybytes) (w1 : World),
     derive_key_from_password W salt_file w = (outcome W salt, w1)
     /\ length salt = 16%nat
     /\ Forall (fun b => b < 256) salt
     /\ files w1 = <[salt_file := salt]> (files w)
     /\ drawn w1 = (drawn w + 16)%nat
     /\ forall w2 : World,
          files w2 !! salt_file = Some salt ->
          fst (derive_key_from_password W salt_file w2)
            = fst (derive_key_from_password W salt_file w)
          /\ files (snd (derive_key_from_password W salt_file w2)) = files w2
          /\ drawn (snd (derive_key_from_password W salt_file w2)) = drawn w2)
  /\ (forall e : exn,
        create_error salt_file w = Some e ->
        (e = FileNotFoundError salt_file \/ e = NotADirectoryError salt_file
         \/ e = IsADirectoryError salt_file)
        /\ derive_key_from_password W salt_file w
           = (Raise e, set_drawn (drawn w + 16) w)).
Proof.
  intros Hf Hd. split.
  - intros Hc. rewrite (derive_fresh_salt _ _ _ Hf Hd Hc).
    eexists _, _. split; [reflexivity|].
    split; [now rewrite length_map, length_seq|].
    split.
    { apply Forall_map, Forall_forall. intros i _. cbn.
      apply N.mod_lt. discriminate. }
    split; [reflexivity|]. split; [reflexivity|].
    intros w2 H2. rewrite (derive_existing_salt _ _ _ _ H2).
    cbn [fst snd]. repeat split.
  - intros e Hc. split; [|now apply derive_salt_not_created].
    exact (create_error_cases _ _ _ Hc).
Qed.

End KeyManager.

(** ** [neurosentinel_camera.py]: the detector *)

Module Camera.

(** A landmark of the hand model: normalised image coordinates. *)
Record Landmark : Type := mkLandmark { lm_x : float; lm_y : float }.

Definition tips_ids : list nat := [4; 8; 12; 16; 20]%nat.
Definition pip_ids : list nat := [2; 6; 10; 14; 18]%nat.

Definition up (b : bool) : nat := if b then 1%nat else 0%nat.

(** [count_fingers(hand_landmarks, handedness)]; [None] stands for the
    [IndexError] of a landmark list that is too short. *)
Definition count_fingers (landmark : list Landmark) (handedness : pystr)
  : option nat :=
  tip0 ← landmark !! 4%nat;
  pip0 ← landmark !! 2%nat;
  let thumb :=
    if decide (handedness = py "Right")
    then up (lm_x pip0 <? lm_x tip0)%float
    else up (lm_x tip0 <? lm_x pip0)%float in
  others ← mapM (fun ids : nat * nat =>
                   tip ← landmark !! fst ids;
                   pip ← landmark !! snd ids;
                   Some (up (lm_y tip <? lm_y pip)%float))
                (zip (tail tips_ids) (tail pip_ids));
  Some (sum_list (thumb :: others)).

(** What the detector asks of its environment: image files, lines of
    output, and the calls that draw on the screen or end the capture. *)
Inductive effect : Type :=
| Imwrite (filename : pystr)
| PrintSaved (filename : pystr)
| ShowWarning (score : Z)
| DrawHand
| ShowFrame (active : bool) (direction : pystr) (score : Z) (suspicious : bool)
| PrintExiting
| PrintStarted
| PrintPaused
| NamedWindow
| Release
| DestroyAllWindows
| PrintReleased
| PrintFinal (student_id : pystr) (score : Z).

(** [save_screenshot]: the name of the image file for a reading [t] of
    [int(time.time())], as [os.listdir] reports it and with the
    directory. *)
Definition screenshot_entry (reason : pystr) (t : N) : pystr :=
  reason ++ py "_" ++ py (pretty (Z.of_N t)) ++ py ".jpg".

Definition screenshot_filename (reason : pystr) (t : N) : pystr :=
  py "screenshots/" ++ screenshot_entry reason t.

Definition save_screenshot (reason : pystr) (t : N) : list effect :=
  [Imwrite (screenshot_filename reason t);
   PrintSaved (screenshot_filename reason t)].

(** The fields of a [CameraDetector] that [run] reads and writes;
    [cap_open] is [self.cap.isOpened()]. *)
Record Detector : Type := mkDetector {
  cheating_score : Z;
  away_start : option float;
  active : bool;
  finger_alert_active : bool;
  cap_open : bool }.

(** What one pass of the loop observes: the size of the frame, the
    rectangle of the window ([None] when asking for it raised), the
    direction [get_head_direction] gave for the first face ([None]
    without a face), the reading of [time.time()] in the test of the
    time away, the readings of [int(time.time())] a screenshot of the
    head and one of the fingers would get, the detected hands with their
    labels, and the key pressed ([cv2.waitKey(...) & 0xFF]). *)
Record Frame : Type := mkFrame {
  shape : Z * Z;
  window_rect : option (Z * Z);
  face : option pystr;
  now : float;
  head_shot_time : N;
  finger_shot_time : N;
  hands : list (list Landmark * pystr);
  key : N }.

Inductive control : Type := Continue | Break | Abort.

Definition away_directions : list pystr :=
  [py "LEFT"; py "RIGHT"; py "UP"; py "DOWN"].

(** Lines 148-172: the head. *)
Definition face_stage (d : Detector) (f : Frame)
  : Detector * list effect * pystr * bool :=
  match face f with
  | Some direction =>
    if bool_decide (direction ∈ away_directions) then
      match away_start d with
      | None =>
        (mkDetector (cheating_score d) (Some (now f)) (active d)
                    (finger_alert_active d) (cap_open d),
         [], direction, false)
      | Some since =>
        if (2 <? now f - since)%float then
          (mkDetector (cheating_score d + 1) None (active d)
                      (finger_alert_active d) (cap_open d),
           save_screenshot direction (head_shot_time f), direction, true)
        else (d, [], direction, false)
      end
    else
      (mkDetector (cheating_score d) None (active d)
                  (finger_alert_active d) (cap_open d),
       [], direction, false)
  | None =>
    match away_start d with
    | None =>
      (mkDetector (cheating_score d) (Some (now f)) (active d)
                  (finger_alert_active d) (cap_open d),
       [], py "NO FACE", false)
    | Some since =>
      if (5 <? now f - since)%float then
        (mkDetector (cheating_score d + 1) None (active d)
                    (finger_alert_active d) (cap_open d),
         save_screenshot (py "NO_FACE") (head_shot_time f), py "NO FACE", true)
      else (d, [], py "NO FACE", false)
    end
  end.

(** Lines 176-186: the loop over the hands; [None] when [count_fingers]
    raised. *)
Fixpoint scan_hands (hs : list (list Landmark * pystr))
  : list effect * option bool :=
  match hs with
  | [] => ([], Some false)
  | (landmark, label) :: rest =>
    match count_fingers landmark label with
    | None => ([], None)
    | Some fingers_up =>
      let '(fx, found) := scan_hands rest in
      (DrawHand :: fx,
       option_map (orb (bool_decide (fingers_up ∈ [1; 2; 3; 4; 5]%nat))) found)
    end
  end.

(** Lines 174-194: the hands. *)
Definition hand_stage (d : Detector) (f : Frame)
  : Detector * list effect * option bool :=
  let '(fx, found) := scan_hands (hands f) in
  match found with
  | None => (d, fx, None)
  | Some finger_detected =>
    if finger_detected && negb (finger_alert_active d) then
      (mkDetector (cheating_score d + 1) (away_start d) (active d) true
                  (cap_open d),
       fx ++ save_screenshot (py "fingers") (finger_shot_time f), Some true)
    else if negb finger_detected then
      (mkDetector (cheating_score d) (away_start d) (active d) false
                  (cap_open d),
       fx, Some false)
    else (d, fx, Some false)
  end.

(** One pass of the loop of [run], from the frame that was read to the
    key. *)
Definition frame_step (d : Detector) (f : Frame)
  : Detector * list effect * control :=
  let '(win_w, win_h) := default (shape f) (window_rect f) in
  if active d && ((win_w =? 0)%Z || (win_h =? 0)%Z) then
    if key f =? 27 then (d, [ShowWarning (cheating_score d); PrintExiting], Break)
    else if key f =? 112 then
      (d, [ShowWarning (cheating_score d); PrintPaused], Break)
    else (d, [ShowWarning (cheating_score d)], Continue)
  else
    let '(d1, fx1, direction, suspicious1) :=
      if active d then face_stage d f else (d, [], py "NO FACE", false) in
    let '(d2, fx2, suspicious2) :=
      if active d then hand_stage d1 f else (d1, [], Some false) in
    match suspicious2 with
    | None => (d2, fx1 ++ fx2, Abort)
    | Some s2 =>
      let fx := fx1 ++ fx2
                ++ [ShowFrame (active d2) direction (cheating_score d2)
                              (suspicious1 || s2)] in
      if key f =? 27 then (d2, fx ++ [PrintExiting], Break)
      else if key f =? 115 then
        (mkDetector (cheating_score d2) (away_start d2) true
                    (finger_alert_active d2) (cap_open d2),
         fx ++ [PrintStarted], Continue)
      else if key f =? 112 then (d2, fx ++ [PrintPaused], Break)
      else (d2, fx, Continue)
    end.

(** The loop of [run] over the frames the camera delivers; after the
    last of them [cap.read()] reports failure and the loop ends.  The
    result tells whether the loop was left by an exception. *)
Fixpoint camera_loop (d : Detector) (frames : list Frame)
  : Detector * list effect * bool :=
  if cap_open d then
    match frames with
    | [] => (d, [], false)
    | f :: rest =>
      match frame_step d f with
      | (d1, fx, Continue) =>
        let '(d2, fx', failed) := camera_loop d1 rest in (d2, fx ++ fx', failed)
      | (d1, fx, Break) => (d1, fx, false)
      | (d1, fx, Abort) => (d1, fx, true)
      end
    end
  else (d, [], false).

(** How a call of [run] ends: with the score, with the exception of the
    loop, or with the exception of the database update. *)
Inductive run_outcome : Type :=
| Returned (score : Z)
| LoopFailed
| DatabaseFailed (e : exn).

(** The reasons [run] passes to [save_screenshot]. *)
Definition reasons : list pystr :=
  [py "LEFT"; py "RIGHT"; py "UP"; py "DOWN"; py "NO_FACE"; py "fingers"].

(** The screenshots among the effects. *)
Definition shots (fx : list effect) : list pystr :=
  flat_map (fun e => match e with Imwrite name => [name] | _ => [] end) fx.

(** X24: on the 21 landmarks of a detected hand [count_fingers] returns
    a number between 0 and 5, so the test [fingers_up in [1, 2, 3, 4, 5]]
    of the camera loop holds exactly when at least one finger counts as
    raised. *)
Theorem count_fingers_bounds (landmark : list Landmark) (handedness : pystr) :
  (21 <= length landmark)%nat ->
  exists n : nat,
    count_fingers landmark handedness = Some n
    /\ (n <= 5)%nat
    /\ (n ∈ [1; 2; 3; 4; 5]%nat <-> n <> 0%nat).
Proof.
  intros Hlen.
  do 21 (destruct landmark as [|? landmark]; [cbn [length] in Hlen; lia|]).
  unfold count_fingers, tips_ids, pip_ids.
  cbn -[up PrimFloat.ltb decide py].
  assert (forall b, up b = 0 \/ up b = 1)%nat as Hup by (intros []; auto).
  destruct (decide (handedness = py "Right")); (eexists; split; [reflexivity|]);
    repeat match goal with
    | |- context [up ?b] =>
      let H := fresh in
      let u := fresh "u" in
      pose proof (Hup b) as H; set (u := up b) in *; clearbody u
    end;
    cbn [sum_list sum_list_with];
    (split; [lia|]); rewrite !elem_of_cons, elem_of_nil; lia.
Qed.

Lemma shots_app (a b : list effect) : shots (a ++ b) = shots a ++ shots b.
Proof. unfold shots. apply flat_map_app. Qed.

Lemma shots_save (reason : pystr) (t : N) :
  shots (save_screenshot reason t) = [screenshot_filename reason t].
Proof. reflexivity. Qed.

(** A stage of the loop accounts for its screenshots: the score grows
    by their number and each is named after one of the six reasons. *)
Definition accounted (d d' : Detector) (fx : list effect) : Prop :=
  cheating_score d' = (cheating_score d + Z.of_nat (length (shots fx)))%Z
  /\ cap_open d' = cap_open d
  /\ Forall (fun name => exists reason t,
               reason ∈ reasons /\ name = screenshot_filename reason t)
            (shots fx).

Lemma accounted_quiet (d d' : Detector) (fx : list effect) :
  shots fx = [] -> cheating_score d' = cheating_score d ->
  cap_open d' = cap_open d -> accounted d d' fx.
Proof.
  intros H Hs Hc. unfold accounted. rewrite H. cbn [length Z.of_nat].
  split; [lia|]. now split.
Qed.

Lemma accounted_refl (d : Detector) (fx : list effect) :
  shots fx = [] -> accounted d d fx.
Proof. intros H. now apply accounted_quiet. Qed.

Lemma accounted_trans (d0 d1 d2 : Detector) (fx1 fx2 : list effect) :
  accounted d0 d1 fx1 -> accounted d1 d2 fx2 -> accounted d0 d2 (fx1 ++ fx2).
Proof.
  intros (H1 & C1 & F1) (H2 & C2 & F2). unfold accounted.
  rewrite shots_app, length_app, Nat2Z.inj_add.
  split; [lia|]. split; [congruence|]. now apply Forall_app.
Qed.

Lemma accounted_face (d : Detector) (f : Frame) :
  accounted d (fst (fst (fst (face_stage d f))))
            (snd (fst (fst (face_stage d f)))).
Proof.
  unfold face_stage.
  destruct (face f) as [direction|].
  - destruct (bool_decide (direction ∈ away_directions)) eqn:Hdir.
    + apply bool_decide_eq_true in Hdir.
      destruct (away_start d) as [since|]; [|now apply accounted_quiet].
      destruct (2 <? now f - since)%float; [|now apply accounted_refl].
      cbn [fst snd]. unfold accounted. rewrite shots_save.
      cbn [cheating_score cap_open length]. split; [lia|]. split; [reflexivity|].
      constructor; [|constructor]. exists direction, (head_shot_time f).
      split; [|reflexivity]. unfold away_directions in Hdir. unfold reasons.
      rewrite !elem_of_cons in *. rewrite elem_of_nil in Hdir. tauto.
    + now apply accounted_quiet.
  - destruct (away_start d) as [since|]; [|now apply accounted_quiet].
    destruct (5 <? now f - since)%float; [|now apply accounted_refl].
    cbn [fst snd]. unfold accounted. rewrite shots_save.
    cbn [cheating_score cap_open length]. split; [lia|]. split; [reflexivity|].
    constructor; [|constructor]. exists (py "NO_FACE"), (head_shot_time f).
    split; [|reflexivity]. unfold reasons. do 4 right. left.
Qed.

Lemma shots_scan_hands (hs : list (list Landmark * pystr)) :
  shots (fst (scan_hands hs)) = [].
Proof.
  induction hs as [|[landmark label] rest IH]; [reflexivity|].
  cbn [scan_hands]. destruct (count_fingers landmark label); [|reflexivity].
  destruct (scan_hands rest) as [fx found]. exact IH.
Qed.

Lemma accounted_hand (d : Detector) (f : Frame) :
  accounted d (fst (fst (hand_stage d f))) (snd (fst (hand_stage d f))).
Proof.
  unfold hand_stage. pose proof (shots_scan_hands (hands f)) as Hs.
  destruct (scan_hands (hands f)) as [fx found]. cbn [fst] in Hs.
  destruct found as [finger_detected|]; [|now apply accounted_refl].
  destruct (finger_detected && negb (finger_alert_active d)).
  - cbn [fst snd]. unfold accounted.
    rewrite shots_app, Hs, shots_save.
    cbn [cheating_score cap_open length app]. split; [lia|].
    split; [reflexivity|].
    constructor; [|constructor]. exists (py "fingers"), (finger_shot_time f).
    split; [|reflexivity]. unfold reasons. do 5 right. left.
  - destruct (negb finger_detected); now apply accounted_quiet.
Qed.

Lemma accounted_frame (d : Detector) (f : Frame) :
  accounted d (fst (fst (frame_step d f))) (snd (fst (frame_step d f))).
Proof.
  unfold frame_step.
  destruct (default (shape f) (window_rect f)) as [win_w win_h].
  destruct (active d && ((win_w =? 0)%Z || (win_h =? 0)%Z)).
  { destruct (key f =? 27); [now apply accounted_refl|].
    destruct (key f =? 112); now apply accounted_refl. }
  destruct (active d) eqn:Hact.
  - pose proof (accounted_face d f) as H1.
    destruct (face_stage d f) as [[[d1 fx1] direction] s1]. cbn [fst snd] in H1.
    pose proof (accounted_hand d1 f) as H2.
    destruct (hand_stage d1 f) as [[d2 fx2] s2]. cbn [fst snd] in H2.
    pose proof (accounted_trans _ _ _ _ _ H1 H2) as H12.
    destruct s2 as [s2|]; [|exact H12].
    assert (forall tail, shots tail = [] ->
              accounted d d2 ((fx1 ++ fx2 ++ [ShowFrame (active d2) direction
                                 (cheating_score d2) (s1 || s2)]) ++ tail))
      as Hshow.
    { intros tail Htail. rewrite app_assoc.
      rewrite <- (app_assoc (fx1 ++ fx2)).
      rewrite <- (app_nil_r (fx1 ++ fx2)) in H12.
      destruct H12 as (A & B & C). unfold accounted.
      rewrite !shots_app in *. cbn [shots flat_map app] in *.
      rewrite Htail. rewrite !app_nil_r in *. now repeat split. }
    destruct (key f =? 27); [now apply (Hshow [PrintExiting])|].
    destruct (key f =? 115).
    { destruct (Hshow [PrintStarted] eq_refl) as (A & B & C).
      cbn [fst snd]. unfold accounted. now repeat split. }
    destruct (key f =? 112); [now apply (Hshow [PrintPaused])|].
    cbn [fst snd]. rewrite <- (app_nil_r (fx1 ++ _)). now apply Hshow.
  - cbn [app].
    destruct (key f =? 27); [now apply accounted_refl|].
    destruct (key f =? 115); [now apply accounted_quiet|].
    destruct (key f =? 112); now apply accounted_refl.
Qed.

Lemma camera_loop_accounted (d : Detector) (frames : list Frame) :
  accounted d (fst (fst (camera_loop d frames)))
            (snd (fst (camera_loop d frames))).
Proof.
  revert d. induction frames as [|f rest IH]; intros d; cbn [camera_loop].
  - destruct (cap_open d); now apply accounted_refl.
  - destruct (cap_open d); [|now apply accounted_refl].
    pose proof (accounted_frame d f) as H1.
    destruct (frame_step d f) as [[d1 fx] c]. cbn [fst snd] in H1.
    destruct c; [|exact H1..].
    specialize (IH d1).
    destruct (camera_loop d1 rest) as [[d2 fx'] failed]. cbn [fst snd] in *.
    now apply (accounted_trans _ d1).
Qed.

(** X25: over any sequence of frames the score grows by exactly the
    number of screenshots the loop asks to be written, one per alert;
    every one of them is named "screenshots/<reason>_<seconds>.jpg" for
    one of the six reasons; and the loop itself never releases the
    capture. *)
Theorem camera_score_counts_screenshots (d : Detector) (frames : list Frame) :
  cheating_score (fst (fst (camera_loop d frames)))
  = (cheating_score d
     + Z.of_nat (length (shots (snd (fst (camera_loop d frames))))))%Z
  /\ cap_open (fst (fst (camera_loop d frames))) = cap_open d
  /\ Forall (fun name => exists reason t,
               reason ∈ reasons /\ name = screenshot_filename reason t)
            (shots (snd (fst (camera_loop d frames)))).
Proof.
  change (accounted d (fst (fst (camera_loop d frames)))
                    (snd (fst (camera_loop d frames)))).
  revert d. induction frames as [|f rest IH]; intros d; cbn [camera_loop].
  - destruct (cap_open d); now apply accounted_refl.
  - destruct (cap_open d); [|now apply accounted_refl].
    pose proof (accounted_frame d f) as H1.
    destruct (frame_step d f) as [[d1 fx] c]. cbn [fst snd] in H1.
    destruct c; [|exact H1..].
    specialize (IH d1).
    destruct (camera_loop d1 rest) as [[d2 fx'] failed]. cbn [fst snd] in *.
    now apply (accounted_trans _ d1).
Qed.

End Camera.

(** ** The pipeline over its external collaborators

    [cryptography.fernet.Fernet], the [json] module and the local-time
    formatting of [time.strftime] are libraries outside the repository;
    the code is embedded over them. *)

Section Pipeline.

(** [Fernet(key)] accepts [key] (url-safe base64 of 32 octets). *)
Variable fernet_key_ok : pybytes -> bool.
(** [Fernet(key)._encrypt_from_parts(data, current_time, iv)] *)
Variable fernet_encrypt : pybytes -> pybytes -> N -> pybytes -> pybytes.
(** [Fernet(key).decrypt(token)]; [None] stands for [InvalidToken]. *)
Variable fernet_decrypt : pybytes -> pybytes -> option pybytes.
(** [json.dumps(value, indent=...)] and [json.loads(text)]. *)
Variable json_dumps : option nat -> json -> pystr.
Variable json_loads : pystr -> option json.
(** [time.strftime("%Y-%m-%d %H:%M:%S")] of a clock reading. *)
Variable strftime : N -> pystr.

(** *** [crypto.py] *)

Record CryptoUtils : Type := mkCryptoUtils { cu_key : pybytes }.

(** [CryptoUtils(key)]: [key or Fernet.generate_key()], then [Fernet]
    checks the key. *)
Definition CryptoUtils_init (key : option pybytes) : M CryptoUtils :=
  let* k :=
    match key with
    | Some (b :: r) => ret (b :: r)
    | _ => let* raw := urandom 32 in ret (Base64.urlsafe_b64encode raw)
    end in
  if fernet_key_ok k then ret (mkCryptoUtils k) else raise ValueError.

Definition encrypt (self : CryptoUtils) (text : pystr) : M pybytes :=
  let* data := lift UnicodeEncodeError (Utf8.encode text) in
  let* current_time := time_time in
  let* iv := urandom 16 in
  ret (fernet_encrypt (cu_key self) iv current_time data).

Definition decrypt (self : CryptoUtils) (token : pybytes) : M pystr :=
  let* data := lift InvalidToken (fernet_decrypt (cu_key self) token) in
  lift UnicodeDecodeError (Utf8.decode data).

(** *** [secure_logger.py] *)

Record SecureLogger : Type := mkSecureLogger {
  sl_crypto : CryptoUtils;
  sl_logfile : string }.

Definition now_formatted : M pystr :=
  let* t := time_time in ret (strftime t).

(** [log_event(event)], [event] being a reference to the caller's
    dictionary. *)
Definition log_event (self : SecureLogger) (event : nat) : M unit :=
  let* ev := deref event in
  if negb (EventSchema.validate ev) then
    print LInvalidSchema
  else
    let* stamp := now_formatted in
    assign event (Dict.set (py "logged_at") (JStr stamp) ev) ;;
    let* ev1 := deref event in
    let serialized := json_dumps None (JDict ev1) in
    let* encrypted := encrypt (sl_crypto self) serialized in
    append_file (sl_logfile self) (encrypted ++ [10]) ;;
    let* ev2 := deref event in
    let* logged_at := lift KeyError (Dict.get (py "logged_at") ev2) in
    print (LLogged logged_at).

(** *** [sync.py] *)

Definition sync (event : nat) : M unit :=
  let* ev := deref event in print (LSync ev).

(** *** [main.py] *)

Record CortexShadeSystem : Type := mkSystem {
  student_id : pystr;
  key : pybytes;
  crypto : CryptoUtils;
  logger : SecureLogger }.

Definition decimal (z : Z) : pystr := py (pretty z).

(** [CortexShadeSystem(student_id, password)]: the store starts empty
    and its lock free. *)
Definition CortexShadeSystem_init (sid password : pystr)
  : M CortexShadeSystem :=
  let* k := KeyManager.derive_key_from_password password "salt.bin" in
  let* c := CryptoUtils_init (Some k) in
  (fun w => (Ok tt, set_lock_held false (set_store (mkStore [] []) w))) ;;
  ret (mkSystem sid k c (mkSecureLogger c "secure_logs.jsonl")).

(** [with self.lock: self.suspicions[c].append(event)] *)
Definition locked_append (c : category) (event : nat) : M unit :=
  with_lock (fun w => (Ok tt, set_store (store_append c event (store w)) w)).

(** One round of the [run_camera] loop, for the score the camera
    collaborator returned. *)
Definition run_camera (self : CortexShadeSystem) (score : Z) : M unit :=
  if (0 <? score)%Z then
    let* t := time_time in
    let* stamp := now_formatted in
    let* event :=
      alloc [(py "id", JStr (student_id self ++ py "_cam_"
                            ++ decimal (Z.of_N t)));
             (py "timestamp", JStr stamp);
             (py "data", JStr (py "Camera suspicion score: " ++ decimal score))] in
    let* ev := deref event in
    let* data := lift KeyError (Dict.get (py "data") ev) in
    let* redacted :=
      match data with
      | JStr text => ret (JStr (Redactor.redact text))
      | _ => raise AttributeError
      end in
    assign event (Dict.set (py "data") redacted ev) ;;
    log_event (logger self) event ;;
    sync event ;;
    locked_append Video event
  else ret tt.

Definition audio_labels : list pystr :=
  [py "whisper"; py "background_talk"; py "tapping"; py "normal_talk"].

(** One round of the [run_audio] loop; [heard] is what recording,
    feature extraction and classification produced: a label with the
    text of its reasons, or the exception one of them raised. *)
Definition run_audio (self : CortexShadeSystem)
    (heard : result (pystr * pystr)) : M unit :=
  try_except
    (match heard with
     | Raise e => raise e
     | Ok (label, reasons) =>
       if bool_decide (label ∈ audio_labels) then
         let* t := time_time in
         let* stamp := now_formatted in
         let* event :=
           alloc [(py "id", JStr (student_id self ++ py "_aud_"
                                 ++ decimal (Z.of_N t)));
                  (py "timestamp", JStr stamp);
                  (py "data", JStr (py "Audio event: " ++ label
                                    ++ py " | Reasons: " ++ reasons))] in
         let* ev := deref event in
         let* data := lift KeyError (Dict.get (py "data") ev) in
         let* redacted :=
           match data with
           | JStr text => ret (JStr (Redactor.redact text))
           | _ => raise AttributeError
           end in
         assign event (Dict.set (py "data") redacted ev) ;;
         log_event (logger self) event ;;
         sync event ;;
         locked_append Audio event
       else ret tt
     end)
    (fun e => print (LAudioError e)).

(** [self.suspicions] as [json.dump] walks it: the dictionaries are the
    ones the references point to when the dump runs. *)
Definition event_json (w : World) (l : nat) : json :=
  JDict (default [] (heap w !! l)).

(** The entries of one category, dereferenced. *)
Definition stored (c : category) (w : World) : list json :=
  map (event_json w)
      (match c with Video => video (store w) | Audio => audio (store w) end).

Definition suspicions_json (w : World) : json :=
  JDict [(py "video", JList (stored Video w));
         (py "audio", JList (stored Audio w))].

Definition suspicions : M json := fun w => (Ok (suspicions_json w), w).

(** One round of the [encrypt_and_save] loop. *)
Definition encrypt_and_save (self : CortexShadeSystem) : M unit :=
  sleep 10 ;;
  with_lock
    (let* agg := suspicions in
     write_text "suspicions.json" (json_dumps (Some 2%nat) agg) ;;
     let* data := read_file "suspicions.json" in
     let* text := lift UnicodeDecodeError (Utf8.decode data) in
     let* encrypted := encrypt (crypto self) text in
     write_file "suspicions.json.encrypted" encrypted ;;
     print LSaved).

(** *** [admin_control.py] *)

(** [data.get(k, dflt)] *)
Definition py_get (data : json) (k : pystr) (dflt : json) : M json :=
  match data with
  | JDict d => ret (default dflt (Dict.get k d))
  | _ => raise AttributeError
  end.

(** [len(v)] *)
Definition py_len (v : json) : M nat :=
  match v with
  | JList l => ret (length l)
  | JStr s => ret (length s)
  | JDict d => ret (length d)
  | _ => raise TypeError
  end.

(** [for x in v] *)
Definition py_iter (v : json) : M (list json) :=
  match v with
  | JList l => ret l
  | JStr s => ret (map (fun c => JStr [c]) s)
  | JDict d => ret (map (fun kv => JStr (fst kv)) d)
  | _ => raise TypeError
  end.

Definition is_jpg (f : pystr) : bool := Str.endswith (py ".jpg") f.

(** Lines 26-40: the scores. *)
Definition calculate_scores (data : json) : M nat :=
  let* present := path_exists "screenshots" in
  let* video_score :=
    if present then
      let* names := listdir "screenshots" in
      ret (length (List.filter is_jpg names))
    else ret 0%nat in
  let* entries := py_get data (py "audio") (JList []) in
  let* audio_score := py_len entries in
  let net_cheating_score := (video_score + audio_score)%nat in
  print LScoresHeader ;;
  print (LVideoScore video_score) ;;
  print (LAudioScore audio_score) ;;
  print (LNetScore net_cheating_score) ;;
  ret video_score.

(** [reason in f and f.endswith(".jpg")] *)
Definition matches (reason : json) (f : pystr) : M bool :=
  match reason with
  | JStr r => ret (Str.contains r f && is_jpg f)
  | _ => raise TypeError
  end.

Fixpoint select (reason : json) (names : list pystr) : M (list pystr) :=
  match names with
  | [] => ret []
  | f :: r =>
    let* keep := matches reason f in
    let* rest := select reason r in
    ret (if keep then f :: rest else rest)
  end.

(** Lines 42-61: replay of the screenshots. *)
Definition display_screenshots (data : json) (video_score : nat) : M unit :=
  print LDisplayHeader ;;
  if (0 <? video_score)%nat then
    let* vids := py_get data (py "video") (JList []) in
    let* events := py_iter vids in
    for_each events (fun event =>
      let* reason := py_get event (py "event") (JStr (py "unknown")) in
      let* timestamp := py_get event (py "timestamp") (JStr (py "unknown")) in
      let* names := listdir "screenshots" in
      let* screenshots := select reason names in
      for_each screenshots (fun file =>
        fun w =>
          if imread w file
          then (Ok tt, set_windows (windows w ++ [(reason, timestamp, file)]) w)
          else (Ok tt, w)))
  else print LNoScreenshots.

Definition decrypt_suspicions (password : pystr) (encrypted_file : string)
  : M unit :=
  try_except
    (let* k := KeyManager.derive_key_from_password password "salt.bin" in
     let* c := CryptoUtils_init (Some k) in
     let* encrypted_data := read_file encrypted_file in
     let* decrypted_text := decrypt c encrypted_data in
     let* data := lift JSONDecodeError (json_loads decrypted_text) in
     print LDecryptedHeader ;;
     print (LDecrypted (json_dumps (Some 2%nat) data)) ;;
     let* video_score := calculate_scores data in
     display_screenshots data video_score)
    (fun e =>
       match e with
       | FileNotFoundError _ => print (LNotFound encrypted_file)
       | _ => print (LFailed e)
       end).

(** ** Properties of the cipher wrapper ([crypto.py]) *)

(** Unfold the monadic plumbing, leaving the primitive effects. *)
Ltac mrun :=
  cbv beta iota zeta delta [bind ret raise lift try_except].

(** The contract of the token library used here: what [encrypt] built
    under an accepted key, [decrypt] opens under the same key, whatever
    the initialisation vector and the timestamp ([decrypt] is called
    without a time-to-live, so the timestamp is not checked). *)
Hypothesis fernet_roundtrip :
  forall (k iv : pybytes) (t : N) (m : pybytes),
    fernet_key_ok k = true ->
    fernet_decrypt k (fernet_encrypt k iv t m) = Some m.

Lemma CryptoUtils_init_key_ok (key0 : option pybytes) (self : CryptoUtils)
    (w w' : World) :
  CryptoUtils_init key0 w = (Ok self, w') -> fernet_key_ok (cu_key self) = true.
Proof.
  unfold CryptoUtils_init.
  destruct key0 as [[|b r]|]; mrun; unfold urandom;
    match goal with
    | |- context [fernet_key_ok ?k] => destruct (fernet_key_ok k) eqn:E
    end; intros [= <- _]; exact E.
Qed.

Lemma encrypt_run (self : CryptoUtils) (text : pystr) (data : pybytes)
    (w : World) :
  Utf8.encode text = Some data ->
  encrypt self text w =
  (Ok (fernet_encrypt (cu_key self)
         (map (fun i => entropy w (drawn w + i)%nat mod 256) (seq 0 16))
         (clock w (ticks w)) data),
   set_drawn (drawn w + 16) (set_ticks (S (ticks w)) w)).
Proof. intros E. unfold encrypt. rewrite E. reflexivity. Qed.

Lemma encrypt_unencodable (self : CryptoUtils) (text : pystr) (w : World) :
  Utf8.encode text = None ->
  encrypt self text w = (Raise UnicodeEncodeError, w).
Proof. intros E. unfold encrypt. rewrite E. reflexivity. Qed.

Lemma decrypt_run (self : CryptoUtils) (token data : pybytes) (text : pystr)
    (w : World) :
  fernet_decrypt (cu_key self) token = Some data ->
  Utf8.decode data = Some text ->
  decrypt self token w = (Ok text, w).
Proof. intros E1 E2. unfold decrypt. rewrite E1. mrun. now rewrite E2. Qed.


Lemma decrypt_returned (self : CryptoUtils) (token : pybytes) (text : pystr)
    (w w' : World) :
  decrypt self token w = (Ok text, w') ->
  exists data : pybytes,
    fernet_decrypt (cu_key self) token = Some data
    /\ Utf8.decode data = Some text /\ w' = w.
Proof.
  unfold decrypt. mrun.
  destruct (fernet_decrypt (cu_key self) token) as [data|]; [|discriminate].
  destruct (Utf8.decode data) as [t|] eqn:E; [|discriminate].
  intros [= <- <-]. eauto.
Qed.



(** C2 (amended): for every cipher instance that [CryptoUtils(key)]
    constructed and every plaintext that has a UTF-8 encoding (no
    surrogate code point), [encrypt] returns a token and [decrypt] of
    that token returns the plaintext, whatever the clock and the
    entropy source were. *)
Theorem decrypt_encrypt_roundtrip (key0 : option pybytes)
    (self : CryptoUtils) (w0 w0' : World) (P : pystr) (data : pybytes)
    (w : World) :
  CryptoUtils_init key0 w0 = (Ok self, w0') ->
  Utf8.encode P = Some data ->
  exists (token : pybytes) (w' : World),
    encrypt self P w = (Ok token, w')
    /\ forall w'' : World, decrypt self token w'' = (Ok P, w'').
Proof.
  intros Hinit HP. apply CryptoUtils_init_key_ok in Hinit.
  eexists _, _. split; [apply encrypt_run, HP|].
  intros w''. apply decrypt_run with (data := data).
  - now apply fernet_roundtrip.
  - now apply Utf8.decode_encode.
Qed.

(** ** Properties of the secure logger ([secure_logger.py]) *)

(** Run the monadic plumbing and the primitive effects on a symbolic
    world, down to the fields of the resulting world. *)
Ltac wrun :=
  repeat (
    progress (
      cbv beta iota zeta delta
        [bind ret raise lift try_except with_lock acquire release print
         alloc deref assign time_time now_formatted urandom sleep
         write_file write_text read_file append_file path_exists listdir
         suspicions];
      cbn [set_files set_stdout set_ticks set_drawn set_windows set_heap
           set_store set_lock_held log_io printable
           files dirs stdout clock ticks entropy drawn imread windows heap
           store lock_held io_log fst snd negb orb andb];
      rewrite ?open_error_bare by reflexivity;
      rewrite ?way_error_bare by reflexivity)).

Lemma validate_missing_key (ev : pydict) (k : pystr) :
  k ∈ EventSchema.required_keys -> Dict.has k ev = false ->
  EventSchema.validate ev = false.
Proof.
  unfold EventSchema.validate, EventSchema.required_keys.
  rewrite !elem_of_cons, elem_of_nil.
  intros [->|[->|[->|[]]]] Hk; cbn [forallb]; rewrite Hk;
    rewrite ?andb_false_r; reflexivity.
Qed.

(** C4: an event that lacks one of the keys "id", "timestamp", "data"
    makes [log_event] return after printing the warning only: the log
    file (like every other file), the event dictionaries, the store, the
    clock and the entropy source are as before. *)
Theorem log_event_invalid_is_skipped (self : SecureLogger) (event : nat)
    (ev : pydict) (k : pystr) (w : World) :
  heap w !! event = Some ev ->
  k ∈ EventSchema.required_keys ->
  Dict.has k ev = false ->
  exists w' : World,
    log_event self event w = (Ok tt, w')
    /\ files w' = files w /\ dirs w' = dirs w
    /\ heap w' = heap w /\ store w' = store w
    /\ lock_held w' = lock_held w
    /\ ticks w' = ticks w /\ drawn w' = drawn w
    /\ windows w' = windows w
    /\ stdout w' = stdout w ++ [LInvalidSchema].
Proof.
  intros Hev Hk Hmiss.
  pose proof (validate_missing_key ev k Hk Hmiss) as Hval.
  unfold log_event. wrun. rewrite Hev. wrun. rewrite Hval. wrun.
  eexists. split; [reflexivity|]. repeat split.
Qed.

(** The event as [log_event] leaves it: [logged_at] set to the formatted
    reading of the clock. *)
Definition stamped (w : World) (ev : pydict) : pydict :=
  Dict.set (py "logged_at") (JStr (strftime (clock w (ticks w)))) ev.

Lemma locked_append_run (c : category) (event : nat) (w : World) :
  locked_append c event w =
  (Ok tt, set_lock_held false (set_store (store_append c event (store w)) w)).
Proof. reflexivity. Qed.

Lemma log_event_heap (self : SecureLogger) (event : nat) (ev : pydict)
    (w : World) :
  heap w !! event = Some ev ->
  EventSchema.validate ev = true ->
  heap (snd (log_event self event w)) = <[event := stamped w ev]> (heap w).
Proof.
  intros Hev Hval.
  assert (event < length (heap w))%nat as Hlt by (eapply lookup_lt_Some, Hev).
  unfold log_event. wrun. rewrite Hev. wrun. rewrite Hval. wrun.
  fold (stamped w ev).
  rewrite list_lookup_insert_eq by exact Hlt. wrun.
  unfold encrypt. wrun.
  destruct (Utf8.encode (json_dumps None (JDict (stamped w ev)))) as [bs|];
    wrun; [|reflexivity].
  rewrite (open_error_ext (sl_logfile self) w) by reflexivity.
  destruct (open_error (sl_logfile self) w) as [e|]; wrun; [reflexivity|].
  rewrite list_lookup_insert_eq by exact Hlt. wrun.
  unfold stamped at 1. rewrite Dict.get_set_eq. reflexivity.
Qed.

(** The successful run: the text of the stamped event is readable as
    UTF-8 and the log file can be opened for appending. *)
Lemma log_event_run (self : SecureLogger) (event : nat) (ev : pydict)
    (data : pybytes) (w : World) :
  heap w !! event = Some ev ->
  EventSchema.validate ev = true ->
  Utf8.encode (json_dumps None (JDict (stamped w ev))) = Some data ->
  open_error (sl_logfile self) w = None ->
  exists w' : World,
    log_event self event w = (Ok tt, w')
    /\ heap w' = <[event := stamped w ev]> (heap w)
    /\ files w' =
       <[sl_logfile self :=
           default [] (files w !! sl_logfile self)
           ++ fernet_encrypt (cu_key (sl_crypto self))
                (map (fun i => entropy w (drawn w + i)%nat mod 256) (seq 0 16))
                (clock w (S (ticks w))) data
           ++ [10]]> (files w)
    /\ dirs w' = dirs w /\ store w' = store w
    /\ lock_held w' = lock_held w
    /\ stdout w' = stdout w ++ [LLogged (JStr (strftime (clock w (ticks w))))]
    /\ io_log w' = io_log w ++ [(lock_held w, IoAppend (sl_logfile self));
                                (lock_held w, IoPrint)].
Proof.
  intros Hev Hval Henc Hd.
  assert (event < length (heap w))%nat as Hlt by (eapply lookup_lt_Some, Hev).
  unfold log_event. wrun. rewrite Hev. wrun. rewrite Hval. wrun.
  fold (stamped w ev).
  rewrite list_lookup_insert_eq by exact Hlt. wrun.
  unfold encrypt. wrun. rewrite Henc. wrun.
  rewrite (open_error_ext (sl_logfile self) w), Hd by reflexivity. wrun.
  rewrite list_lookup_insert_eq by exact Hlt. wrun.
  unfold stamped at 1. rewrite Dict.get_set_eq. wrun.
  eexists. split; [reflexivity|]. wrun.
  repeat split. now rewrite <- app_assoc.
Qed.

(** The log file cannot be opened: [log_event] raises what [open]
    raised, after it stamped the event; no file has changed and nothing
    was printed. *)
Lemma log_event_refused (self : SecureLogger) (event : nat) (ev : pydict)
    (data : pybytes) (e : exn) (w : World) :
  heap w !! event = Some ev ->
  EventSchema.validate ev = true ->
  Utf8.encode (json_dumps None (JDict (stamped w ev))) = Some data ->
  open_error (sl_logfile self) w = Some e ->
  exists w' : World,
    log_event self event w = (Raise e, w')
    /\ heap w' = <[event := stamped w ev]> (heap w)
    /\ files w' = files w /\ dirs w' = dirs w /\ store w' = store w
    /\ lock_held w' = lock_held w /\ stdout w' = stdout w
    /\ io_log w' = io_log w.
Proof.
  intros Hev Hval Henc Hd.
  assert (event < length (heap w))%nat as Hlt by (eapply lookup_lt_Some, Hev).
  unfold log_event. wrun. rewrite Hev. wrun. rewrite Hval. wrun.
  fold (stamped w ev).
  rewrite list_lookup_insert_eq by exact Hlt. wrun.
  unfold encrypt. wrun. rewrite Henc. wrun.
  rewrite (open_error_ext (sl_logfile self) w), Hd by reflexivity. wrun.
  eexists. split; [reflexivity|]. repeat split.
Qed.

(** C10: for every schema-valid event, [log_event] writes [logged_at]
    into the caller's dictionary itself (same reference), before the
    serialized text is encrypted; the values under "id", "timestamp" and
    "data" (every key but "logged_at") stay as they were; the caller
    sees the change after the call returns or raises: it returns, with
    the encrypted line appended to the log, when the log file can be
    opened for appending, and raises what [open] raised, with every file
    as before, when it cannot (the path is a directory, or the directory
    of a log file that does not exist yet is missing); and when that
    reference is then appended to the store, the entry the snapshot
    serializes is the stamped dictionary. *)
Theorem log_event_stamps_callers_dict (self : SecureLogger) (event : nat)
    (ev : pydict) (w : World) :
  heap w !! event = Some ev ->
  EventSchema.validate ev = true ->
  heap (snd (log_event self event w)) = <[event := stamped w ev]> (heap w)
  /\ heap (snd (log_event self event w)) !! event = Some (stamped w ev)
  /\ Dict.has (py "logged_at") (stamped w ev) = true
  /\ (forall k : pystr, k <> py "logged_at" ->
        Dict.get k (stamped w ev) = Dict.get k ev)
  /\ (forall data : pybytes,
        Utf8.encode (json_dumps None (JDict (stamped w ev))) = Some data ->
        (open_error (sl_logfile self) w = None ->
         exists (iv : pybytes) (t : N),
           fst (log_event self event w) = Ok tt
           /\ files (snd (log_event self event w)) !! sl_logfile self =
              Some (default [] (files w !! sl_logfile self)
                    ++ fernet_encrypt (cu_key (sl_crypto self)) iv t data
                    ++ [10]))
        /\ (forall e : exn,
              open_error (sl_logfile self) w = Some e ->
              fst (log_event self event w) = Raise e
              /\ files (snd (log_event self event w)) = files w))
  /\ (forall c : category,
        stored c (snd (locked_append c event (snd (log_event self event w))))
        = stored c (snd (log_event self event w)) ++ [JDict (stamped w ev)]).
Proof.
  intros Hev Hval.
  assert (event < length (heap w))%nat as Hlt by (eapply lookup_lt_Some, Hev).
  pose proof (log_event_heap self event ev w Hev Hval) as Hheap.
  assert (heap (snd (log_event self event w)) !! event = Some (stamped w ev))
    as Hat by (rewrite Hheap; now apply list_lookup_insert_eq).
  split; [exact Hheap|]. split; [exact Hat|].
  split; [apply Dict.has_set_eq|].
  split; [intros k Hk; now apply Dict.get_set_ne|].
  split.
  - intros data Henc. split.
    + intros Hd.
      destruct (log_event_run self event ev data w Hev Hval Henc Hd)
        as (w' & -> & _ & Hf & _).
      eexists _, _. cbn [fst snd]. split; [reflexivity|].
      rewrite Hf. apply lookup_insert_eq.
    + intros e He.
      destruct (log_event_refused self event ev data e w Hev Hval Henc He)
        as (w' & -> & _ & Hf & _).
      now split.
  - intros c. rewrite locked_append_run. cbn [snd].
    unfold stored. destruct c; cbn [store set_lock_held set_store store_append
                                    video audio];
      rewrite map_app; cbn [map]; unfold event_json;
      cbn [heap set_lock_held set_store]; now rewrite Hat.
Qed.

(** ** A round of the camera producer ([main.py]) *)

Lemma get_data_of_event (a b c : json) :
  Dict.get (py "data") [(py "id", a); (py "timestamp", b); (py "data", c)]
  = Some c.
Proof. reflexivity. Qed.

Lemma set_data_of_event (a b c v : json) :
  Dict.set (py "data") v [(py "id", a); (py "timestamp", b); (py "data", c)]
  = [(py "id", a); (py "timestamp", b); (py "data", v)].
Proof. reflexivity. Qed.

Lemma validate_event (a b c : json) :
  EventSchema.validate [(py "id", a); (py "timestamp", b); (py "data", c)]
  = true.
Proof. reflexivity. Qed.

Lemma set_logged_at_of_event (a b c v : json) :
  Dict.set (py "logged_at") v
           [(py "id", a); (py "timestamp", b); (py "data", c)]
  = [(py "id", a); (py "timestamp", b); (py "data", c); (py "logged_at", v)].
Proof. reflexivity. Qed.

(** The event a camera round builds for a score, before it is logged. *)
Definition camera_event (self : CortexShadeSystem) (score : Z) (w : World)
  : pydict :=
  [(py "id", JStr (student_id self ++ py "_cam_"
                    ++ decimal (Z.of_N (clock w (ticks w)))));
   (py "timestamp", JStr (strftime (clock w (S (ticks w)))));
   (py "data", JStr (Redactor.redact
                       (py "Camera suspicion score: " ++ decimal score)))].

(** A round with a positive score whose log line can be written: the
    dictionary appended to the store, through the one reference the
    round created, carries the [logged_at] that [log_event] set. *)
Lemma run_camera_run (self : CortexShadeSystem) (score : Z) (data : pybytes)
    (w : World) :
  (0 < score)%Z ->
  open_error (sl_logfile (logger self)) w = None ->
  Utf8.encode
    (json_dumps None
       (JDict (camera_event self score w
               ++ [(py "logged_at",
                    JStr (strftime (clock w (S (S (ticks w))))))])))
    = Some data ->
  exists w' : World,
    run_camera self score w = (Ok tt, w')
    /\ heap w' =
       heap w ++ [camera_event self score w
                  ++ [(py "logged_at",
                       JStr (strftime (clock w (S (S (ticks w))))))]]
    /\ store w' = store_append Video (length (heap w)) (store w)
    /\ lock_held w' = false.
Proof.
  intros Hscore Hd Henc. unfold run_camera.
  rewrite (proj2 (Z.ltb_lt 0 score) Hscore). wrun.
  rewrite list_lookup_middle by reflexivity. wrun.
  rewrite get_data_of_event. wrun. rewrite set_data_of_event.
  fold (camera_event self score w).
  rewrite insert_app_r_alt by lia. rewrite Nat.sub_diag.
  change (<[0%nat := camera_event self score w]> [?x])
    with [camera_event self score w].
  match goal with
  | |- context [log_event ?l ?e ?W] =>
    destruct (log_event_run l e (camera_event self score w) data W)
      as (w1 & Hrun & Hheap & _ & _ & Hstore & _)
  end.
  { cbn [heap set_heap set_ticks]. now apply list_lookup_middle. }
  { apply validate_event. }
  { unfold stamped. cbn [clock ticks set_heap set_ticks].
    unfold camera_event at 1. rewrite set_logged_at_of_event. exact Henc. }
  { rewrite (open_error_ext _ w) by reflexivity. exact Hd. }
  rewrite Hrun. wrun. unfold sync. wrun.
  cbn [heap set_heap set_ticks] in Hheap.
  rewrite insert_app_r_alt, Nat.sub_diag in Hheap by lia.
  unfold stamped in Hheap. cbn [clock ticks set_heap set_ticks] in Hheap.
  unfold camera_event at 1 in Hheap.
  rewrite set_logged_at_of_event in Hheap.
  change (<[0%nat := ?y]> [?x]) with [y] in Hheap.
  fold (camera_event self score w) in Hheap.
  rewrite Hheap, list_lookup_middle by reflexivity. wrun.
  rewrite locked_append_run.
  eexists. split; [reflexivity|]. wrun.
  cbn [store set_heap set_ticks] in Hstore.
  rewrite Hheap, Hstore. repeat split.
Qed.

(** ** Properties of the audit ([admin_control.py]) *)

Lemma is_jpg_spec (f : pystr) :
  is_jpg f = true <-> exists stem, f = stem ++ py ".jpg".
Proof. apply Str.endswith_spec. Qed.

(** The number of entries of the screenshots directory whose name ends
    in ".jpg"; zero when there is no such directory. *)
Definition jpg_count (w : World) : nat :=
  match dirs w !! "screenshots" with
  | Some names => length (List.filter is_jpg names)
  | None => 0
  end.

Lemma calculate_scores_run (d : pydict) (entries : list json) (w : World) :
  default (JList []) (Dict.get (py "audio") d) = JList entries ->
  files w !! "screenshots" = None ->
  exists w' : World,
    calculate_scores (JDict d) w = (Ok (jpg_count w), w')
    /\ stdout w' = stdout w ++ [LScoresHeader; LVideoScore (jpg_count w);
                                LAudioScore (length entries);
                                LNetScore (jpg_count w + length entries)]
    /\ files w' = files w /\ dirs w' = dirs w /\ imread w' = imread w
    /\ windows w' = windows w.
Proof.
  intros Haudio Hnofile. unfold calculate_scores, jpg_count. wrun.
  rewrite !bool_decide_is_Some, Hnofile. wrun.
  destruct (dirs w !! "screenshots") as [names|] eqn:Hd; wrun.
  - rewrite Hd. wrun. unfold py_get. wrun. rewrite Haudio.
    unfold py_len. wrun. eexists. split; [reflexivity|]. wrun.
    repeat split. now rewrite <- !app_assoc.
  - unfold py_get. wrun. rewrite Haudio.
    unfold py_len. wrun. eexists. split; [reflexivity|]. wrun.
    repeat split. now rewrite <- !app_assoc.
Qed.

(** C8: for a decrypted aggregate (a JSON object whose "audio" entry,
    if present, is a sequence) and the evidence directory, the video
    score is the number of names ending in ".jpg" in the screenshots
    directory, the audio score is the length of the "audio" sequence,
    and the net score reported is their sum. *)
Theorem scores_are_counts (d : pydict) (entries : list json)
    (names : list pystr) (w : World) :
  Dict.get (py "audio") d = Some (JList entries) ->
  dirs w !! "screenshots" = Some names ->
  files w !! "screenshots" = None ->
  exists w' : World,
    calculate_scores (JDict d) w
      = (Ok (length (List.filter is_jpg names)), w')
    /\ stdout w' =
       stdout w ++ [LScoresHeader;
                    LVideoScore (length (List.filter is_jpg names));
                    LAudioScore (length entries);
                    LNetScore (length (List.filter is_jpg names)
                               + length entries)]
    /\ (forall f : pystr, f ∈ List.filter is_jpg names <->
          f ∈ names /\ exists stem, f = stem ++ py ".jpg").
Proof.
  intros Haudio Hdir Hnofile.
  destruct (calculate_scores_run d entries w) as (w' & Hrun & Hout & _).
  { now rewrite Haudio. }
  { exact Hnofile. }
  unfold jpg_count in Hrun, Hout. rewrite Hdir in Hrun, Hout.
  exists w'. split; [exact Hrun|]. split; [exact Hout|].
  intros f. rewrite <- is_jpg_spec, list_elem_of_In, filter_In.
  now rewrite <- list_elem_of_In.
Qed.

(** ** Properties of the persistence tick ([main.py]) *)

(** The successful tick: the two snapshot paths are no directories and
    the serialized aggregate has a UTF-8 encoding. *)
Lemma encrypt_and_save_run (self : CortexShadeSystem) (bs : pybytes)
    (w : World) :
  dirs w !! "suspicions.json" = None ->
  dirs w !! "suspicions.json.encrypted" = None ->
  Utf8.encode (json_dumps (Some 2%nat) (suspicions_json w)) = Some bs ->
  exists w' : World,
    encrypt_and_save self w = (Ok tt, w')
    /\ files w' =
       <["suspicions.json.encrypted" :=
           fernet_encrypt (cu_key (crypto self))
             (map (fun i => entropy w (drawn w + i)%nat mod 256) (seq 0 16))
             (clock w (S (ticks w))) bs]>
         (<["suspicions.json" := bs]> (files w))
    /\ dirs w' = dirs w /\ heap w' = heap w /\ store w' = store w
    /\ imread w' = imread w /\ windows w' = windows w
    /\ lock_held w' = false
    /\ stdout w' = stdout w ++ [LSaved]
    /\ io_log w' =
       io_log w ++ [(lock_held w, IoSleep 10);
                    (true, IoWrite "suspicions.json");
                    (true, IoWrite "suspicions.json");
                    (true, IoRead "suspicions.json");
                    (true, IoWrite "suspicions.json.encrypted");
                    (true, IoPrint)].
Proof.
  intros Hd1 Hd2 Henc.
  pose proof (Utf8.decode_encode _ _ Henc) as Hdec.
  unfold encrypt_and_save. wrun.
  rewrite !bool_decide_is_Some, Hd1. wrun.
  change (suspicions_json _) with (suspicions_json w).
  rewrite Henc. wrun.
  rewrite !bool_decide_is_Some, Hd1. wrun.
  rewrite lookup_insert_eq. wrun.
  rewrite Hdec. wrun. unfold encrypt. wrun. rewrite Henc. wrun.
  rewrite !bool_decide_is_Some, Hd2. wrun.
  eexists. split; [reflexivity|]. wrun.
  rewrite insert_insert_eq. repeat split.
  now rewrite <- !app_assoc.
Qed.

(** ** The replay only adds to the output *)

(** A program that leaves what was printed before in place. *)
Definition prints_only {A} (m : M A) : Prop :=
  forall w : World, exists rest, stdout (snd (m w)) = stdout w ++ rest.

Lemma prints_only_ret {A} (a : A) : prints_only (ret a).
Proof. intros w. exists []. cbn. now rewrite app_nil_r. Qed.

Lemma prints_only_raise {A} (e : exn) : prints_only (@raise A e).
Proof. intros w. exists []. cbn. now rewrite app_nil_r. Qed.

Lemma prints_only_bind {A B} (m : M A) (k : A -> M B) :
  prints_only m -> (forall a, prints_only (k a)) -> prints_only (bind m k).
Proof.
  intros Hm Hk w. unfold bind. destruct (Hm w) as [r1 H1].
  destruct (m w) as [[a|e] w1]; cbn [snd] in *.
  - destruct (Hk a w1) as [r2 H2]. exists (r1 ++ r2).
    now rewrite H2, H1, app_assoc.
  - now exists r1.
Qed.

Lemma prints_only_print (l : line) : prints_only (print l).
Proof.
  intros w. unfold print. destruct (printable l).
  - now exists [l].
  - exists []. cbn. now rewrite app_nil_r.
Qed.

Lemma prints_only_listdir (p : string) : prints_only (listdir p).
Proof.
  intros w. exists []. unfold listdir. rewrite app_nil_r.
  destruct (dirs w !! p); [reflexivity|].
  now destruct (bool_decide _).
Qed.

Lemma prints_only_py_get (data : json) (k : pystr) (dflt : json) :
  prints_only (py_get data k dflt).
Proof.
  destruct data; first [apply prints_only_ret | apply prints_only_raise].
Qed.

Lemma prints_only_py_iter (v : json) : prints_only (py_iter v).
Proof.
  destruct v; first [apply prints_only_ret | apply prints_only_raise].
Qed.

Lemma prints_only_for_each {A} (xs : list A) (body : A -> M unit) :
  (forall x, prints_only (body x)) -> prints_only (for_each xs body).
Proof.
  intros Hb. induction xs as [|x r IH]; cbn [for_each].
  - apply prints_only_ret.
  - apply prints_only_bind; [apply Hb|]. intros _. exact IH.
Qed.

Lemma prints_only_select (reason : json) (names : list pystr) :
  prints_only (select reason names).
Proof.
  induction names as [|f r IH]; cbn [select].
  - apply prints_only_ret.
  - apply prints_only_bind.
    + unfold matches.
      destruct reason; first [apply prints_only_ret | apply prints_only_raise].
    + intros keep. apply prints_only_bind; [exact IH|].
      intros rest. apply prints_only_ret.
Qed.

Lemma prints_only_display (data : json) (video_score : nat) :
  prints_only (display_screenshots data video_score).
Proof.
  unfold display_screenshots.
  apply prints_only_bind; [apply prints_only_print|]. intros _.
  destruct (0 <? video_score)%nat; [|apply prints_only_print].
  apply prints_only_bind; [apply prints_only_py_get|]. intros vids.
  apply prints_only_bind; [apply prints_only_py_iter|]. intros events.
  apply prints_only_for_each. intros event.
  apply prints_only_bind; [apply prints_only_py_get|]. intros reason.
  apply prints_only_bind; [apply prints_only_py_get|]. intros timestamp.
  apply prints_only_bind; [apply prints_only_listdir|]. intros names.
  apply prints_only_bind; [apply prints_only_select|]. intros shots.
  apply prints_only_for_each. intros file w. exists [].
  rewrite app_nil_r. now destruct (imread w file).
Qed.

Lemma display_nothing (data : json) (w : World) :
  display_screenshots data 0 w =
  (Ok tt, set_stdout (stdout w ++ [LDisplayHeader; LNoScreenshots])
            (log_io IoPrint (log_io IoPrint w))).
Proof.
  unfold display_screenshots. change (0 <? 0)%nat with false. wrun.
  now rewrite <- app_assoc.
Qed.

(** The contract of the token library on keys: the url-safe base64 text
    of 32 octets is an accepted key. *)
Hypothesis fernet_accepts_b64 :
  forall raw : pybytes,
    length raw = 32%nat ->
    fernet_key_ok (Base64.urlsafe_b64encode raw) = true.

Lemma key_of_accepted (pw salt : pybytes) :
  fernet_key_ok (KeyManager.key_of pw salt) = true.
Proof.
  unfold KeyManager.key_of.
  apply fernet_accepts_b64. apply Pbkdf2.pbkdf2_length_32.
Qed.

Lemma key_of_nonempty (pw salt : pybytes) :
  exists b r, KeyManager.key_of pw salt = b :: r.
Proof.
  unfold KeyManager.key_of.
  pose proof (Pbkdf2.pbkdf2_length_32 pw salt KeyManager.iterations) as Hl.
  destruct (Pbkdf2.pbkdf2_hmac_sha256 pw salt KeyManager.iterations 32)
    as [|a [|b [|c r]]]; cbn [Base64.urlsafe_b64encode app]; eauto.
  discriminate.
Qed.

Lemma CryptoUtils_init_derived (pw salt : pybytes) (w : World) :
  CryptoUtils_init (Some (KeyManager.key_of pw salt)) w
  = (Ok (mkCryptoUtils (KeyManager.key_of pw salt)), w).
Proof.
  unfold CryptoUtils_init.
  destruct (key_of_nonempty pw salt) as (b & r & E).
  rewrite E. wrun. rewrite <- E, key_of_accepted. reflexivity.
Qed.

(** The audit of a snapshot that the password opens: the salt file is
    in place, the token decrypts under the derived key to the text of a
    JSON object, and "screenshots" is no regular file. *)
Lemma decrypt_suspicions_run (password : pystr) (encrypted_file : string)
    (pw salt token bs : pybytes) (text : pystr) (d : pydict)
    (entries : list json) (w : World) :
  Utf8.encode password = Some pw ->
  files w !! "salt.bin" = Some salt ->
  files w !! encrypted_file = Some token ->
  fernet_decrypt (KeyManager.key_of pw salt) token = Some bs ->
  Utf8.decode bs = Some text ->
  json_loads text = Some (JDict d) ->
  default (JList []) (Dict.get (py "audio") d) = JList entries ->
  files w !! "screenshots" = None ->
  printable (LNotFound encrypted_file) = true ->
  exists (w' : World) (rest : list line),
    decrypt_suspicions password encrypted_file w = (Ok tt, w')
    /\ stdout w' =
       stdout w ++ [LDecryptedHeader;
                    LDecrypted (json_dumps (Some 2%nat) (JDict d));
                    LScoresHeader; LVideoScore (jpg_count w);
                    LAudioScore (length entries);
                    LNetScore (jpg_count w + length entries)] ++ rest
    /\ (jpg_count w = 0%nat -> rest = [LDisplayHeader; LNoScreenshots]).
Proof.
  intros Hpw Hsalt Htok Hdec Htext Hjson Haudio Hshots Hprint.
  unfold decrypt_suspicions, try_except, bind at 1.
  rewrite (KeyManager.derive_existing_salt _ _ _ _ Hsalt).
  unfold KeyManager.outcome. rewrite Hpw.
  unfold bind at 1. rewrite CryptoUtils_init_derived.
  unfold bind at 1. unfold read_file at 1. cbn [files log_io].
  rewrite Htok. unfold bind at 1.
  rewrite (decrypt_run (mkCryptoUtils (KeyManager.key_of pw salt))
             _ _ _ _ Hdec Htext).
  unfold bind at 1. rewrite Hjson. cbn [lift ret].
  set (w1 := log_io (IoRead encrypted_file) (log_io (IoRead "salt.bin") w)).
  unfold bind at 1. unfold print at 1, printable at 1.
  unfold bind at 1. unfold print at 1, printable at 1.
  set (w2 := set_stdout _ (log_io IoPrint (set_stdout _ _))).
  assert (stdout w2 = stdout w ++ [LDecryptedHeader;
            LDecrypted (json_dumps (Some 2%nat) (JDict d))]) as Hout2.
  { subst w2 w1. cbn [stdout set_stdout log_io]. now rewrite <- app_assoc. }
  assert (files w2 = files w /\ dirs w2 = dirs w) as [Hf2 Hd2].
  { subst w2 w1. now cbn [files dirs set_stdout log_io]. }
  assert (jpg_count w2 = jpg_count w) as Hjpg
    by (unfold jpg_count; now rewrite Hd2).
  destruct (calculate_scores_run d entries w2 Haudio) as (w3 & Hrun & Hout3 & _).
  { now rewrite Hf2. }
  unfold bind at 1. rewrite Hrun, Hjpg.
  destruct (prints_only_display (JDict d) (jpg_count w) w3) as [rest0 Hrest0].
  destruct (display_screenshots (JDict d) (jpg_count w) w3)
    as [[[]|e] w4] eqn:Hdisp; cbn [snd] in Hrest0.
  - exists w4, rest0. split; [reflexivity|]. split.
    + rewrite Hrest0, Hout3, Hout2, Hjpg. now rewrite <- !app_assoc.
    + intros Hz. rewrite Hz, display_nothing in Hdisp.
      injection Hdisp as <-. cbn [stdout set_stdout log_io] in Hrest0.
      now apply app_inv_head in Hrest0.
  - assert (exists l, (match e with
                       | FileNotFoundError _ => print (LNotFound encrypted_file)
                       | _ => print (LFailed e)
                       end) w4
                      = (Ok tt, set_stdout (stdout w4 ++ [l]) (log_io IoPrint w4)))
      as [l ->]
      by (destruct e; eexists; unfold print; rewrite ?Hprint; reflexivity).
    eexists _, (rest0 ++ [l]). split; [reflexivity|]. split.
    + cbn [stdout set_stdout].
      rewrite Hrest0, Hout3, Hout2, Hjpg. now rewrite <- !app_assoc.
    + intros Hz. rewrite Hz, display_nothing in Hdisp. discriminate.
Qed.

(** ** A whole session: supervisor, injected events, one tick, audit *)

Definition same_category (a b : category) : bool :=
  match a, b with
  | Video, Video | Audio, Audio => true
  | _, _ => false
  end.

(** An event handed to the store: a new dictionary, appended under the
    lock. *)
Definition inject (ce : category * pydict) : M unit :=
  let* l := alloc (snd ce) in locked_append (fst ce) l.

Definition events_of (c : category) (injections : list (category * pydict))
  : list pydict :=
  map snd (List.filter (fun ce => same_category c (fst ce)) injections).

(** The aggregate the injected events make up. *)
Definition aggregate (injections : list (category * pydict)) : json :=
  JDict [(py "video", JList (map JDict (events_of Video injections)));
         (py "audio", JList (map JDict (events_of Audio injections)))].

(** Start the supervisor, inject the events, run one persistence tick,
    audit the snapshot with the same password. *)
Definition session (sid password : pystr)
    (injections : list (category * pydict)) : M unit :=
  let* system := CortexShadeSystem_init sid password in
  for_each injections inject ;;
  encrypt_and_save system ;;
  decrypt_suspicions password "suspicions.json.encrypted".

(** Every reference in the store points into the heap. *)
Definition refs_valid (w : World) : Prop :=
  Forall (fun l => l < length (heap w))%nat
         (video (store w) ++ audio (store w)).

Lemma event_json_heap_app (ls : list nat) (w : World) (h : list pydict)
    (s : Store) :
  Forall (fun l => l < length (heap w))%nat ls ->
  map (event_json (set_store s (set_heap (heap w ++ h) w))) ls
  = map (event_json w) ls.
Proof.
  intros Hls. apply map_ext_Forall.
  eapply Forall_impl; [exact Hls|]. intros l Hl.
  unfold event_json. cbn [heap set_store set_heap].
  now rewrite lookup_app_l.
Qed.

Lemma inject_run (c : category) (ev : pydict) (w : World) :
  refs_valid w ->
  exists w' : World,
    inject (c, ev) w = (Ok tt, w')
    /\ refs_valid w'
    /\ files w' = files w /\ dirs w' = dirs w /\ stdout w' = stdout w
    /\ lock_held w' = false
    /\ (forall c', stored c' w' =
                   stored c' w ++ (if same_category c' c then [JDict ev] else [])).
Proof.
  intros Hvalid. unfold inject. cbn [fst snd]. unfold bind at 1, alloc at 1.
  rewrite locked_append_run. eexists. split; [reflexivity|].
  split; [|split; [reflexivity|split; [reflexivity|split; [reflexivity|
           split; [reflexivity|]]]]].
  - unfold refs_valid in *.
    cbn [store heap set_lock_held set_store set_heap].
    rewrite length_app. cbn [length].
    assert (Forall (fun l => l < length (heap w) + 1)%nat
                   (video (store w) ++ audio (store w))) as Hold.
    { eapply Forall_impl; [exact Hvalid|]. cbn beta. intros; lia. }
    apply Forall_app in Hold as [Hv Ha].
    destruct c; cbn [store_append video audio]; rewrite !Forall_app;
      repeat split; try assumption; repeat constructor; lia.
  - intros c'. unfold stored at 1.
    cbn [store set_lock_held set_store].
    assert (forall l, event_json
              (set_lock_held false
                 (set_store (store_append c (length (heap w)) (store w))
                    (set_heap (heap w ++ [ev]) w))) l
            = event_json
                (set_store (store_append c (length (heap w)) (store w))
                   (set_heap (heap w ++ [ev]) w)) l) as Hlock
      by reflexivity.
    rewrite (map_ext _ _ Hlock).
    assert (forall s, event_json (set_store s (set_heap (heap w ++ [ev]) w))
                                 (length (heap w))
                      = JDict ev) as Hnew.
    { intros s. unfold event_json. cbn [heap set_store set_heap].
      now rewrite list_lookup_middle. }
    unfold refs_valid in Hvalid. apply Forall_app in Hvalid as [Hv Ha].
    unfold stored.
    destruct c, c'; cbn [store_append video audio same_category];
      rewrite ?map_app; cbn [map]; rewrite ?Hnew;
      rewrite ?(event_json_heap_app _ w [ev] _ Hv),
              ?(event_json_heap_app _ w [ev] _ Ha);
      rewrite ?app_nil_r; reflexivity.
Qed.

Lemma events_of_cons (c : category) (ce : category * pydict)
    (r : list (category * pydict)) :
  map JDict (events_of c (ce :: r)) =
  (if same_category c (fst ce) then [JDict (snd ce)] else [])
  ++ map JDict (events_of c r).
Proof.
  unfold events_of. cbn [List.filter].
  now destruct (same_category c (fst ce)).
Qed.

Lemma inject_all_run (injections : list (category * pydict)) (w : World) :
  refs_valid w ->
  lock_held w = false ->
  exists w' : World,
    for_each injections inject w = (Ok tt, w')
    /\ files w' = files w /\ dirs w' = dirs w /\ stdout w' = stdout w
    /\ lock_held w' = false
    /\ (forall c, stored c w' = stored c w ++ map JDict (events_of c injections)).
Proof.
  revert w. induction injections as [|[c ev] r IH]; intros w Hvalid Hlock.
  - exists w. cbn [for_each ret]. repeat split; try assumption.
    intros c. unfold events_of. cbn. now rewrite app_nil_r.
  - destruct (inject_run c ev w Hvalid)
      as (w1 & Hrun & Hvalid1 & Hf1 & Hd1 & Ho1 & Hl1 & Hs1).
    destruct (IH w1 Hvalid1 Hl1) as (w2 & Hrun2 & Hf2 & Hd2 & Ho2 & Hl2 & Hs2).
    exists w2. cbn [for_each]. unfold bind at 1. rewrite Hrun, Hrun2.
    split; [reflexivity|]. split; [congruence|]. split; [congruence|].
    split; [congruence|]. split; [assumption|].
    intros c'. rewrite Hs2, Hs1, events_of_cons, app_assoc. reflexivity.
Qed.

Lemma CortexShadeSystem_init_run (sid password : pystr) (pw : pybytes)
    (w : World) :
  Utf8.encode password = Some pw ->
  dirs w !! "salt.bin" = None ->
  exists (salt : pybytes) (w' : World),
    CortexShadeSystem_init sid password w
    = (Ok (mkSystem sid (KeyManager.key_of pw salt)
             (mkCryptoUtils (KeyManager.key_of pw salt))
             (mkSecureLogger (mkCryptoUtils (KeyManager.key_of pw salt))
                             "secure_logs.jsonl")), w')
    /\ files w' !! "salt.bin" = Some salt
    /\ (forall p : string, p <> "salt.bin" -> files w' !! p = files w !! p)
    /\ dirs w' = dirs w /\ stdout w' = stdout w
    /\ store w' = mkStore [] [] /\ lock_held w' = false.
Proof.
  intros Hpw Hd. unfold CortexShadeSystem_init, bind at 1.
  destruct (files w !! "salt.bin") as [salt|] eqn:Hs.
  - rewrite (KeyManager.derive_existing_salt _ _ _ _ Hs).
    unfold KeyManager.outcome. rewrite Hpw.
    unfold bind at 1. rewrite CryptoUtils_init_derived.
    eexists salt, _. split; [reflexivity|].
    cbn [files dirs stdout store lock_held set_lock_held set_store log_io].
    repeat split; auto.
  - rewrite (KeyManager.derive_fresh_salt _ _ _ Hs Hd)
      by now apply create_error_bare.
    unfold KeyManager.outcome. rewrite Hpw.
    unfold bind at 1. rewrite CryptoUtils_init_derived.
    eexists _, _. split; [reflexivity|].
    cbn [files dirs stdout store lock_held set_lock_held set_store log_io
         set_files set_drawn].
    split; [apply lookup_insert_eq|].
    split; [intros p Hp; now apply lookup_insert_ne|].
    repeat split.
Qed.

Lemma get_audio_of_pair (v a : json) :
  Dict.get (py "audio") [(py "video", v); (py "audio", a)] = Some a.
Proof. reflexivity. Qed.

(** The whole session, for a password with a UTF-8 encoding, working
    paths that are no directories and an aggregate that [json]
    serializes to encodable text and reads back. *)
Lemma session_run (sid password : pystr) (pw bs : pybytes)
    (injections : list (category * pydict)) (w : World) :
  Utf8.encode password = Some pw ->
  dirs w !! "salt.bin" = None ->
  dirs w !! "suspicions.json" = None ->
  dirs w !! "suspicions.json.encrypted" = None ->
  files w !! "screenshots" = None ->
  Utf8.encode (json_dumps (Some 2%nat) (aggregate injections)) = Some bs ->
  json_loads (json_dumps (Some 2%nat) (aggregate injections))
    = Some (aggregate injections) ->
  exists (w' : World) (rest : list line),
    session sid password injections w = (Ok tt, w')
    /\ stdout w' =
       stdout w ++ [LSaved; LDecryptedHeader;
                    LDecrypted (json_dumps (Some 2%nat) (aggregate injections));
                    LScoresHeader; LVideoScore (jpg_count w);
                    LAudioScore (length (events_of Audio injections));
                    LNetScore (jpg_count w
                               + length (events_of Audio injections))]
                ++ rest
    /\ (jpg_count w = 0%nat -> rest = [LDisplayHeader; LNoScreenshots]).
Proof.
  intros Hpw Hd0 Hd1 Hd2 Hshots Henc Hload.
  destruct (CortexShadeSystem_init_run sid password pw w Hpw Hd0)
    as (salt & w1 & Hinit & Hsalt1 & Hf1 & Hdir1 & Ho1 & Hst1 & Hl1).
  destruct (inject_all_run injections w1)
    as (w2 & Hinj & Hf2 & Hdir2 & Ho2 & Hl2 & Hs2).
  { unfold refs_valid. rewrite Hst1. constructor. }
  { exact Hl1. }
  assert (suspicions_json w2 = aggregate injections) as Hagg.
  { unfold suspicions_json, aggregate. rewrite !Hs2.
    unfold stored. now rewrite Hst1. }
  set (system := mkSystem sid _ _ _) in Hinit.
  destruct (encrypt_and_save_run system bs w2)
    as (w3 & Htick & Hf3 & Hdir3 & _ & _ & _ & _ & Hl3 & Ho3 & _).
  { now rewrite Hdir2, Hdir1. }
  { now rewrite Hdir2, Hdir1. }
  { now rewrite Hagg. }
  destruct (decrypt_suspicions_run password "suspicions.json.encrypted"
              pw salt
              (fernet_encrypt (KeyManager.key_of pw salt)
                 (map (fun i => entropy w2 (drawn w2 + i)%nat mod 256) (seq 0 16))
                 (clock w2 (S (ticks w2))) bs)
              bs (json_dumps (Some 2%nat) (aggregate injections))
              [(py "video", JList (map JDict (events_of Video injections)));
               (py "audio", JList (map JDict (events_of Audio injections)))]
              (map JDict (events_of Audio injections)) w3)
    as (w4 & rest & Haudit & Ho4 & Hrest).
  { exact Hpw. }
  { rewrite Hf3, !lookup_insert_ne, Hf2 by discriminate. exact Hsalt1. }
  { rewrite Hf3. apply lookup_insert_eq. }
  { apply fernet_roundtrip, key_of_accepted. }
  { now apply Utf8.decode_encode. }
  { exact Hload. }
  { now rewrite get_audio_of_pair. }
  { rewrite Hf3, !lookup_insert_ne, Hf2, Hf1 by discriminate. exact Hshots. }
  { vm_compute. reflexivity. }
  assert (jpg_count w3 = jpg_count w) as Hjpg.
  { unfold jpg_count. now rewrite Hdir3, Hdir2, Hdir1. }
  exists w4, rest. split.
  - unfold session, bind at 1. rewrite Hinit.
    unfold bind at 1. rewrite Hinj.
    unfold bind at 1. rewrite Htick. exact Haudit.
  - rewrite Hjpg in Ho4, Hrest. split; [|exact Hrest].
    rewrite Ho4, Ho3, Ho2, Ho1, length_map. now rewrite <- !app_assoc.
Qed.

(** C9 (amended): in a session where exactly three video events and two
    audio events are appended to the store and one persistence tick
    runs, auditing the snapshot with the same password prints the
    aggregate with a "video" sequence of length 3 and an "audio"
    sequence of length 2, an audio score of 2, a video score equal to
    the number of ".jpg" entries of the screenshots directory, and their
    sum as the net score. *)
Theorem normal_session_scores (sid password : pystr) (pw bs : pybytes)
    (injections : list (category * pydict)) (w : World) :
  length (events_of Video injections) = 3%nat ->
  length (events_of Audio injections) = 2%nat ->
  Utf8.encode password = Some pw ->
  dirs w !! "salt.bin" = None ->
  dirs w !! "suspicions.json" = None ->
  dirs w !! "suspicions.json.encrypted" = None ->
  files w !! "screenshots" = None ->
  Utf8.encode (json_dumps (Some 2%nat) (aggregate injections)) = Some bs ->
  json_loads (json_dumps (Some 2%nat) (aggregate injections))
    = Some (aggregate injections) ->
  exists (V A : list json) (w' : World) (rest : list line),
    session sid password injections w = (Ok tt, w')
    /\ length V = 3%nat /\ length A = 2%nat
    /\ stdout w' =
       stdout w ++ [LSaved; LDecryptedHeader;
                    LDecrypted (json_dumps (Some 2%nat)
                                  (JDict [(py "video", JList V);
                                          (py "audio", JList A)]));
                    LScoresHeader; LVideoScore (jpg_count w);
                    LAudioScore 2; LNetScore (jpg_count w + 2)]
                ++ rest.
Proof.
  intros Hv Ha Hpw Hd0 Hd1 Hd2 Hshots Henc Hload.
  destruct (session_run sid password pw bs injections w
              Hpw Hd0 Hd1 Hd2 Hshots Henc Hload)
    as (w' & rest & Hrun & Hout & _).
  exists (map JDict (events_of Video injections)),
         (map JDict (events_of Audio injections)), w', rest.
  rewrite !length_map, Ha in *. auto.
Qed.

(** ** The lock and the blocking calls ([main.py]) *)

(** Started with the lock free, the program makes its blocking calls
    without the lock and leaves the lock free. *)
Definition outside_lock {A} (m : M A) : Prop :=
  forall w : World,
    lock_held w = false ->
    lock_held (snd (m w)) = false
    /\ exists ops : list (bool * io_op),
         io_log (snd (m w)) = io_log w ++ ops
         /\ Forall (fun x => fst x = false) ops.

Lemma outside_lock_io {A} (m : M A) (w : World) :
  outside_lock m -> lock_held w = false ->
  io_outside_lock w (snd (m w)) /\ lock_held (snd (m w)) = false.
Proof.
  intros Hm Hw. destruct (Hm w Hw) as (Hl & ops & Hio & Hops).
  split; [|exact Hl]. intros op. rewrite Hio, drop_app_length.
  intros Hin. rewrite Forall_forall in Hops. now specialize (Hops _ Hin).
Qed.

(** A step that leaves lock and log of calls alone. *)
Lemma outside_lock_quiet {A} (m : M A) :
  (forall w, lock_held (snd (m w)) = lock_held w
             /\ io_log (snd (m w)) = io_log w) ->
  outside_lock m.
Proof.
  intros H w Hw. destruct (H w) as [Hl Hio]. split; [congruence|].
  exists []. rewrite app_nil_r. auto.
Qed.

(** A step that makes at most one blocking call. *)
Lemma outside_lock_call {A} (m : M A) (op : io_op) :
  (forall w, lock_held (snd (m w)) = lock_held w
             /\ (io_log (snd (m w)) = io_log w ++ [(lock_held w, op)]
                 \/ io_log (snd (m w)) = io_log w)) ->
  outside_lock m.
Proof.
  intros H w Hw. destruct (H w) as [Hl [Hio|Hio]]; (split; [congruence|]).
  - exists [(lock_held w, op)]. split; [exact Hio|].
    constructor; [exact Hw|constructor].
  - exists []. rewrite app_nil_r. auto.
Qed.

Lemma outside_lock_ret {A} (a : A) : outside_lock (ret a).
Proof. now apply outside_lock_quiet. Qed.

Lemma outside_lock_raise {A} (e : exn) : outside_lock (@raise A e).
Proof. now apply outside_lock_quiet. Qed.

Lemma outside_lock_lift {A} (e : exn) (o : option A) :
  outside_lock (lift e o).
Proof. destruct o; [apply outside_lock_ret|apply outside_lock_raise]. Qed.

Lemma outside_lock_bind {A B} (m : M A) (k : A -> M B) :
  outside_lock m -> (forall a, outside_lock (k a)) -> outside_lock (bind m k).
Proof.
  intros Hm Hk w Hw. unfold bind.
  destruct (Hm w Hw) as (Hl & ops & Hio & Hops).
  destruct (m w) as [[a|e] w1]; cbn [snd] in *.
  - destruct (Hk a w1 Hl) as (Hl2 & ops2 & Hio2 & Hops2).
    split; [exact Hl2|]. exists (ops ++ ops2).
    split; [now rewrite Hio2, Hio, app_assoc|now apply Forall_app].
  - split; [exact Hl|]. now exists ops.
Qed.

Lemma outside_lock_try_except {A} (m : M A) (h : exn -> M A) :
  outside_lock m -> (forall e, outside_lock (h e)) ->
  outside_lock (try_except m h).
Proof.
  intros Hm Hh w Hw. unfold try_except.
  destruct (Hm w Hw) as (Hl & ops & Hio & Hops).
  destruct (m w) as [[a|e] w1]; cbn [snd] in *.
  - split; [exact Hl|]. now exists ops.
  - destruct (Hh e w1 Hl) as (Hl2 & ops2 & Hio2 & Hops2).
    split; [exact Hl2|]. exists (ops ++ ops2).
    split; [now rewrite Hio2, Hio, app_assoc|now apply Forall_app].
Qed.

Lemma outside_lock_print (l : line) : outside_lock (print l).
Proof.
  apply (outside_lock_call _ IoPrint). intros w. unfold print.
  destruct (printable l); cbn; auto.
Qed.

Lemma outside_lock_append_file (p : string) (bs : pybytes) :
  outside_lock (append_file p bs).
Proof.
  apply (outside_lock_call _ (IoAppend p)). intros w. unfold append_file.
  destruct (open_error p w); cbn; auto.
Qed.

Lemma outside_lock_time_time : outside_lock time_time.
Proof. now apply outside_lock_quiet. Qed.

Lemma outside_lock_now_formatted : outside_lock now_formatted.
Proof. now apply outside_lock_quiet. Qed.

Lemma outside_lock_alloc (d : pydict) : outside_lock (alloc d).
Proof. now apply outside_lock_quiet. Qed.

Lemma outside_lock_deref (l : nat) : outside_lock (deref l).
Proof.
  apply outside_lock_quiet. intros w. unfold deref.
  now destruct (heap w !! l).
Qed.

Lemma outside_lock_assign (l : nat) (d : pydict) : outside_lock (assign l d).
Proof. now apply outside_lock_quiet. Qed.

Lemma outside_lock_encrypt (self : CryptoUtils) (text : pystr) :
  outside_lock (encrypt self text).
Proof.
  apply outside_lock_quiet. intros w. unfold encrypt. mrun.
  now destruct (Utf8.encode text).
Qed.

(** The append takes the lock, touches the store in memory, and gives
    the lock back: no blocking call in between. *)
Lemma outside_lock_locked_append (c : category) (event : nat) :
  outside_lock (locked_append c event).
Proof.
  intros w _. rewrite locked_append_run. cbn. split; [reflexivity|].
  exists []. now rewrite app_nil_r.
Qed.

Ltac outside_lock_step :=
  lazymatch goal with
  | |- outside_lock (bind _ _) => apply outside_lock_bind; [|intros ?]
  | |- outside_lock (try_except _ _) =>
    apply outside_lock_try_except; [|intros ?]
  | |- outside_lock (ret _) => apply outside_lock_ret
  | |- outside_lock (raise _) => apply outside_lock_raise
  | |- outside_lock (lift _ _) => apply outside_lock_lift
  | |- outside_lock (print _) => apply outside_lock_print
  | |- outside_lock (append_file _ _) => apply outside_lock_append_file
  | |- outside_lock time_time => apply outside_lock_time_time
  | |- outside_lock now_formatted => apply outside_lock_now_formatted
  | |- outside_lock (alloc _) => apply outside_lock_alloc
  | |- outside_lock (deref _) => apply outside_lock_deref
  | |- outside_lock (assign _ _) => apply outside_lock_assign
  | |- outside_lock (encrypt _ _) => apply outside_lock_encrypt
  | |- outside_lock (locked_append _ _) => apply outside_lock_locked_append
  | |- outside_lock (if ?b then _ else _) => destruct b
  | |- outside_lock (match ?d with JStr _ => _ | _ => _ end) => destruct d
  end.

Lemma outside_lock_log_event (self : SecureLogger) (event : nat) :
  outside_lock (log_event self event).
Proof. unfold log_event. repeat outside_lock_step. Qed.

Lemma outside_lock_sync (event : nat) : outside_lock (sync event).
Proof. unfold sync. repeat outside_lock_step. Qed.

Ltac outside_lock_round :=
  repeat first [ apply outside_lock_log_event | apply outside_lock_sync
               | outside_lock_step ].

Lemma outside_lock_run_camera (self : CortexShadeSystem) (score : Z) :
  outside_lock (run_camera self score).
Proof. unfold run_camera. outside_lock_round. Qed.

Lemma outside_lock_run_audio (self : CortexShadeSystem)
    (heard : result (pystr * pystr)) :
  outside_lock (run_audio self heard).
Proof.
  unfold run_audio. destruct heard as [[label reasons]|e]; outside_lock_round.
Qed.

(** Logging, synchronising and storing an event whose log line can be
    written. *)
Lemma record_run (self : SecureLogger) (c : category) (event : nat)
    (ev : pydict) (data : pybytes) (w : World) :
  heap w !! event = Some ev ->
  EventSchema.validate ev = true ->
  Utf8.encode (json_dumps None (JDict (stamped w ev))) = Some data ->
  open_error (sl_logfile self) w = None ->
  exists w' : World,
    (log_event self event ;; sync event ;; locked_append c event) w
      = (Ok tt, w')
    /\ heap w' = <[event := stamped w ev]> (heap w)
    /\ files w' =
       <[sl_logfile self :=
           default [] (files w !! sl_logfile self)
           ++ fernet_encrypt (cu_key (sl_crypto self))
                (map (fun i => entropy w (drawn w + i)%nat mod 256) (seq 0 16))
                (clock w (S (ticks w))) data
           ++ [10]]> (files w)
    /\ store w' = store_append c event (store w)
    /\ lock_held w' = false
    /\ stdout w' = stdout w ++ [LLogged (JStr (strftime (clock w (ticks w))));
                                LSync (stamped w ev)]
    /\ io_log w' = io_log w ++ [(lock_held w, IoAppend (sl_logfile self));
                                (lock_held w, IoPrint);
                                (lock_held w, IoPrint)].
Proof.
  intros Hev Hval Henc Hd.
  assert (event < length (heap w))%nat as Hlt by (eapply lookup_lt_Some, Hev).
  destruct (log_event_run self event ev data w Hev Hval Henc Hd)
    as (w1 & Hrun & Hheap & Hf & _ & Hstore & Hlock & Hout & Hio).
  unfold bind at 1. rewrite Hrun. unfold sync. wrun.
  rewrite Hheap, list_lookup_insert_eq by exact Hlt. wrun.
  rewrite locked_append_run.
  eexists. split; [reflexivity|]. wrun.
  rewrite Hheap, Hf, Hstore, Hout, Hio, Hlock, <- !app_assoc. repeat split.
Qed.

(** The event an audio round builds for a label and the text of its
    reasons, before it is logged. *)
Definition audio_event (self : CortexShadeSystem) (label reasons : pystr)
    (w : World) : pydict :=
  [(py "id", JStr (student_id self ++ py "_aud_"
                    ++ decimal (Z.of_N (clock w (ticks w)))));
   (py "timestamp", JStr (strftime (clock w (S (ticks w)))));
   (py "data", JStr (Redactor.redact
                       (py "Audio event: " ++ label
                        ++ py " | Reasons: " ++ reasons)))].

(** A camera round with a positive score whose log line can be written:
    its blocking calls, and what it does to the store. *)
Lemma run_camera_io (self : CortexShadeSystem) (score : Z) (data : pybytes)
    (w : World) :
  (0 < score)%Z ->
  open_error (sl_logfile (logger self)) w = None ->
  Utf8.encode
    (json_dumps None
       (JDict (camera_event self score w
               ++ [(py "logged_at",
                    JStr (strftime (clock w (S (S (ticks w))))))])))
    = Some data ->
  fst (run_camera self score w) = Ok tt
  /\ store (snd (run_camera self score w))
     = store_append Video (length (heap w)) (store w)
  /\ io_log (snd (run_camera self score w))
     = io_log w ++ [(lock_held w, IoAppend (sl_logfile (logger self)));
                    (lock_held w, IoPrint); (lock_held w, IoPrint)].
Proof.
  intros Hscore Hd Henc. unfold run_camera.
  rewrite (proj2 (Z.ltb_lt 0 score) Hscore). wrun.
  rewrite list_lookup_middle by reflexivity. wrun.
  rewrite get_data_of_event. wrun. rewrite set_data_of_event.
  fold (camera_event self score w).
  rewrite insert_app_r_alt by lia. rewrite Nat.sub_diag.
  change (<[0%nat := camera_event self score w]> [?x])
    with [camera_event self score w].
  match goal with
  | |- context [log_event ?l ?e ?W] =>
    destruct (record_run l Video e (camera_event self score w) data W)
      as (w1 & Hrun & _ & _ & Hstore & _ & _ & Hio)
  end.
  { cbn [heap set_heap set_ticks]. now apply list_lookup_middle. }
  { apply validate_event. }
  { unfold stamped. cbn [clock ticks set_heap set_ticks].
    unfold camera_event at 1. rewrite set_logged_at_of_event. exact Henc. }
  { rewrite (open_error_ext _ w) by reflexivity. exact Hd. }
  cbv beta iota zeta delta [bind] in Hrun. rewrite Hrun.
  cbn [fst snd]. now rewrite Hstore, Hio.
Qed.

(** The same for an audio round with one of the reported labels. *)
Lemma run_audio_io (self : CortexShadeSystem) (label reasons : pystr)
    (data : pybytes) (w : World) :
  label ∈ audio_labels ->
  open_error (sl_logfile (logger self)) w = None ->
  Utf8.encode
    (json_dumps None
       (JDict (audio_event self label reasons w
               ++ [(py "logged_at",
                    JStr (strftime (clock w (S (S (ticks w))))))])))
    = Some data ->
  fst (run_audio self (Ok (label, reasons)) w) = Ok tt
  /\ store (snd (run_audio self (Ok (label, reasons)) w))
     = store_append Audio (length (heap w)) (store w)
  /\ io_log (snd (run_audio self (Ok (label, reasons)) w))
     = io_log w ++ [(lock_held w, IoAppend (sl_logfile (logger self)));
                    (lock_held w, IoPrint); (lock_held w, IoPrint)].
Proof.
  intros Hlabel Hd Henc. unfold run_audio, try_except.
  rewrite (bool_decide_eq_true_2 _ Hlabel). wrun.
  rewrite list_lookup_middle by reflexivity. wrun.
  rewrite get_data_of_event. wrun. rewrite set_data_of_event.
  fold (audio_event self label reasons w).
  rewrite insert_app_r_alt by lia. rewrite Nat.sub_diag.
  change (<[0%nat := audio_event self label reasons w]> [?x])
    with [audio_event self label reasons w].
  match goal with
  | |- context [log_event ?l ?e ?W] =>
    destruct (record_run l Audio e (audio_event self label reasons w) data W)
      as (w1 & Hrun & _ & _ & Hstore & _ & _ & Hio)
  end.
  { cbn [heap set_heap set_ticks]. now apply list_lookup_middle. }
  { apply validate_event. }
  { unfold stamped. cbn [clock ticks set_heap set_ticks].
    unfold audio_event at 1. rewrite set_logged_at_of_event. exact Henc. }
  { rewrite (open_error_ext _ w) by reflexivity. exact Hd. }
  cbv beta iota zeta delta [bind] in Hrun. rewrite Hrun.
  cbn [fst snd]. now rewrite Hstore, Hio.
Qed.

(** C7 (amended): a persistence tick, after sleeping outside the lock,
    takes the lock and keeps it across serialization, both writes of the
    working file, the read-back, encryption, the write of the snapshot
    and the status line; it releases the lock afterwards.  The producers
    hold the lock around the in-memory append only: started with the
    lock free, a round of [run_camera] or [run_audio] (what follows the
    return of the camera run, or of recording and classification, which
    take no lock) makes every blocking call (the append to the log, the
    two reports) without the lock and leaves the lock free, whatever the
    round does; a round that stores its event makes exactly these three
    calls, all of them without the lock. *)
Theorem tick_holds_lock_across_io (self : CortexShadeSystem) (bs : pybytes)
    (w : World) :
  lock_held w = false ->
  dirs w !! "suspicions.json" = None ->
  dirs w !! "suspicions.json.encrypted" = None ->
  Utf8.encode (json_dumps (Some 2%nat) (suspicions_json w)) = Some bs ->
  (exists w' : World,
     encrypt_and_save self w = (Ok tt, w')
     /\ lock_held w' = false
     /\ io_log w' =
        io_log w ++ [(false, IoSleep 10);
                     (true, IoWrite "suspicions.json");
                     (true, IoWrite "suspicions.json");
                     (true, IoRead "suspicions.json");
                     (true, IoWrite "suspicions.json.encrypted");
                     (true, IoPrint)])
  /\ (forall (c : category) (event : nat) (w0 : World),
        io_log (snd (locked_append c event w0)) = io_log w0)
  /\ (forall (score : Z) (w0 : World),
        lock_held w0 = false ->
        io_outside_lock w0 (snd (run_camera self score w0))
        /\ lock_held (snd (run_camera self score w0)) = false)
  /\ (forall (heard : result (pystr * pystr)) (w0 : World),
        lock_held w0 = false ->
        io_outside_lock w0 (snd (run_audio self heard w0))
        /\ lock_held (snd (run_audio self heard w0)) = false)
  /\ (forall (score : Z) (data : pybytes) (w0 : World),
        lock_held w0 = false ->
        (0 < score)%Z ->
        open_error (sl_logfile (logger self)) w0 = None ->
        Utf8.encode
          (json_dumps None
             (JDict (camera_event self score w0
                     ++ [(py "logged_at",
                          JStr (strftime (clock w0 (S (S (ticks w0))))))])))
          = Some data ->
        fst (run_camera self score w0) = Ok tt
        /\ store (snd (run_camera self score w0))
           = store_append Video (length (heap w0)) (store w0)
        /\ io_log (snd (run_camera self score w0))
           = io_log w0 ++ [(false, IoAppend (sl_logfile (logger self)));
                           (false, IoPrint); (false, IoPrint)])
  /\ (forall (label reasons : pystr) (data : pybytes) (w0 : World),
        lock_held w0 = false ->
        label ∈ audio_labels ->
        open_error (sl_logfile (logger self)) w0 = None ->
        Utf8.encode
          (json_dumps None
             (JDict (audio_event self label reasons w0
                     ++ [(py "logged_at",
                          JStr (strftime (clock w0 (S (S (ticks w0))))))])))
          = Some data ->
        fst (run_audio self (Ok (label, reasons)) w0) = Ok tt
        /\ store (snd (run_audio self (Ok (label, reasons)) w0))
           = store_append Audio (length (heap w0)) (store w0)
        /\ io_log (snd (run_audio self (Ok (label, reasons)) w0))
           = io_log w0 ++ [(false, IoAppend (sl_logfile (logger self)));
                           (false, IoPrint); (false, IoPrint)]).
Proof.
  intros Hfree Hd1 Hd2 Henc. split; [|split; [reflexivity|]].
  { destruct (encrypt_and_save_run self bs w Hd1 Hd2 Henc)
      as (w' & Hrun & _ & _ & _ & _ & _ & _ & Hl & _ & Hio).
    exists w'. rewrite Hfree in Hio. auto. }
  split.
  { intros score w0 Hw0.
    apply outside_lock_io; [apply outside_lock_run_camera|exact Hw0]. }
  split.
  { intros heard w0 Hw0.
    apply outside_lock_io; [apply outside_lock_run_audio|exact Hw0]. }
  split.
  - intros score data w0 Hw0 Hscore Hopen Hdata.
    destruct (run_camera_io self score data w0 Hscore Hopen Hdata)
      as (Hok & Hstore & Hio).
    rewrite Hw0 in Hio. auto.
  - intros label reasons data w0 Hw0 Hlabel Hopen Hdata.
    destruct (run_audio_io self label reasons data w0 Hlabel Hopen Hdata)
      as (Hok & Hstore & Hio).
    rewrite Hw0 in Hio. auto.
Qed.

(** ** Further properties of the pipeline *)

(** *** The cipher wrapper *)

(** X7: [CryptoUtils()] and [CryptoUtils(b"")] alike generate a key: 32
    octets are drawn and their url-safe base64 text, 44 characters long,
    becomes the key.  A non-empty key is used as it is given, without
    drawing anything, and the constructor raises [ValueError] exactly
    when the token library refuses it. *)
Theorem CryptoUtils_init_generates_key (key0 : option pybytes) (w : World) :
  key0 = None \/ key0 = Some [] ->
  exists raw : pybytes,
    length raw = 32%nat
    /\ raw = map (fun i => entropy w (drawn w + i)%nat mod 256) (seq 0 32)
    /\ CryptoUtils_init key0 w
       = (Ok (mkCryptoUtils (Base64.urlsafe_b64encode raw)),
          set_drawn (drawn w + 32) w)
    /\ length (Base64.urlsafe_b64encode raw) = 44%nat
    /\ forall (b : N) (r : pybytes) (w0 : World),
         CryptoUtils_init (Some (b :: r)) w0
         = (if fernet_key_ok (b :: r)
            then Ok (mkCryptoUtils (b :: r)) else Raise ValueError, w0).
Proof.
  intros Hkey.
  assert (length (map (fun i => entropy w (drawn w + i)%nat mod 256)
                      (seq 0 32)) = 32%nat) as Hlen
    by now rewrite length_map, length_seq.
  eexists. split; [exact Hlen|]. split; [reflexivity|]. split.
  - unfold CryptoUtils_init. destruct Hkey as [->| ->]; wrun;
      now rewrite (fernet_accepts_b64 _ Hlen).
  - split; [now rewrite Base64.urlsafe_b64encode_length, Hlen|].
    intros b r w0. unfold CryptoUtils_init. wrun.
    now destruct (fernet_key_ok (b :: r)).
Qed.

(** *** The secure logger *)

(** X8: when [log_event] fails on a schema-valid event, the cause is
    the text of the event having no UTF-8 encoding, or the log file not
    opening for appending: its path is a directory
    ([IsADirectoryError]), or there is no file yet and it cannot be
    created, the directory of the path being missing
    ([FileNotFoundError]) or a regular file ([NotADirectoryError]).  No
    file has changed and nothing was printed, yet the caller's
    dictionary already carries [logged_at]. *)
Theorem log_event_failure_keeps_log (self : SecureLogger) (event : nat)
    (ev : pydict) (e : exn) (w : World) :
  heap w !! event = Some ev ->
  EventSchema.validate ev = true ->
  fst (log_event self event w) = Raise e ->
  (e = UnicodeEncodeError
   /\ Utf8.encode (json_dumps None (JDict (stamped w ev))) = None
   \/ open_error (sl_logfile self) w = Some e
      /\ (e = IsADirectoryError (sl_logfile self)
          /\ is_Some (dirs w !! sl_logfile self)
          \/ dirs w !! sl_logfile self = None
             /\ files w !! sl_logfile self = None
             /\ create_error (sl_logfile self) w = Some e
             /\ (e = FileNotFoundError (sl_logfile self)
                 \/ e = NotADirectoryError (sl_logfile self)
                 \/ e = IsADirectoryError (sl_logfile self))))
  /\ files (snd (log_event self event w)) = files w
  /\ stdout (snd (log_event self event w)) = stdout w
  /\ store (snd (log_event self event w)) = store w
  /\ heap (snd (log_event self event w)) = <[event := stamped w ev]> (heap w).
Proof.
  intros Hev Hval.
  assert (event < length (heap w))%nat as Hlt by (eapply lookup_lt_Some, Hev).
  destruct (Utf8.encode (json_dumps None (JDict (stamped w ev))))
    as [bs|] eqn:Henc.
  - destruct (open_error (sl_logfile self) w) as [e'|] eqn:Ho.
    + destruct (log_event_refused self event ev bs e' w Hev Hval Henc Ho)
        as (w' & -> & Hh & Hf & _ & Hs & _ & Hout & _).
      cbn [fst snd]. intros [= <-]. split; [|now repeat split].
      right. split; [reflexivity|].
      destruct (open_error_cases _ _ _ Ho) as [[-> Hd]|(Hd & Hf' & Hc)].
      * now left.
      * right. split; [exact Hd|]. split; [exact Hf'|]. split; [exact Hc|].
        exact (create_error_cases _ _ _ Hc).
    + destruct (log_event_run self event ev bs w Hev Hval Henc Ho)
        as (w' & -> & _). discriminate.
  - unfold log_event. wrun. rewrite Hev. wrun. rewrite Hval. wrun.
    fold (stamped w ev).
    rewrite list_lookup_insert_eq by exact Hlt. wrun.
    unfold encrypt. wrun. rewrite Henc. wrun.
    intros [= <-]. repeat split. now left.
Qed.

(** Logging the same dictionary a second time replaces the first
    [logged_at] by the later reading of the clock; the keys and their
    order stay. *)
Lemma log_event_twice_restamps (self : SecureLogger) (event : nat)
    (ev : pydict) (w : World) :
  heap w !! event = Some ev ->
  EventSchema.validate ev = true ->
  heap (snd (log_event self event (snd (log_event self event w))))
  = <[event := stamped (snd (log_event self event w)) ev]> (heap w)
  /\ map fst (stamped (snd (log_event self event w)) ev)
     = map fst (stamped w ev).
Proof.
  intros Hev Hval.
  assert (event < length (heap w))%nat as Hlt by (eapply lookup_lt_Some, Hev).
  pose proof (log_event_heap self event ev w Hev Hval) as H1.
  set (w1 := snd (log_event self event w)) in *.
  assert (heap w1 !! event = Some (stamped w ev)) as Hev1
    by (rewrite H1; now apply list_lookup_insert_eq).
  assert (EventSchema.validate (stamped w ev) = true) as Hval1
    by now apply EventSchema.validate_set.
  rewrite (log_event_heap self event _ w1 Hev1 Hval1), H1.
  split.
  - rewrite list_insert_insert_eq. unfold stamped.
    now rewrite Dict.set_set.
  - unfold stamped. now rewrite !Dict.keys_set.
Qed.


(** *** The producers *)

(** The same steps when the log path is a directory: [log_event] raises
    after stamping the event, and neither [sync] nor the append runs. *)
Lemma record_blocked (self : SecureLogger) (c : category) (event : nat)
    (ev : pydict) (data : pybytes) (names : list pystr) (w : World) :
  heap w !! event = Some ev ->
  EventSchema.validate ev = true ->
  Utf8.encode (json_dumps None (JDict (stamped w ev))) = Some data ->
  dirs w !! sl_logfile self = Some names ->
  exists w' : World,
    (log_event self event ;; sync event ;; locked_append c event) w
      = (Raise (IsADirectoryError (sl_logfile self)), w')
    /\ heap w' = <[event := stamped w ev]> (heap w)
    /\ files w' = files w /\ store w' = store w
    /\ lock_held w' = lock_held w /\ stdout w' = stdout w.
Proof.
  intros Hev Hval Henc Hd.
  assert (event < length (heap w))%nat as Hlt by (eapply lookup_lt_Some, Hev).
  unfold log_event. wrun. rewrite Hev. wrun. rewrite Hval. wrun.
  fold (stamped w ev).
  rewrite list_lookup_insert_eq by exact Hlt. wrun.
  unfold encrypt. wrun. rewrite Henc. wrun.
  rewrite (open_error_ext (sl_logfile self) w),
    (open_error_directory _ _ _ Hd) by reflexivity.
  wrun. eexists. split; [reflexivity|]. repeat split.
Qed.

(** X9: a camera round with a positive score whose log line can be
    written creates one dictionary, redacts its "data", logs it, prints
    the two reports and appends the reference to the video sequence
    only; what is stored is the dictionary with [logged_at], its "data"
    does not contain the marker, and it has no "event" key. *)
Theorem run_camera_records_event (self : CortexShadeSystem) (score : Z)
    (data : pybytes) (w : World) :
  (0 < score)%Z ->
  open_error (sl_logfile (logger self)) w = None ->
  Utf8.encode
    (json_dumps None
       (JDict (camera_event self score w
               ++ [(py "logged_at",
                    JStr (strftime (clock w (S (S (ticks w))))))])))
    = Some data ->
  exists (w' : World) (text : pystr),
    run_camera self score w = (Ok tt, w')
    /\ heap w' =
       heap w ++ [camera_event self score w
                  ++ [(py "logged_at",
                       JStr (strftime (clock w (S (S (ticks w))))))]]
    /\ video (store w') = video (store w) ++ [length (heap w)]
    /\ audio (store w') = audio (store w)
    /\ lock_held w' = false
    /\ files w' =
       <[sl_logfile (logger self) :=
           default [] (files w !! sl_logfile (logger self))
           ++ fernet_encrypt (cu_key (sl_crypto (logger self)))
                (map (fun i => entropy w (drawn w + i)%nat mod 256) (seq 0 16))
                (clock w (S (S (S (ticks w))))) data
           ++ [10]]> (files w)
    /\ stdout w' =
       stdout w ++ [LLogged (JStr (strftime (clock w (S (S (ticks w))))));
                    LSync (camera_event self score w
                           ++ [(py "logged_at",
                                JStr (strftime (clock w (S (S (ticks w))))))])]
    /\ Dict.get (py "data") (camera_event self score w) = Some (JStr text)
    /\ Str.contains (py "secret") text = false
    /\ Dict.get (py "event")
         (camera_event self score w
          ++ [(py "logged_at", JStr (strftime (clock w (S (S (ticks w))))))])
       = None.
Proof.
  intros Hscore Hd Henc. unfold run_camera.
  rewrite (proj2 (Z.ltb_lt 0 score) Hscore). wrun.
  rewrite list_lookup_middle by reflexivity. wrun.
  rewrite get_data_of_event. wrun. rewrite set_data_of_event.
  fold (camera_event self score w).
  rewrite insert_app_r_alt by lia. rewrite Nat.sub_diag.
  change (<[0%nat := camera_event self score w]> [?x])
    with [camera_event self score w].
  match goal with
  | |- context [log_event ?l ?e ?W] =>
    destruct (record_run l Video e (camera_event self score w) data W)
      as (w1 & Hrun & Hheap & Hf & Hstore & Hlock & Hout & _)
  end.
  { cbn [heap set_heap set_ticks]. now apply list_lookup_middle. }
  { apply validate_event. }
  { unfold stamped. cbn [clock ticks set_heap set_ticks].
    unfold camera_event at 1. rewrite set_logged_at_of_event. exact Henc. }
  { rewrite (open_error_ext _ w) by reflexivity. exact Hd. }
  cbv beta iota zeta delta [bind] in Hrun. rewrite Hrun.
  cbn [heap files store stdout clock ticks entropy drawn set_heap set_ticks]
    in Hheap, Hf, Hstore, Hout.
  rewrite insert_app_r_alt, Nat.sub_diag in Hheap by lia.
  unfold stamped in Hheap, Hout.
  cbn [clock ticks set_heap set_ticks] in Hheap, Hout.
  unfold camera_event at 1 in Hheap. unfold camera_event at 1 in Hout.
  rewrite set_logged_at_of_event in Hheap, Hout.
  change (<[0%nat := ?y]> [?x]) with [y] in Hheap.
  fold (camera_event self score w) in Hheap, Hout.
  eexists _, _. split; [reflexivity|].
  rewrite Hheap, Hf, Hstore, Hlock, Hout. cbn [store_append video audio].
  repeat split. apply Redactor.redact_clean.
Qed.

(** X10: an audio round for one of the four reported labels whose log
    line can be written does the same on the audio sequence; the text
    stored under "data" is the redacted one, free of the marker whatever
    the reasons said. *)
Theorem run_audio_records_event (self : CortexShadeSystem)
    (label reasons : pystr) (data : pybytes) (w : World) :
  label ∈ audio_labels ->
  open_error (sl_logfile (logger self)) w = None ->
  Utf8.encode
    (json_dumps None
       (JDict (audio_event self label reasons w
               ++ [(py "logged_at",
                    JStr (strftime (clock w (S (S (ticks w))))))])))
    = Some data ->
  exists (w' : World) (text : pystr),
    run_audio self (Ok (label, reasons)) w = (Ok tt, w')
    /\ heap w' =
       heap w ++ [audio_event self label reasons w
                  ++ [(py "logged_at",
                       JStr (strftime (clock w (S (S (ticks w))))))]]
    /\ audio (store w') = audio (store w) ++ [length (heap w)]
    /\ video (store w') = video (store w)
    /\ lock_held w' = false
    /\ files w' =
       <[sl_logfile (logger self) :=
           default [] (files w !! sl_logfile (logger self))
           ++ fernet_encrypt (cu_key (sl_crypto (logger self)))
                (map (fun i => entropy w (drawn w + i)%nat mod 256) (seq 0 16))
                (clock w (S (S (S (ticks w))))) data
           ++ [10]]> (files w)
    /\ stdout w' =
       stdout w ++ [LLogged (JStr (strftime (clock w (S (S (ticks w))))));
                    LSync (audio_event self label reasons w
                           ++ [(py "logged_at",
                                JStr (strftime (clock w (S (S (ticks w))))))])]
    /\ Dict.get (py "data") (audio_event self label reasons w)
       = Some (JStr text)
    /\ Str.contains (py "secret") text = false.
Proof.
  intros Hlabel Hd Henc. unfold run_audio, try_except.
  rewrite (bool_decide_eq_true_2 _ Hlabel). wrun.
  rewrite list_lookup_middle by reflexivity. wrun.
  rewrite get_data_of_event. wrun. rewrite set_data_of_event.
  fold (audio_event self label reasons w).
  rewrite insert_app_r_alt by lia. rewrite Nat.sub_diag.
  change (<[0%nat := audio_event self label reasons w]> [?x])
    with [audio_event self label reasons w].
  match goal with
  | |- context [log_event ?l ?e ?W] =>
    destruct (record_run l Audio e (audio_event self label reasons w) data W)
      as (w1 & Hrun & Hheap & Hf & Hstore & Hlock & Hout & _)
  end.
  { cbn [heap set_heap set_ticks]. now apply list_lookup_middle. }
  { apply validate_event. }
  { unfold stamped. cbn [clock ticks set_heap set_ticks].
    unfold audio_event at 1. rewrite set_logged_at_of_event. exact Henc. }
  { rewrite (open_error_ext _ w) by reflexivity. exact Hd. }
  cbv beta iota zeta delta [bind] in Hrun. rewrite Hrun.
  cbn [heap files store stdout clock ticks entropy drawn set_heap set_ticks]
    in Hheap, Hf, Hstore, Hout.
  rewrite insert_app_r_alt, Nat.sub_diag in Hheap by lia.
  unfold stamped in Hheap, Hout.
  cbn [clock ticks set_heap set_ticks] in Hheap, Hout.
  unfold audio_event at 1 in Hheap. unfold audio_event at 1 in Hout.
  rewrite set_logged_at_of_event in Hheap, Hout.
  change (<[0%nat := ?y]> [?x]) with [y] in Hheap.
  fold (audio_event self label reasons w) in Hheap, Hout.
  eexists _, _. split; [reflexivity|].
  rewrite Hheap, Hf, Hstore, Hlock, Hout. cbn [store_append video audio].
  repeat split. apply Redactor.redact_clean.
Qed.


(** X12: when the log path is a directory, a camera round with a
    positive score raises [IsADirectoryError] out of [run_camera] (the
    loop of the camera thread ends with it): the event was built and
    stamped, but it is neither synchronised nor stored. *)
Theorem run_camera_log_failure_escapes (self : CortexShadeSystem) (score : Z)
    (data : pybytes) (names : list pystr) (w : World) :
  (0 < score)%Z ->
  dirs w !! sl_logfile (logger self) = Some names ->
  Utf8.encode
    (json_dumps None
       (JDict (camera_event self score w
               ++ [(py "logged_at",
                    JStr (strftime (clock w (S (S (ticks w))))))])))
    = Some data ->
  exists w' : World,
    run_camera self score w
      = (Raise (IsADirectoryError (sl_logfile (logger self))), w')
    /\ store w' = store w /\ stdout w' = stdout w /\ files w' = files w
    /\ heap w' =
       heap w ++ [camera_event self score w
                  ++ [(py "logged_at",
                       JStr (strftime (clock w (S (S (ticks w))))))]].
Proof.
  intros Hscore Hd Henc. unfold run_camera.
  rewrite (proj2 (Z.ltb_lt 0 score) Hscore). wrun.
  rewrite list_lookup_middle by reflexivity. wrun.
  rewrite get_data_of_event. wrun. rewrite set_data_of_event.
  fold (camera_event self score w).
  rewrite insert_app_r_alt by lia. rewrite Nat.sub_diag.
  change (<[0%nat := camera_event self score w]> [?x])
    with [camera_event self score w].
  match goal with
  | |- context [log_event ?l ?e ?W] =>
    destruct (record_blocked l Video e (camera_event self score w) data
                names W)
      as (w1 & Hrun & Hheap & Hf & Hstore & _ & Hout)
  end.
  { cbn [heap set_heap set_ticks]. now apply list_lookup_middle. }
  { apply validate_event. }
  { unfold stamped. cbn [clock ticks set_heap set_ticks].
    unfold camera_event at 1. rewrite set_logged_at_of_event. exact Henc. }
  { exact Hd. }
  cbv beta iota zeta delta [bind] in Hrun. rewrite Hrun.
  cbn [heap files store stdout clock ticks entropy drawn set_heap set_ticks]
    in Hheap, Hf, Hstore, Hout.
  rewrite insert_app_r_alt, Nat.sub_diag in Hheap by lia.
  unfold stamped in Hheap. cbn [clock ticks set_heap set_ticks] in Hheap.
  unfold camera_event at 1 in Hheap.
  rewrite set_logged_at_of_event in Hheap.
  change (<[0%nat := ?y]> [?x]) with [y] in Hheap.
  fold (camera_event self score w) in Hheap.
  eexists. split; [reflexivity|]. now rewrite Hheap, Hf, Hstore, Hout.
Qed.

(** X13: the audio round in the same situation returns normally: the
    failure is printed as an audio error, and the event, built and
    stamped, is not stored. *)
Theorem run_audio_log_failure_is_reported (self : CortexShadeSystem)
    (label reasons : pystr) (data : pybytes) (names : list pystr)
    (w : World) :
  label ∈ audio_labels ->
  dirs w !! sl_logfile (logger self) = Some names ->
  Utf8.encode
    (json_dumps None
       (JDict (audio_event self label reasons w
               ++ [(py "logged_at",
                    JStr (strftime (clock w (S (S (ticks w))))))])))
    = Some data ->
  exists w' : World,
    run_audio self (Ok (label, reasons)) w = (Ok tt, w')
    /\ store w' = store w /\ files w' = files w
    /\ stdout w' =
       stdout w ++ [LAudioError (IsADirectoryError (sl_logfile (logger self)))]
    /\ heap w' =
       heap w ++ [audio_event self label reasons w
                  ++ [(py "logged_at",
                       JStr (strftime (clock w (S (S (ticks w))))))]].
Proof.
  intros Hlabel Hd Henc. unfold run_audio, try_except.
  rewrite (bool_decide_eq_true_2 _ Hlabel). wrun.
  rewrite list_lookup_middle by reflexivity. wrun.
  rewrite get_data_of_event. wrun. rewrite set_data_of_event.
  fold (audio_event self label reasons w).
  rewrite insert_app_r_alt by lia. rewrite Nat.sub_diag.
  change (<[0%nat := audio_event self label reasons w]> [?x])
    with [audio_event self label reasons w].
  match goal with
  | |- context [log_event ?l ?e ?W] =>
    destruct (record_blocked l Audio e (audio_event self label reasons w)
                data names W)
      as (w1 & Hrun & Hheap & Hf & Hstore & _ & Hout)
  end.
  { cbn [heap set_heap set_ticks]. now apply list_lookup_middle. }
  { apply validate_event. }
  { unfold stamped. cbn [clock ticks set_heap set_ticks].
    unfold audio_event at 1. rewrite set_logged_at_of_event. exact Henc. }
  { exact Hd. }
  cbv beta iota zeta delta [bind] in Hrun. rewrite Hrun.
  cbn [heap files store stdout clock ticks entropy drawn set_heap set_ticks]
    in Hheap, Hf, Hstore, Hout.
  rewrite insert_app_r_alt, Nat.sub_diag in Hheap by lia.
  unfold stamped in Hheap. cbn [clock ticks set_heap set_ticks] in Hheap.
  unfold audio_event at 1 in Hheap.
  rewrite set_logged_at_of_event in Hheap.
  change (<[0%nat := ?y]> [?x]) with [y] in Hheap.
  fold (audio_event self label reasons w) in Hheap.
  wrun. eexists. split; [reflexivity|]. wrun.
  now rewrite Hheap, Hf, Hstore, Hout.
Qed.

(** *** The persistence tick *)

(** X14: whatever happens in a tick (a snapshot path that is a
    directory, an aggregate without UTF-8 encoding), the store lock is
    free when [encrypt_and_save] is left. *)
Theorem tick_always_releases_lock (self : CortexShadeSystem) (w : World) :
  lock_held (snd (encrypt_and_save self w)) = false.
Proof.
  unfold encrypt_and_save. wrun. rewrite !bool_decide_is_Some.
  destruct (dirs w !! "suspicions.json") as [names|] eqn:Hd1; wrun;
    [reflexivity|].
  change (suspicions_json _) with (suspicions_json w).
  destruct (Utf8.encode (json_dumps (Some 2%nat) (suspicions_json w)))
    as [bs|] eqn:Henc; wrun; [|reflexivity].
  rewrite !bool_decide_is_Some, Hd1. wrun.
  rewrite lookup_insert_eq. wrun.
  rewrite (Utf8.decode_encode _ _ Henc). wrun.
  unfold encrypt. wrun. rewrite Henc. wrun.
  rewrite !bool_decide_is_Some.
  destruct (dirs w !! "suspicions.json.encrypted"); wrun; reflexivity.
Qed.

(** X15: a tick that fails leaves the encrypted snapshot of the previous
    tick as it was and prints nothing.  It fails in one of three ways:
    "suspicions.json" is a directory (no file is touched); the aggregate
    has no UTF-8 encoding (the working file has been truncated and stays
    empty); "suspicions.json.encrypted" is a directory (the working file
    holds the new plaintext). *)
Theorem failed_tick_keeps_snapshot (self : CortexShadeSystem) (e : exn)
    (w : World) :
  fst (encrypt_and_save self w) = Raise e ->
  files (snd (encrypt_and_save self w)) !! "suspicions.json.encrypted"
    = files w !! "suspicions.json.encrypted"
  /\ stdout (snd (encrypt_and_save self w)) = stdout w
  /\ store (snd (encrypt_and_save self w)) = store w
  /\ (e = IsADirectoryError "suspicions.json"
      /\ files (snd (encrypt_and_save self w)) = files w
      \/ e = UnicodeEncodeError
         /\ files (snd (encrypt_and_save self w))
            = <["suspicions.json" := []]> (files w)
      \/ e = IsADirectoryError "suspicions.json.encrypted"
         /\ exists bs : pybytes,
              Utf8.decode bs
                = Some (json_dumps (Some 2%nat) (suspicions_json w))
              /\ files (snd (encrypt_and_save self w))
                 = <["suspicions.json" := bs]> (files w)).
Proof.
  unfold encrypt_and_save. wrun. rewrite !bool_decide_is_Some.
  destruct (dirs w !! "suspicions.json") as [names|] eqn:Hd1; wrun.
  { intros [= <-]. repeat split. now left. }
  change (suspicions_json _) with (suspicions_json w).
  destruct (Utf8.encode (json_dumps (Some 2%nat) (suspicions_json w)))
    as [bs|] eqn:Henc; wrun.
  2: { intros [= <-]. split; [now rewrite lookup_insert_ne|].
       repeat split. right. now left. }
  rewrite !bool_decide_is_Some, Hd1. wrun.
  rewrite lookup_insert_eq. wrun.
  rewrite (Utf8.decode_encode _ _ Henc). wrun.
  unfold encrypt. wrun. rewrite Henc. wrun.
  rewrite !bool_decide_is_Some.
  destruct (dirs w !! "suspicions.json.encrypted"); wrun; [|discriminate].
  intros [= <-]. rewrite insert_insert_eq.
  split; [now rewrite lookup_insert_ne|]. repeat split.
  right. right. split; [reflexivity|]. exists bs.
  split; [now apply Utf8.decode_encode|reflexivity].
Qed.

(** X16: after a successful tick under a key the token library accepts,
    the encrypted snapshot (whatever it held before) is a token that
    [decrypt] opens to the JSON text of the store as it was under the
    lock; the working file "suspicions.json" keeps that text on disk,
    unencrypted. *)
Theorem snapshot_decrypts_to_store_text (self : CortexShadeSystem)
    (bs : pybytes) (w : World) :
  fernet_key_ok (cu_key (crypto self)) = true ->
  dirs w !! "suspicions.json" = None ->
  dirs w !! "suspicions.json.encrypted" = None ->
  Utf8.encode (json_dumps (Some 2%nat) (suspicions_json w)) = Some bs ->
  exists (token : pybytes) (w' : World),
    encrypt_and_save self w = (Ok tt, w')
    /\ files w' !! "suspicions.json.encrypted" = Some token
    /\ files w' !! "suspicions.json" = Some bs
    /\ Utf8.decode bs = Some (json_dumps (Some 2%nat) (suspicions_json w))
    /\ forall w'' : World,
         decrypt (crypto self) token w''
         = (Ok (json_dumps (Some 2%nat) (suspicions_json w)), w'').
Proof.
  intros Hkey Hd1 Hd2 Henc.
  destruct (encrypt_and_save_run self bs w Hd1 Hd2 Henc)
    as (w' & Hrun & Hf & _).
  eexists _, w'. split; [exact Hrun|]. rewrite Hf.
  split; [apply lookup_insert_eq|].
  split; [rewrite lookup_insert_ne by discriminate; apply lookup_insert_eq|].
  split; [now apply Utf8.decode_encode|].
  intros w''. apply decrypt_run with (data := bs).
  - now apply fernet_roundtrip.
  - now apply Utf8.decode_encode.
Qed.


(** *** The audit *)





(** A program that leaves every file as it is. *)
Definition keeps_files {A} (m : M A) : Prop :=
  forall w : World, files (snd (m w)) = files w.

Lemma keeps_files_ret {A} (a : A) : keeps_files (ret a).
Proof. intros w. reflexivity. Qed.

Lemma keeps_files_raise {A} (e : exn) : keeps_files (@raise A e).
Proof. intros w. reflexivity. Qed.

Lemma keeps_files_lift {A} (e : exn) (o : option A) : keeps_files (lift e o).
Proof. now destruct o. Qed.

Lemma files_bind {A B} (m : M A) (k : A -> M B) (w : World) :
  (forall a, keeps_files (k a)) ->
  files (snd (bind m k w)) = files (snd (m w)).
Proof.
  intros Hk. unfold bind. destruct (m w) as [[a|e] w1]; [|reflexivity].
  apply Hk.
Qed.

Lemma files_try_except {A} (m : M A) (h : exn -> M A) (w : World) :
  (forall e, keeps_files (h e)) ->
  files (snd (try_except m h w)) = files (snd (m w)).
Proof.
  intros Hh. unfold try_except. destruct (m w) as [[a|e] w1]; [reflexivity|].
  apply Hh.
Qed.

Lemma keeps_files_bind {A B} (m : M A) (k : A -> M B) :
  keeps_files m -> (forall a, keeps_files (k a)) -> keeps_files (bind m k).
Proof. intros Hm Hk w. now rewrite files_bind, Hm. Qed.

Lemma keeps_files_print (l : line) : keeps_files (print l).
Proof. intros w. unfold print. now destruct (printable l). Qed.

Lemma keeps_files_listdir (p : string) : keeps_files (listdir p).
Proof.
  intros w. unfold listdir.
  destruct (dirs w !! p); [reflexivity|]. now destruct (bool_decide _).
Qed.

Lemma keeps_files_read_file (p : string) : keeps_files (read_file p).
Proof.
  intros w. unfold read_file.
  destruct (files w !! p); [reflexivity|]. now destruct (bool_decide _).
Qed.

Lemma keeps_files_for_each {A} (xs : list A) (body : A -> M unit) :
  (forall x, keeps_files (body x)) -> keeps_files (for_each xs body).
Proof.
  intros Hb. induction xs as [|x r IH]; cbn [for_each].
  - apply keeps_files_ret.
  - apply keeps_files_bind; [apply Hb|]. intros _. exact IH.
Qed.

Lemma keeps_files_py_get (data : json) (k : pystr) (dflt : json) :
  keeps_files (py_get data k dflt).
Proof.
  destruct data; first [apply keeps_files_ret | apply keeps_files_raise].
Qed.

Lemma keeps_files_py_len (v : json) : keeps_files (py_len v).
Proof.
  destruct v; first [apply keeps_files_ret | apply keeps_files_raise].
Qed.

Lemma keeps_files_py_iter (v : json) : keeps_files (py_iter v).
Proof.
  destruct v; first [apply keeps_files_ret | apply keeps_files_raise].
Qed.

Lemma keeps_files_select (reason : json) (names : list pystr) :
  keeps_files (select reason names).
Proof.
  induction names as [|f r IH]; cbn [select].
  - apply keeps_files_ret.
  - apply keeps_files_bind.
    + unfold matches.
      destruct reason; first [apply keeps_files_ret | apply keeps_files_raise].
    + intros keep. apply keeps_files_bind; [exact IH|].
      intros rest. apply keeps_files_ret.
Qed.

Lemma keeps_files_init (k : pybytes) : keeps_files (CryptoUtils_init (Some k)).
Proof.
  intros w. unfold CryptoUtils_init. destruct k as [|b r]; wrun.
  - now destruct (fernet_key_ok _).
  - now destruct (fernet_key_ok (b :: r)).
Qed.

Lemma keeps_files_decrypt (self : CryptoUtils) (token : pybytes) :
  keeps_files (decrypt self token).
Proof.
  unfold decrypt. apply keeps_files_bind; [apply keeps_files_lift|].
  intros data. apply keeps_files_lift.
Qed.

Lemma keeps_files_scores (data : json) : keeps_files (calculate_scores data).
Proof.
  unfold calculate_scores.
  apply keeps_files_bind; [intros w; reflexivity|]. intros present.
  apply keeps_files_bind.
  { destruct present; [|apply keeps_files_ret].
    apply keeps_files_bind; [apply keeps_files_listdir|].
    intros names. apply keeps_files_ret. }
  intros video_score.
  apply keeps_files_bind; [apply keeps_files_py_get|]. intros entries.
  apply keeps_files_bind; [apply keeps_files_py_len|]. intros audio_score.
  repeat (apply keeps_files_bind; [apply keeps_files_print|]; intros _).
  apply keeps_files_ret.
Qed.

Lemma keeps_files_display (data : json) (video_score : nat) :
  keeps_files (display_screenshots data video_score).
Proof.
  unfold display_screenshots.
  apply keeps_files_bind; [apply keeps_files_print|]. intros _.
  destruct (0 <? video_score)%nat; [|apply keeps_files_print].
  apply keeps_files_bind; [apply keeps_files_py_get|]. intros vids.
  apply keeps_files_bind; [apply keeps_files_py_iter|]. intros events.
  apply keeps_files_for_each. intros event.
  apply keeps_files_bind; [apply keeps_files_py_get|]. intros reason.
  apply keeps_files_bind; [apply keeps_files_py_get|]. intros timestamp.
  apply keeps_files_bind; [apply keeps_files_listdir|]. intros names.
  apply keeps_files_bind; [apply keeps_files_select|]. intros shots.
  apply keeps_files_for_each. intros file w. now destruct (imread w file).
Qed.

(** X19: the audit writes at most one file, and only when there is
    neither a file nor a directory at "salt.bin": it then creates the
    salt file from 16 fresh octets (so the key it derives cannot be the
    one the session used).  In every other case all files are left as
    they were. *)
Theorem audit_writes_at_most_the_salt (password : pystr)
    (encrypted_file : string) (w : World) :
  files (snd (decrypt_suspicions password encrypted_file w))
  = match files w !! "salt.bin", dirs w !! "salt.bin" with
    | None, None =>
      <["salt.bin" :=
          map (fun i => entropy w (drawn w + i)%nat mod 256) (seq 0 16)]>
        (files w)
    | _, _ => files w
    end.
Proof.
  unfold decrypt_suspicions.
  rewrite files_try_except
    by (intros e; destruct e; apply keeps_files_print).
  rewrite files_bind.
  - destruct (files w !! "salt.bin") as [salt|] eqn:Hf.
    { now rewrite (KeyManager.derive_existing_salt _ _ _ _ Hf). }
    destruct (dirs w !! "salt.bin") as [names|] eqn:Hd.
    { now rewrite (KeyManager.derive_salt_is_directory _ _ _ _ Hf Hd). }
    now rewrite (KeyManager.derive_fresh_salt _ _ _ Hf Hd).
  - intros k.
    apply keeps_files_bind; [apply keeps_files_init|]. intros c.
    apply keeps_files_bind; [apply keeps_files_read_file|]. intros enc.
    apply keeps_files_bind; [apply keeps_files_decrypt|]. intros text.
    apply keeps_files_bind; [apply keeps_files_lift|]. intros data.
    apply keeps_files_bind; [apply keeps_files_print|]. intros _.
    apply keeps_files_bind; [apply keeps_files_print|]. intros _.
    apply keeps_files_bind; [apply keeps_files_scores|]. intros v.
    apply keeps_files_display.
Qed.

(** An aggregate without "audio" entry, audited where there is no
    screenshots directory, scores zero three times. *)
Lemma scores_default_to_zero (d : pydict) (w : World) :
  Dict.get (py "audio") d = None ->
  dirs w !! "screenshots" = None ->
  files w !! "screenshots" = None ->
  exists w' : World,
    calculate_scores (JDict d) w = (Ok 0%nat, w')
    /\ stdout w' = stdout w ++ [LScoresHeader; LVideoScore 0; LAudioScore 0;
                                LNetScore 0].
Proof.
  intros Haudio Hdir Hfile.
  destruct (calculate_scores_run d [] w) as (w' & Hrun & Hout & _).
  { now rewrite Haudio. }
  { exact Hfile. }
  unfold jpg_count in Hrun, Hout. rewrite Hdir in Hrun, Hout.
  exists w'. split; [exact Hrun|exact Hout].
Qed.

(** No name is selected for a reason that occurs in none of them. *)
Lemma select_none (r : pystr) (names : list pystr) (w : World) :
  Forall (fun f => Str.contains r f = false) names ->
  select (JStr r) names w = (Ok [], w).
Proof.
  induction 1 as [|f rest Hf _ IH]; [reflexivity|].
  cbn [select]. unfold matches. wrun. rewrite IH. now rewrite Hf.
Qed.

(** The replay of one video event, as in the loop of
    [display_screenshots]. *)
Definition replay_event (event : json) : M unit :=
  let* reason := py_get event (py "event") (JStr (py "unknown")) in
  let* timestamp := py_get event (py "timestamp") (JStr (py "unknown")) in
  let* names := listdir "screenshots" in
  let* screenshots := select reason names in
  for_each screenshots (fun file =>
    fun w =>
      if imread w file
      then (Ok tt, set_windows (windows w ++ [(reason, timestamp, file)]) w)
      else (Ok tt, w)).

Lemma replay_events_without_key (events : list json) (names : list pystr)
    (w : World) :
  Forall (fun ev => exists e : pydict,
            ev = JDict e /\ Dict.get (py "event") e = None) events ->
  dirs w !! "screenshots" = Some names ->
  Forall (fun f => Str.contains (py "unknown") f = false) names ->
  exists w' : World,
    for_each events replay_event w = (Ok tt, w')
    /\ windows w' = windows w /\ stdout w' = stdout w /\ dirs w' = dirs w.
Proof.
  intros Hev Hdir Hnames. revert w Hdir.
  induction Hev as [|ev rest (e & -> & He) _ IH]; intros w Hdir.
  - exists w. now repeat split.
  - cbn [for_each]. unfold replay_event at 1, py_get. rewrite He. wrun.
    rewrite Hdir. wrun. cbn [default]. rewrite select_none by exact Hnames.
    wrun. cbn [for_each]. wrun.
    destruct (IH (log_io (IoListdir "screenshots") w) Hdir)
      as (w' & Hrun & Hw & Hout & Hd).
    exists w'. now rewrite Hrun.
Qed.

(** X20: the replay looks for screenshots whose name contains the value
    under the key "event" of a video event, "unknown" when there is no
    such key.  For video events without that key (the events
    [run_camera] stores carry "id", "timestamp", "data" and "logged_at"
    only) and a directory in which no name contains "unknown", the replay
    opens no window, however many screenshots were counted. *)
Theorem replay_needs_event_key (d : pydict) (events : list json)
    (names : list pystr) (video_score : nat) (w : World) :
  (0 < video_score)%nat ->
  Dict.get (py "video") d = Some (JList events) ->
  Forall (fun ev => exists e : pydict,
            ev = JDict e /\ Dict.get (py "event") e = None) events ->
  dirs w !! "screenshots" = Some names ->
  Forall (fun f => Str.contains (py "unknown") f = false) names ->
  exists w' : World,
    display_screenshots (JDict d) video_score w = (Ok tt, w')
    /\ windows w' = windows w
    /\ stdout w' = stdout w ++ [LDisplayHeader].
Proof.
  intros Hv Hvideo Hev Hdir Hnames. unfold display_screenshots.
  rewrite (proj2 (Nat.ltb_lt 0 video_score) Hv).
  unfold bind at 1, print at 1, bind at 1, py_get at 1. rewrite Hvideo.
  cbn [default ret]. unfold bind at 1, py_iter, ret at 1.
  destruct (replay_events_without_key events names
              (set_stdout (stdout w ++ [LDisplayHeader]) (log_io IoPrint w))
              Hev Hdir Hnames) as (w' & Hrun & Hw & Hout & _).
  exists w'. split; [exact Hrun|]. now rewrite Hw, Hout.
Qed.


(** *** [neurosentinel_camera.py]: the score database *)

(** [update_database(student_id, cheating_score)]: the JSON object of
    "cheating_scores.json" (an empty one when there is no such path)
    gets the score under the student's id and is written back. *)
Definition update_database (sid : pystr) (cheating_score : Z) : M unit :=
  let* present := path_exists "cheating_scores.json" in
  let* data :=
    if present then
      let* bs := read_file "cheating_scores.json" in
      let* text := lift UnicodeDecodeError (Utf8.decode bs) in
      lift JSONDecodeError (json_loads text)
    else ret (JDict []) in
  let* data :=
    match data with
    | JDict d => ret (JDict (Dict.set sid (JInt cheating_score) d))
    | _ => raise TypeError
    end in
  write_text "cheating_scores.json" (json_dumps (Some 2%nat) data).

(** The scores on record: the object the database file holds, the
    empty object when there is no file. *)
Definition scores_on_record (w : World) (d : pydict) : Prop :=
  dirs w !! "cheating_scores.json" = None
  /\ match files w !! "cheating_scores.json" with
     | None => d = []
     | Some bs =>
       exists text, Utf8.decode bs = Some text
                    /\ json_loads text = Some (JDict d)
     end.

Lemma update_database_run (sid : pystr) (score : Z) (d : pydict)
    (out : pybytes) (w : World) :
  scores_on_record w d ->
  Utf8.encode (json_dumps (Some 2%nat)
                 (JDict (Dict.set sid (JInt score) d))) = Some out ->
  exists w' : World,
    update_database sid score w = (Ok tt, w')
    /\ files w' = <["cheating_scores.json" := out]> (files w)
    /\ stdout w' = stdout w /\ store w' = store w.
Proof.
  intros [Hd Hf] Henc. unfold update_database. wrun.
  rewrite !bool_decide_is_Some, Hd.
  destruct (files w !! "cheating_scores.json") as [bs|] eqn:Hfile; wrun.
  - destruct Hf as (text & Htext & Hjson).
    rewrite Hfile. wrun. rewrite Htext. wrun. rewrite Hjson. wrun.
    rewrite !bool_decide_is_Some, Hd. wrun. rewrite Henc. wrun.
    rewrite !bool_decide_is_Some, Hd. wrun.
    eexists. split; [reflexivity|]. wrun. rewrite insert_insert_eq.
    repeat split.
  - subst d. rewrite !bool_decide_is_Some, Hd. wrun. rewrite Henc. wrun.
    rewrite !bool_decide_is_Some, Hd. wrun.
    eexists. split; [reflexivity|]. wrun. rewrite insert_insert_eq.
    repeat split.
Qed.

(** X21: [update_database] replaces the database file by the text of
    the object it held with the student's entry set to the new score: the
    student's previous score is overwritten, not added to, and the
    entries of all other students are kept. *)
Theorem update_database_sets_score (sid : pystr) (score : Z) (d : pydict)
    (out : pybytes) (w : World) :
  scores_on_record w d ->
  Utf8.encode (json_dumps (Some 2%nat)
                 (JDict (Dict.set sid (JInt score) d))) = Some out ->
  exists w' : World,
    update_database sid score w = (Ok tt, w')
    /\ files w' = <["cheating_scores.json" := out]> (files w)
    /\ Utf8.decode out
       = Some (json_dumps (Some 2%nat) (JDict (Dict.set sid (JInt score) d)))
    /\ Dict.get sid (Dict.set sid (JInt score) d) = Some (JInt score)
    /\ (forall other : pystr,
          other <> sid ->
          Dict.get other (Dict.set sid (JInt score) d) = Dict.get other d)
    /\ stdout w' = stdout w.
Proof.
  intros Hdb Henc.
  destruct (update_database_run sid score d out w Hdb Henc)
    as (w' & Hrun & Hf & Ho & _).
  exists w'. split; [exact Hrun|]. split; [exact Hf|].
  split; [now apply Utf8.decode_encode|].
  split; [apply Dict.get_set_eq|].
  split; [intros other Hne; now apply Dict.get_set_ne|exact Ho].
Qed.

(** A database file that does not hold a JSON object makes
    [update_database] raise before anything is written. *)
Lemma update_database_keeps_damaged_file (sid : pystr) (score : Z)
    (bs : pybytes) (text : pystr) (w : World) :
  files w !! "cheating_scores.json" = Some bs ->
  Utf8.decode bs = Some text ->
  (forall d : pydict, json_loads text <> Some (JDict d)) ->
  exists e : exn,
    update_database sid score w
      = (Raise e, log_io (IoRead "cheating_scores.json") w)
    /\ (e = JSONDecodeError /\ json_loads text = None
        \/ e = TypeError /\ is_Some (json_loads text)).
Proof.
  intros Hfile Htext Hjson. unfold update_database. wrun.
  rewrite !bool_decide_is_Some, Hfile. wrun. rewrite Hfile. wrun.
  rewrite Htext. wrun.
  destruct (json_loads text) as [v|] eqn:Hv; wrun.
  - exists TypeError. split; [|right; eauto].
    destruct v; try reflexivity. now destruct (Hjson d).
  - exists JSONDecodeError. split; [reflexivity|now left].
Qed.


(** *** [neurosentinel_camera.py]: a call of [run] *)

(** [CameraDetector.run(student_id)] over the frames the camera delivers
    during the call.  The [finally] block releases the capture if it is
    open, records the score and reports it; an exception of the database
    update replaces whatever the loop ended with.  The result gives the
    detector as the call leaves it, what it asked of its environment,
    and how it ended. *)
Definition camera_run (d : Camera.Detector) (frames : list Camera.Frame)
    (sid : pystr)
  : M (Camera.Detector * list Camera.effect * Camera.run_outcome) :=
  let '(d1, fx, failed) := Camera.camera_loop d frames in
  let d2 := Camera.mkDetector (Camera.cheating_score d1) (Camera.away_start d1)
              (Camera.active d1) (Camera.finger_alert_active d1) false in
  let fx2 := Camera.NamedWindow :: fx
             ++ (if Camera.cap_open d1 then [Camera.Release] else [])
             ++ [Camera.DestroyAllWindows; Camera.PrintReleased] in
  try_except
    (update_database sid (Camera.cheating_score d2) ;;
     ret (d2, fx2 ++ [Camera.PrintFinal sid (Camera.cheating_score d2)],
          if failed then Camera.LoopFailed
          else Camera.Returned (Camera.cheating_score d2)))
    (fun e => ret (d2, fx2, Camera.DatabaseFailed e)).

(** X29: however a call of [run] ends, it leaves the capture released,
    and the score of the detector has grown by the number of screenshots
    the call asked for; a score it returns is the score of the
    detector. *)
Theorem camera_run_releases_capture (d : Camera.Detector)
    (frames : list Camera.Frame) (sid : pystr) (w : World) :
  exists (d' : Camera.Detector) (fx : list Camera.effect)
         (o : Camera.run_outcome) (w' : World),
    camera_run d frames sid w = (Ok (d', fx, o), w')
    /\ Camera.cap_open d' = false
    /\ Camera.cheating_score d'
       = (Camera.cheating_score d
          + Z.of_nat (length (Camera.shots fx)))%Z
    /\ forall score : Z,
         o = Camera.Returned score -> score = Camera.cheating_score d'.
Proof.
  unfold camera_run.
  destruct (Camera.camera_loop_accounted d frames) as (Hscore & _ & _).
  destruct (Camera.camera_loop d frames) as [[d1 fx] failed].
  cbn [fst snd] in Hscore. cbv zeta. unfold try_except, bind at 1.
  destruct (update_database sid _ w) as [[[]|e] w1].
  - eexists _, _, _, _. split; [reflexivity|]. split; [reflexivity|].
    cbn [Camera.cheating_score]. split.
    + change (Camera.NamedWindow :: ?l) with ([Camera.NamedWindow] ++ l).
      rewrite !Camera.shots_app.
      destruct (Camera.cap_open d1); cbn [Camera.shots flat_map app];
        rewrite ?app_nil_r; exact Hscore.
    + intros score. destruct failed; [discriminate|]. now intros [= <-].
  - eexists _, _, _, _. split; [reflexivity|]. split; [reflexivity|].
    cbn [Camera.cheating_score]. split; [|discriminate].
    change (Camera.NamedWindow :: ?l) with ([Camera.NamedWindow] ++ l).
    rewrite !Camera.shots_app.
    destruct (Camera.cap_open d1); cbn [Camera.shots flat_map app];
      rewrite ?app_nil_r; exact Hscore.
Qed.

(** X30: once the capture is released (as every call leaves it) a
    further call of [run] reads no frame: it leaves the detector as it
    is, rewrites the database entry and returns the score reached
    before.  The camera loop of [main.py] calls [run] again and again
    while the system runs, and treats every positive score returned as a
    new suspicion. *)
Theorem camera_run_after_release (d : Camera.Detector)
    (frames : list Camera.Frame) (sid : pystr) (scores : pydict)
    (out : pybytes) (w : World) :
  Camera.cap_open d = false ->
  scores_on_record w scores ->
  Utf8.encode (json_dumps (Some 2%nat)
                 (JDict (Dict.set sid (JInt (Camera.cheating_score d)) scores)))
    = Some out ->
  exists w' : World,
    camera_run d frames sid w
    = (Ok (d, [Camera.NamedWindow; Camera.DestroyAllWindows;
               Camera.PrintReleased;
               Camera.PrintFinal sid (Camera.cheating_score d)],
           Camera.Returned (Camera.cheating_score d)), w')
    /\ files w' = <["cheating_scores.json" := out]> (files w)
    /\ stdout w' = stdout w /\ store w' = store w.
Proof.
  intros Hcap Hdb Henc. unfold camera_run.
  assert (Camera.camera_loop d frames = (d, [], false)) as ->
    by (destruct frames; cbn [Camera.camera_loop]; now rewrite Hcap).
  cbv zeta. rewrite Hcap. cbn [app].
  destruct (update_database_run sid (Camera.cheating_score d) scores out w
              Hdb Henc) as (w' & Hrun & Hf & Ho & Hs).
  exists w'. unfold try_except, bind at 1.
  cbn [Camera.cheating_score]. rewrite Hrun.
  destruct d as [score since act alert cap]. cbn in Hcap. subst cap.
  cbn [Camera.cheating_score Camera.away_start Camera.active
       Camera.finger_alert_active ret]. auto.
Qed.

End Pipeline.

(** ** [neurosentinel_audio.py]: the classifier behind [run_audio] *)

Module Audio.

Local Open Scope float_scope.

(** The decimal constants below denote the nearest binary64 values, as
    they do in Python. *)
Set Warnings "-inexact-float".

(** The thresholds, with the values of the [defaults] dictionary. *)
Definition default (key : string) : float :=
  if decide (key = "silence_rms") then 0.003
  else if decide (key = "whisper_rms") then 0.01
  else if decide (key = "normal_rms") then 0.02
  else if decide (key = "tap_onset_rate") then 6.0
  else if decide (key = "tap_zcr") then 0.18
  else if decide (key = "tap_max_rms") then 0.03
  else 1500.0.

(** [defaults.update(thresholds)], then [t[key]]: an entry of
    [thresholds] replaces the default. *)
Definition threshold (thresholds : gmap string float) (key : string) : float :=
  match thresholds !! key with
  | Some v => v
  | None => default key
  end.

(** The four features the classifier reads. *)
Record Features : Type := mkFeatures {
  mean_rms : float;
  mean_zcr : float;
  onset_rate : float;
  mean_centroid : float }.

(** The messages collected in [reason], with the values they display. *)
Inductive reason : Type :=
| BelowSilence (mr t : float)
| Tapping (orate t_rate mz t_zcr mr t_max : float)
| BelowWhisper (mr t : float)
| HighCentroid (cent t : float)
| AtLeastNormal (mr t : float)
| Between (mr : float).

Definition classify_audio (features : Features)
    (thresholds : gmap string float) : pystr * list reason :=
  let t := threshold thresholds in
  let mr := mean_rms features in
  let mz := mean_zcr features in
  let orate := onset_rate features in
  let cent := mean_centroid features in
  if mr <? t "silence_rms" then
    (py "silence", [BelowSilence mr (t "silence_rms")])
  else if (t "tap_onset_rate" <=? orate) && (t "tap_zcr" <=? mz)
          && (mr <? t "tap_max_rms") then
    (py "tapping",
     [Tapping orate (t "tap_onset_rate") mz (t "tap_zcr") mr (t "tap_max_rms")])
  else if mr <? t "whisper_rms" then
    (py "whisper",
     BelowWhisper mr (t "whisper_rms")
     :: if t "centroid_high" <? cent
        then [HighCentroid cent (t "centroid_high")] else [])
  else if t "normal_rms" <=? mr then
    (py "normal_talk", [AtLeastNormal mr (t "normal_rms")])
  else (py "background_talk", [Between mr]).

(** A value that differs from itself is not a number, and compares
    false with everything. *)
Lemma nan_compares_false (x y : float) :
  (x =? x) = false -> (x <? y) = false /\ (y <=? x) = false.
Proof.
  rewrite FloatAxioms.eqb_spec, FloatAxioms.ltb_spec, FloatAxioms.leb_spec.
  unfold SFeqb, SFltb, SFleb.
  destruct (Prim2SF x) as [s| s| |s m e].
  - discriminate.
  - now destruct s.
  - intros _. split; [reflexivity|]. now destruct (Prim2SF y).
  - cbn [SFcompare]. rewrite Z.compare_refl, Pos.compare_cont_refl.
    now destruct s.
Qed.

(** A mean RMS that is not a number passes every threshold test as
    false. *)
Lemma classify_audio_nan (features : Features)
    (thresholds : gmap string float) :
  (mean_rms features =? mean_rms features) = false ->
  classify_audio features thresholds
  = (py "background_talk", [Between (mean_rms features)])
  /\ py "background_talk" ∈ audio_labels.
Proof.
  intros Hnan. unfold classify_audio. cbv zeta.
  destruct (nan_compares_false _ (threshold thresholds "silence_rms") Hnan)
    as [-> _].
  destruct (nan_compares_false _ (threshold thresholds "tap_max_rms") Hnan)
    as [-> _].
  destruct (nan_compares_false _ (threshold thresholds "whisper_rms") Hnan)
    as [-> _].
  destruct (nan_compares_false _ (threshold thresholds "normal_rms") Hnan)
    as [_ ->].
  rewrite andb_false_r. split; [reflexivity|].
  unfold audio_labels. right. left.
Qed.

Lemma classify_audio_cases (features : Features)
    (thresholds : gmap string float) :
  fst (classify_audio features thresholds)
    ∈ [py "silence"; py "tapping"; py "whisper"; py "normal_talk";
       py "background_talk"]
  /\ fst (classify_audio features thresholds) <> py "unknown"
  /\ snd (classify_audio features thresholds) <> []
  /\ (fst (classify_audio features thresholds) ∈ audio_labels
      <-> (mean_rms features <? threshold thresholds "silence_rms") = false).
Proof.
  unfold classify_audio. cbv zeta.
  destruct (mean_rms features <? threshold thresholds "silence_rms").
  { cbn [fst snd]. split; [left|]. split; [discriminate|].
    split; [discriminate|]. split; [|discriminate].
    unfold audio_labels. rewrite !elem_of_cons, elem_of_nil.
    intuition discriminate. }
  destruct ((threshold thresholds "tap_onset_rate" <=? onset_rate features)
            && (threshold thresholds "tap_zcr" <=? mean_zcr features)
            && (mean_rms features <? threshold thresholds "tap_max_rms")).
  { cbn [fst snd]. split; [right; left|]. split; [discriminate|].
    split; [discriminate|]. split; [reflexivity|].
    intros _. unfold audio_labels. do 2 right. left. }
  destruct (mean_rms features <? threshold thresholds "whisper_rms").
  { cbn [fst snd]. split; [do 2 right; left|]. split; [discriminate|].
    split; [discriminate|]. split; [reflexivity|].
    intros _. unfold audio_labels. left. }
  destruct (threshold thresholds "normal_rms" <=? mean_rms features).
  { cbn [fst snd]. split; [do 3 right; left|]. split; [discriminate|].
    split; [discriminate|]. split; [reflexivity|].
    intros _. unfold audio_labels. do 3 right. left. }
  cbn [fst snd]. split; [do 4 right; left|]. split; [discriminate|].
  split; [discriminate|]. split; [reflexivity|].
  intros _. unfold audio_labels. right. left.
Qed.

(** X23: the classifier returns one of five labels, never the "unknown"
    its documentation lists, and always with a reason; the label is one
    of the four that [run_audio] turns into an event exactly when the
    mean RMS is not below the silence threshold, so every recording that
    is not classed as silence is recorded as a suspicion.  That includes
    a mean RMS that is not a number: it is classed as
    "background_talk", whatever the other features and thresholds. *)
Theorem classify_audio_labels (features : Features)
    (thresholds : gmap string float) :
  fst (classify_audio features thresholds)
    ∈ [py "silence"; py "tapping"; py "whisper"; py "normal_talk";
       py "background_talk"]
  /\ fst (classify_audio features thresholds) <> py "unknown"
  /\ snd (classify_audio features thresholds) <> []
  /\ (fst (classify_audio features thresholds) ∈ audio_labels
      <-> (mean_rms features <? threshold thresholds "silence_rms") = false)
  /\ ((mean_rms features =? mean_rms features) = false ->
      classify_audio features thresholds
      = (py "background_talk", [Between (mean_rms features)])).
Proof.
  destruct (classify_audio_cases features thresholds) as (H1 & H2 & H3 & H4).
  repeat (split; [assumption|]).
  intros Hnan. now apply classify_audio_nan.
Qed.

End Audio.

(** ** The screenshots of the camera, as the audit sees them *)

Module CameraAudit.

Definition is_digit (c : N) : Prop := 48 <= c <= 57.

Lemma pretty_N_char_digit (x : N) : is_digit (N_of_ascii (pretty_N_char x)).
Proof.
  unfold pretty_N_char, is_digit.
  repeat case_match; vm_compute; split; discriminate.
Qed.

Lemma pretty_N_go_digits (x : N) (s : string) :
  Forall is_digit (py s) -> Forall is_digit (py (pretty_N_go x s)).
Proof.
  revert s. induction (N.lt_wf_0 x) as [x _ IH]; intros s Hs.
  destruct (N.eq_dec x 0) as [->|Hx]; [now rewrite pretty_N_go_0|].
  rewrite pretty_N_go_step by lia.
  apply IH; [apply N.div_lt; lia|].
  constructor; [apply pretty_N_char_digit|exact Hs].
Qed.

Lemma decimal_digits (t : N) : Forall is_digit (py (pretty (Z.of_N t))).
Proof.
  unfold decimal. destruct t as [|p]; cbn [Z.of_N].
  - repeat constructor; discriminate.
  - change (pretty (Z.pos p)) with (pretty (N.pos p)).
    unfold pretty, pretty_N. rewrite decide_False by discriminate.
    apply pretty_N_go_digits. constructor.
Qed.

(** A substring brings all its characters along. *)
Lemma contains_elem (sub s : pystr) (c : N) :
  Str.contains sub s = true -> c ∈ sub -> c ∈ s.
Proof.
  intros H Hc. apply Str.contains_spec in H as [i H].
  apply Str.startswith_spec in H as [r H].
  rewrite <- (take_drop i s), H, !elem_of_app. auto.
Qed.

(** X26: a screenshot the camera saves for one of its six reasons is
    named so that the audit counts it (the name ends in ".jpg") and so
    that it contains its reason; it never contains "unknown", the text
    the replay searches for when a video event has no "event" key. *)
Theorem camera_screenshots_counted_not_replayed (reason : pystr) (t : N) :
  reason ∈ Camera.reasons ->
  is_jpg (Camera.screenshot_entry reason t) = true
  /\ Str.contains reason (Camera.screenshot_entry reason t) = true
  /\ Str.contains (py "unknown") (Camera.screenshot_entry reason t) = false.
Proof.
  intros Hr. unfold Camera.screenshot_entry. split; [|split].
  - apply is_jpg_spec. exists (reason ++ py "_" ++ py (pretty (Z.of_N t))).
    now rewrite <- !app_assoc.
  - apply Str.contains_spec. exists 0%nat. cbn [drop].
    apply Str.startswith_spec. eauto.
  - apply not_true_iff_false. intros H.
    apply (contains_elem _ _ 107) in H; [|do 2 right; left].
    rewrite !elem_of_app in H. destruct H as [H|[H|[H|H]]].
    + unfold Camera.reasons in Hr. rewrite !elem_of_cons, elem_of_nil in Hr.
      destruct Hr as [->|[->|[->|[->|[->|[->|[]]]]]]]; revert H;
        cbv [py map list_ascii_of_string N_of_ascii N_of_digits];
        rewrite !elem_of_cons, elem_of_nil; intuition discriminate.
    + revert H. cbv [py map list_ascii_of_string N_of_ascii N_of_digits].
      rewrite !elem_of_cons, elem_of_nil. intuition discriminate.
    + pose proof (decimal_digits t) as Hd.
      rewrite Forall_forall in Hd. specialize (Hd _ H).
      unfold is_digit in Hd. lia.
    + revert H. cbv [py map list_ascii_of_string N_of_ascii N_of_digits].
      rewrite !elem_of_cons, elem_of_nil. intuition discriminate.
Qed.

End CameraAudit.

(** ** Producers and the persistence tick running concurrently

    The activities meet at the store only.  Each is the sequence of its
    store operations: a producer runs [with self.lock:
    self.suspicions[c].append(event)] once per event, the persistence
    activity runs [with self.lock: json.dump(self.suspicions, ...)] once
    per tick.  A schedule picks the activity that performs its next
    operation; acquiring waits for the lock to be free. *)

Module Interleaving.

Inductive instr : Type :=
| Acquire
| Append (c : category) (event : nat)
| Snapshot
| Release.

Definition producer_program (c : category) (events : list nat) : list instr :=
  flat_map (fun e => [Acquire; Append c e; Release]) events.

Definition tick_program (k : nat) : list instr :=
  concat (repeat [Acquire; Snapshot; Release] k).

(** The lock with its holder, the store, what each activity has left to
    do, and the snapshots taken so far, each with a flag telling whether
    another activity was inside its critical section at that moment. *)
Record cstate : Type := mkC {
  owner : option nat;
  shared : Store;
  pcs : list (list instr);
  seen : list (Store * bool) }.

(** The next operation lies between an acquire and its release. *)
Definition inside (p : list instr) : bool :=
  match p with
  | Append _ _ :: _ | Snapshot :: _ | Release :: _ => true
  | _ => false
  end.

Fixpoint others_inside (j i : nat) (ps : list (list instr)) : bool :=
  match ps with
  | [] => false
  | p :: r => (negb (j =? i)%nat && inside p) || others_inside (S j) i r
  end.

(** Activity [i] performs its next operation; [None] when it has
    finished or waits for the lock. *)
Definition exec (i : nat) (s : cstate) : option cstate :=
  match pcs s !! i with
  | Some (Acquire :: rest) =>
    match owner s with
    | None => Some (mkC (Some i) (shared s) (<[i := rest]> (pcs s)) (seen s))
    | Some _ => None
    end
  | Some (Append c e :: rest) =>
    Some (mkC (owner s) (store_append c e (shared s))
              (<[i := rest]> (pcs s)) (seen s))
  | Some (Snapshot :: rest) =>
    Some (mkC (owner s) (shared s) (<[i := rest]> (pcs s))
              (seen s ++ [(shared s, others_inside 0 i (pcs s))]))
  | Some (Release :: rest) =>
    Some (mkC None (shared s) (<[i := rest]> (pcs s)) (seen s))
  | _ => None
  end.

Fixpoint run (schedule : list nat) (s : cstate) : option cstate :=
  match schedule with
  | [] => Some s
  | i :: r =>
    match exec i s with
    | Some s' => run r s'
    | None => None
    end
  end.

(** [producers] gives each producer its category and its events; one
    more activity performs [k] ticks.  The store starts empty and the
    lock free. *)
Definition initial (producers : list (category * list nat)) (k : nat)
  : cstate :=
  mkC None (mkStore [] [])
      (map (fun p => producer_program (fst p) (snd p)) producers
       ++ [tick_program k])
      [].

Definition finished (s : cstate) : Prop := Forall (fun p => p = []) (pcs s).


Definition entries (s : Store) : list nat := video s ++ audio s.

(** One critical section of a producer, run without interruption, does
    to the store what [locked_append] does. *)
Lemma critical_section_is_locked_append (i : nat) (c : category) (e : nat)
    (rest : list instr) (s : cstate) (w : World) :
  pcs s !! i = Some (Acquire :: Append c e :: Release :: rest) ->
  owner s = None ->
  shared s = store w ->
  exists s' : cstate,
    run [i; i; i] s = Some s'
    /\ shared s' = store (snd (locked_append c e w))
    /\ owner s' = None
    /\ pcs s' !! i = Some rest.
Proof.
  intros Hi Ho Hs.
  assert (i < length (pcs s))%nat as Hlt by (eapply lookup_lt_Some, Hi).
  cbn [run]. unfold exec at 1. rewrite Hi, Ho.
  unfold exec at 1. cbn [pcs owner shared seen].
  rewrite list_lookup_insert_eq by exact Hlt.
  unfold exec at 1. cbn [pcs owner shared seen].
  rewrite list_lookup_insert_eq by (now rewrite length_insert).
  eexists. split; [reflexivity|]. cbn [pcs owner shared seen].
  rewrite Hs. repeat split.
  apply list_lookup_insert_eq. now rewrite !length_insert.
Qed.

(** *** Bookkeeping *)

(** A program alternates acquire, operations, release; [held] tells
    whether it starts inside a critical section. *)
Fixpoint balanced (held : bool) (p : list instr) : bool :=
  match p with
  | [] => negb held
  | Acquire :: r => negb held && balanced true r
  | Release :: r => held && balanced false r
  | _ :: r => held && balanced held r
  end.

Definition appends (p : list instr) : list nat :=
  flat_map (fun ins => match ins with Append _ e => [e] | _ => [] end) p.

Definition pending (ps : list (list instr)) : list nat :=
  concat (map appends ps).

Abbreviation count := (count_occ Nat.eq_dec) (only parsing).

Lemma balanced_producer (c : category) (events : list nat) :
  balanced false (producer_program c events) = true.
Proof. induction events as [|e r IH]; [reflexivity|exact IH]. Qed.

Lemma balanced_tick (k : nat) : balanced false (tick_program k) = true.
Proof. induction k as [|k IH]; [reflexivity|exact IH]. Qed.

Lemma appends_producer (c : category) (events : list nat) :
  appends (producer_program c events) = events.
Proof.
  induction events as [|e r IH]; [reflexivity|].
  cbn. unfold appends, producer_program in IH. now rewrite IH.
Qed.

Lemma appends_tick (k : nat) : appends (tick_program k) = [].
Proof. induction k as [|k IH]; [reflexivity|exact IH]. Qed.

Lemma pending_initial (producers : list (category * list nat)) (k : nat) :
  pending (pcs (initial producers k)) = concat (map snd producers).
Proof.
  unfold pending, initial. cbn [pcs].
  rewrite map_app, concat_app, map_map. cbn [map concat].
  rewrite appends_tick, !app_nil_r. f_equal.
  apply map_ext. intros [c evs]. apply appends_producer.
Qed.





(** Replacing one program in the list of programs. *)
Lemma count_pending_insert (ps : list (list instr)) (i : nat)
    (x y : list instr) (e : nat) :
  ps !! i = Some x ->
  (count (pending (<[i := y]> ps)) e + count (appends x) e
   = count (pending ps) e + count (appends y) e)%nat.
Proof.
  revert i. induction ps as [|p r IH]; intros [|i] Hi; try discriminate.
  - injection Hi as ->. unfold pending.
    change (<[0%nat := y]> (x :: r)) with (y :: r). cbn [map concat].
    rewrite !count_occ_app. lia.
  - cbn in Hi. specialize (IH i Hi). unfold pending in *.
    change (<[S i := y]> (p :: r)) with (p :: <[i := y]> r).
    cbn [map concat]. rewrite !count_occ_app. lia.
Qed.


Lemma others_inside_none (ps : list (list instr)) (i j0 : nat) :
  (forall j p, ps !! j = Some p -> (j0 + j)%nat <> i -> inside p = false) ->
  others_inside j0 i ps = false.
Proof.
  revert j0. induction ps as [|p r IH]; intros j0 H; [reflexivity|].
  cbn [others_inside]. apply orb_false_iff. split.
  - destruct (Nat.eqb_spec j0 i) as [E|E]; [reflexivity|]. cbn [negb andb].
    apply (H 0%nat p eq_refl). lia.
  - apply IH. intros j q Hj Hne. apply (H (S j) q Hj). lia.
Qed.

Lemma balanced_outside (p : list instr) :
  balanced false p = true -> inside p = false.
Proof. now destruct p as [|[] r]. Qed.

(** *** The invariant of every schedule *)

Record invariant (all : list nat) (s : cstate) : Prop := mkInv {
  inv_balanced :
    forall i p, pcs s !! i = Some p ->
                balanced (bool_decide (owner s = Some i)) p = true;
  inv_owner : forall i, owner s = Some i -> is_Some (pcs s !! i);
  inv_count :
    forall e, (count (entries (shared s)) e + count (pending (pcs s)) e
               = count all e)%nat;
  inv_seen :
    forall snap busy, (snap, busy) ∈ seen s ->
      busy = false
      /\ video snap `prefix_of` video (shared s)
      /\ audio snap `prefix_of` audio (shared s) }.

Lemma invariant_initial (producers : list (category * list nat)) (k : nat) :
  invariant (concat (map snd producers)) (initial producers k).
Proof.
  split.
  - intros i p Hp. cbn [owner initial].
    rewrite bool_decide_eq_false_2 by discriminate.
    cbn [pcs initial] in Hp. apply lookup_app_Some in Hp as [Hp|[_ Hp]].
    + rewrite list_lookup_fmap in Hp.
      destruct (producers !! i) as [[c evs]|]; [|discriminate].
      injection Hp as <-. apply balanced_producer.
    + apply list_lookup_singleton_Some in Hp as [_ <-]. apply balanced_tick.
  - discriminate.
  - intros e. rewrite pending_initial. reflexivity.
  - intros snap busy H. cbn in H. now apply elem_of_nil in H.
Qed.

Lemma lookup_insert_cases (ps : list (list instr)) (i j : nat)
    (x rest p : list instr) :
  ps !! i = Some x ->
  <[i := rest]> ps !! j = Some p ->
  (j = i /\ p = rest) \/ (j <> i /\ ps !! j = Some p).
Proof.
  intros Hi Hj. destruct (decide (j = i)) as [->|Hne].
  - left. split; [reflexivity|].
    rewrite list_lookup_insert_eq in Hj by (eapply lookup_lt_Some, Hi).
    congruence.
  - right. split; [exact Hne|].
    now rewrite list_lookup_insert_ne in Hj by congruence.
Qed.

Lemma invariant_exec (all : list nat) (i : nat) (s s' : cstate) :
  invariant all s -> exec i s = Some s' -> invariant all s'.
Proof.
  intros [Hbal Hown Hcount Hseen] He. unfold exec in He.
  destruct (pcs s !! i) as [[|ins rest]|] eqn:Hi; try discriminate.
  pose proof (Hbal i _ Hi) as Hme.
  assert (is_Some (<[i := rest]> (pcs s) !! i)) as Hstill.
  { rewrite list_lookup_insert_eq by (eapply lookup_lt_Some, Hi). eauto. }
  assert (forall j, is_Some (pcs s !! j) ->
                    is_Some (<[i := rest]> (pcs s) !! j)) as Hkeep.
  { intros j. rewrite !lookup_lt_is_Some, length_insert. auto. }
  destruct ins as [|c e| |].
  - (* Acquire *)
    destruct (owner s) as [o|] eqn:Ho; [discriminate|].
    injection He as <-. split; cbn [owner shared pcs seen].
    + intros j p Hj.
      destruct (lookup_insert_cases _ _ _ _ _ _ Hi Hj) as [[-> ->]|[Hne Hj']].
      * rewrite bool_decide_eq_true_2 by reflexivity.
        rewrite bool_decide_eq_false_2 in Hme by discriminate.
        exact Hme.
      * specialize (Hbal j p Hj').
        rewrite bool_decide_eq_false_2 in Hbal by discriminate.
        rewrite bool_decide_eq_false_2 by congruence. exact Hbal.
    + intros j [= <-]. exact Hstill.
    + intros e. specialize (Hcount e).
      pose proof (count_pending_insert _ _ _ rest e Hi) as Hp.
      cbn [appends flat_map app] in Hp. fold (appends rest) in Hp. lia.
    + exact Hseen.
  - (* Append *)
    injection He as <-. cbn [balanced] in Hme.
    apply andb_prop in Hme as [Hheld Hme].
    apply bool_decide_eq_true in Hheld.
    split; cbn [owner shared pcs seen].
    + intros j p Hj.
      destruct (lookup_insert_cases _ _ _ _ _ _ Hi Hj) as [[-> ->]|[Hne Hj']].
      * exact Hme.
      * apply Hbal, Hj'.
    + intros j Hj. apply Hkeep, Hown, Hj.
    + intros x. specialize (Hcount x).
      pose proof (count_pending_insert _ _ _ rest x Hi) as Hp.
      cbn [appends flat_map app] in Hp. fold (appends rest) in Hp.
      unfold entries in *.
      destruct c; cbn [store_append video audio];
        rewrite !count_occ_app in *; cbn [count_occ] in *;
        destruct (Nat.eq_dec e x); lia.
    + intros snap busy Hin. destruct (Hseen snap busy Hin) as (Hb & Hv & Ha).
      split; [exact Hb|].
      destruct c; cbn [store_append video audio]; split;
        try assumption; now apply prefix_app_r.
  - (* Snapshot *)
    injection He as <-. cbn [balanced] in Hme.
    apply andb_prop in Hme as [Hheld Hme].
    apply bool_decide_eq_true in Hheld.
    split; cbn [owner shared pcs seen].
    + intros j p Hj.
      destruct (lookup_insert_cases _ _ _ _ _ _ Hi Hj) as [[-> ->]|[Hne Hj']].
      * exact Hme.
      * apply Hbal, Hj'.
    + intros j Hj. apply Hkeep, Hown, Hj.
    + intros x. specialize (Hcount x).
      pose proof (count_pending_insert _ _ _ rest x Hi) as Hp.
      cbn [appends flat_map app] in Hp. fold (appends rest) in Hp. lia.
    + intros snap busy Hin. apply elem_of_app in Hin as [Hin|Hin].
      * exact (Hseen snap busy Hin).
      * apply list_elem_of_singleton in Hin. injection Hin as -> ->.
        split; [|split; reflexivity].
        apply others_inside_none. intros j p Hj Hne.
        apply balanced_outside. specialize (Hbal j p Hj).
        rewrite bool_decide_eq_false_2 in Hbal; [exact Hbal|].
        rewrite Hheld. intros [= ->]. now apply Hne.
  - (* Release *)
    injection He as <-. cbn [balanced] in Hme.
    apply andb_prop in Hme as [Hheld Hme].
    apply bool_decide_eq_true in Hheld.
    split; cbn [owner shared pcs seen].
    + intros j p Hj.
      rewrite bool_decide_eq_false_2 by discriminate.
      destruct (lookup_insert_cases _ _ _ _ _ _ Hi Hj) as [[-> ->]|[Hne Hj']].
      * exact Hme.
      * specialize (Hbal j p Hj').
        rewrite bool_decide_eq_false_2 in Hbal; [exact Hbal|].
        rewrite Hheld. intros [= ->]. now apply Hne.
    + discriminate.
    + intros x. specialize (Hcount x).
      pose proof (count_pending_insert _ _ _ rest x Hi) as Hp.
      cbn [appends flat_map app] in Hp. fold (appends rest) in Hp. lia.
    + exact Hseen.
Qed.

Lemma invariant_run (all : list nat) (schedule : list nat) (s s' : cstate) :
  invariant all s -> run schedule s = Some s' -> invariant all s'.
Proof.
  revert s. induction schedule as [|i r IH]; intros s Hinv Hrun.
  - now injection Hrun as <-.
  - cbn [run] in Hrun. destruct (exec i s) as [s1|] eqn:He; [|discriminate].
    eapply IH; [|exact Hrun]. eapply invariant_exec; eauto.
Qed.



(** No deadlock: whoever holds the lock can go on, and when the lock is
    free any unfinished activity can. *)
Lemma progress (all : list nat) (s : cstate) :
  invariant all s -> finished s \/ exists i s', exec i s = Some s'.
Proof.
  intros [Hbal Hown _ _].
  destruct (owner s) as [o|] eqn:Ho.
  - right. destruct (Hown o eq_refl) as [p Hp]. specialize (Hbal o p Hp).
    rewrite bool_decide_eq_true_2 in Hbal by reflexivity.
    exists o. unfold exec. rewrite Hp.
    destruct p as [|[] r]; try discriminate; eauto.
  - destruct (decide (Forall (fun p => p = []) (pcs s))) as [Hfin|Hnot].
    + now left.
    + right. apply not_Forall_Exists in Hnot; [|intros p; apply _].
      apply Exists_exists in Hnot as (p & Hin & Hp).
      change (p <> []) in Hp.
      apply list_elem_of_lookup in Hin as [i Hi].
      specialize (Hbal i p Hi).
      rewrite bool_decide_eq_false_2 in Hbal by discriminate.
      exists i. unfold exec. rewrite Hi, Ho.
      destruct p as [|[] r]; try discriminate; [contradiction|eauto].
Qed.


(** *** The schedule against the code

    The operations above are the steps of [locked_append] ([with
    self.lock: self.suspicions[c].append(event)], lines 50-51 and 68-69
    of [main.py]).  The appends a schedule performs, in the order in
    which it performs them, are replayed by calling [locked_append]
    itself, one call after the other. *)

Definition appended_by (i : nat) (s : cstate) : list (category * nat) :=
  match pcs s !! i with
  | Some (Append c e :: _) => [(c, e)]
  | _ => []
  end.

Fixpoint trace (schedule : list nat) (s : cstate) : list (category * nat) :=
  match schedule with
  | [] => []
  | i :: r =>
    match exec i s with
    | Some s' => appended_by i s ++ trace r s'
    | None => []
    end
  end.

Definition serial (order : list (category * nat)) : M unit :=
  for_each order (fun ce => locked_append (fst ce) (snd ce)).

(** The store after a sequence of appends. *)
Fixpoint replay (order : list (category * nat)) (st : Store) : Store :=
  match order with
  | [] => st
  | ce :: r => replay r (store_append (fst ce) (snd ce) st)
  end.

Lemma replay_app (a b : list (category * nat)) (st : Store) :
  replay (a ++ b) st = replay b (replay a st).
Proof.
  revert st. induction a as [|ce a IH]; intros st; [reflexivity|apply IH].
Qed.

Lemma serial_run (order : list (category * nat)) (w : World) :
  fst (serial order w) = Ok tt
  /\ store (snd (serial order w)) = replay order (store w)
  /\ io_log (snd (serial order w)) = io_log w.
Proof.
  revert w. induction order as [|ce r IH]; intros w; [now repeat split|].
  unfold serial. cbn [for_each]. unfold bind.
  rewrite locked_append_run. fold (serial r).
  exact (IH (set_lock_held false
               (set_store (store_append (fst ce) (snd ce) (store w)) w))).
Qed.


Lemma exec_replay (i : nat) (s s' : cstate) :
  exec i s = Some s' ->
  shared s' = replay (appended_by i s) (shared s)
  /\ (seen s' = seen s \/ exists busy, seen s' = seen s ++ [(shared s, busy)]).
Proof.
  unfold exec, appended_by.
  destruct (pcs s !! i) as [[|[|c e| |] rest]|]; try discriminate.
  - destruct (owner s); [discriminate|]. intros [= <-]. auto.
  - intros [= <-]. auto.
  - intros [= <-]. split; [reflexivity|]. right. now eexists.
  - intros [= <-]. auto.
Qed.

(** The store of the machine is the store the code builds by the same
    appends, called in the order of the schedule. *)
Lemma trace_replay (schedule : list nat) (s s' : cstate) :
  run schedule s = Some s' ->
  shared s' = replay (trace schedule s) (shared s).
Proof.
  revert s. induction schedule as [|i r IH]; intros s Hrun.
  - now injection Hrun as <-.
  - cbn [run trace] in *.
    destruct (exec i s) as [s1|] eqn:He; [|discriminate].
    rewrite replay_app, <- (proj1 (exec_replay _ _ _ He)). now apply IH.
Qed.



(** *** Mutual exclusion *)

Lemma balanced_inside (held : bool) (p : list instr) :
  balanced held p = true -> inside p = true -> held = true.
Proof.
  destruct p as [|[] r]; cbn [balanced inside]; try discriminate;
    now intros [H _]%andb_prop _.
Qed.

(** X27: under every schedule, at every moment, at most one activity is
    inside a critical section (between its acquire and its release), and
    it is the one that holds the lock; while the lock is free nobody
    is. *)
Theorem mutual_exclusion (producers : list (category * list nat))
    (k : nat) (schedule : list nat) (s : cstate) (i : nat) (p : list instr) :
  run schedule (initial producers k) = Some s ->
  pcs s !! i = Some p ->
  inside p = true ->
  owner s = Some i
  /\ forall (j : nat) (q : list instr),
       pcs s !! j = Some q -> inside q = true -> j = i.
Proof.
  intros Hrun Hp Hin.
  pose proof (invariant_run _ _ _ _ (invariant_initial producers k) Hrun)
    as [Hbal _ _ _].
  assert (forall j q, pcs s !! j = Some q -> inside q = true ->
                      owner s = Some j) as Hown.
  { intros j q Hq Hinq.
    apply (balanced_inside _ _ (Hbal j q Hq)) in Hinq.
    now apply bool_decide_eq_true in Hinq. }
  split; [now apply (Hown i p)|].
  intros j q Hq Hinq.
  pose proof (Hown i p Hp Hin) as Hi. pose proof (Hown j q Hq Hinq) as Hj.
  congruence.
Qed.

(** *** Arrival order *)

(** The sequence of a category in the store. *)
Definition sequence_of (c : category) (st : Store) : list nat :=
  match c with Video => video st | Audio => audio st end.

(** Every append of the program goes to category [c]. *)
Definition pure (c : category) (p : list instr) : Prop :=
  Forall (fun ins => match ins with Append c' _ => c' = c | _ => True end) p.

Lemma pure_producer (c : category) (events : list nat) :
  pure c (producer_program c events).
Proof.
  unfold pure, producer_program.
  induction events as [|e r IH]; cbn [flat_map app]; repeat constructor.
  exact IH.
Qed.

Lemma filter_all (P : nat -> Prop) `{!forall x, Decision (P x)}
    (l : list nat) :
  Forall P l -> filter P l = l.
Proof.
  induction 1 as [|x r Hx _ IH]; [reflexivity|].
  now rewrite filter_cons_True, IH.
Qed.

Lemma nodup_concat_disjoint (ls : list (list nat)) (i j : nat)
    (a b : list nat) (x : nat) :
  NoDup (concat ls) -> ls !! i = Some a -> ls !! j = Some b -> i <> j ->
  x ∈ a -> x ∈ b -> False.
Proof.
  revert i j. induction ls as [|l r IH]; intros i j Hnd Hi Hj Hne Ha Hb;
    [discriminate|].
  cbn [concat] in Hnd. apply NoDup_app in Hnd as (_ & Hdis & Hr).
  assert (forall n c, r !! n = Some c -> x ∈ c -> x ∈ concat r) as Hin.
  { clear. induction r as [|l0 r IHr]; intros [|n] c Hn Hc; try discriminate;
      cbn [concat]; apply elem_of_app.
    - injection Hn as ->. now left.
    - right. now apply (IHr n c). }
  destruct i as [|i], j as [|j]; cbn in Hi, Hj.
  - congruence.
  - injection Hi as ->. apply (Hdis x Ha). eapply Hin; eauto.
  - injection Hj as ->. apply (Hdis x Hb). eapply Hin; eauto.
  - apply (IH i j Hr Hi Hj); [congruence|assumption..].
Qed.

Record ordered (producers : list (category * list nat)) (s : cstate)
  : Prop := mkOrd {
  ord_length : length (pcs s) = S (length producers);
  ord_prog :
    forall i c evs, producers !! i = Some (c, evs) ->
      exists p, pcs s !! i = Some p /\ pure c p
                /\ filter (.∈ evs) (sequence_of c (shared s)) ++ appends p
                   = evs;
  ord_tick :
    forall p, pcs s !! length producers = Some p -> appends p = [];
  ord_mem :
    forall c e, e ∈ sequence_of c (shared s) ->
      exists i evs, producers !! i = Some (c, evs) /\ e ∈ evs }.

Lemma ordered_initial (producers : list (category * list nat)) (k : nat) :
  ordered producers (initial producers k).
Proof.
  split; cbn [pcs shared initial].
  - rewrite length_app, length_map. cbn [length]. lia.
  - intros i c evs Hi. exists (producer_program c evs).
    split; [|split].
    + rewrite lookup_app_l by (rewrite length_map; eapply lookup_lt_Some, Hi).
      now rewrite list_lookup_fmap, Hi.
    + apply pure_producer.
    + destruct c; cbn [sequence_of video audio filter];
        apply appends_producer.
  - intros p Hp.
    rewrite lookup_app_r in Hp by now rewrite length_map.
    rewrite length_map, Nat.sub_diag in Hp. injection Hp as <-.
    apply appends_tick.
  - intros c e He. destruct c; cbn in He; now apply elem_of_nil in He.
Qed.

Lemma sequence_of_append (c c' : category) (e : nat) (st : Store) :
  sequence_of c (store_append c' e st)
  = if same_category c c' then sequence_of c st ++ [e] else sequence_of c st.
Proof. now destruct c, c'. Qed.

Lemma same_category_eq (c c' : category) :
  same_category c c' = true <-> c = c'.
Proof. destruct c, c'; cbn; split; congruence. Qed.

Lemma ordered_exec (producers : list (category * list nat)) (i : nat)
    (s s' : cstate) :
  NoDup (concat (map snd producers)) ->
  ordered producers s -> exec i s = Some s' -> ordered producers s'.
Proof.
  intros Hnd [Hlen Hprog Htick Hmem] He. unfold exec in He.
  destruct (pcs s !! i) as [[|ins rest]|] eqn:Hi; try discriminate.
  assert (i < length (pcs s))%nat as Hlt by (eapply lookup_lt_Some, Hi).
  (* the steps that leave the store alone *)
  assert (forall s1 : cstate,
            shared s1 = shared s -> pcs s1 = <[i := rest]> (pcs s) ->
            appends (ins :: rest) = appends rest ->
            ordered producers s1) as Hquiet.
  { intros s1 Hsh Hpcs Happ. split.
    - now rewrite Hpcs, length_insert.
    - intros j c evs Hj. destruct (Hprog j c evs Hj) as (p & Hp & Hpure & Heq).
      rewrite Hsh, Hpcs. destruct (decide (j = i)) as [->|Hne].
      + exists rest. rewrite list_lookup_insert_eq by exact Hlt.
        rewrite Hi in Hp. injection Hp as <-.
        split; [reflexivity|]. split; [now inversion Hpure|].
        now rewrite <- Happ.
      + exists p. rewrite list_lookup_insert_ne by congruence. auto.
    - intros p. rewrite Hpcs.
      destruct (decide (length producers = i)) as [<-|Hne].
      + rewrite list_lookup_insert_eq by exact Hlt. intros [= <-].
        rewrite <- Happ. now apply Htick.
      + rewrite list_lookup_insert_ne by congruence. apply Htick.
    - rewrite Hsh. exact Hmem. }
  destruct ins as [|c e| |].
  - destruct (owner s); [discriminate|]. injection He as <-.
    now apply Hquiet.
  - (* Append *)
    injection He as <-.
    assert (exists evs, producers !! i = Some (c, evs) /\ e ∈ evs
                        /\ filter (.∈ evs) (sequence_of c (shared s))
                           ++ e :: appends rest = evs
                        /\ pure c rest)
      as (evs & Hpi & He & Heq & Hpure).
    { destruct (decide (i = length producers)) as [->|Hne].
      { now pose proof (Htick _ Hi). }
      assert (i < length producers)%nat as Hip by lia.
      apply lookup_lt_is_Some in Hip as [[ci evs] Hpi].
      destruct (Hprog i ci evs Hpi) as (p & Hp & Hpure & Heq).
      rewrite Hi in Hp. injection Hp as <-.
      inversion Hpure as [|? ? Hc Hrest]; subst.
      exists evs. split; [exact Hpi|]. cbn [appends flat_map app] in Heq.
      fold (appends rest) in Heq.
      split; [|split; [exact Heq|exact Hrest]].
      rewrite <- Heq. apply elem_of_app. right. left. }
    split; cbn [pcs shared].
    + now rewrite length_insert.
    + intros j cj evs_j Hj.
      destruct (Hprog j cj evs_j Hj) as (p & Hp & Hpj & Heqj).
      rewrite sequence_of_append.
      destruct (decide (j = i)) as [->|Hne].
      * rewrite Hpi in Hj. injection Hj as <- <-.
        exists rest. rewrite list_lookup_insert_eq by exact Hlt.
        split; [reflexivity|]. split; [exact Hpure|].
        rewrite (proj2 (same_category_eq c c) eq_refl).
        rewrite filter_app, filter_cons_True by exact He.
        rewrite filter_nil, <- app_assoc. exact Heq.
      * exists p. rewrite list_lookup_insert_ne by congruence.
        split; [exact Hp|]. split; [exact Hpj|].
        destruct (same_category cj c); [|exact Heqj].
        rewrite filter_app, filter_cons_False, filter_nil, app_nil_r;
          [exact Heqj|].
        intros He'.
        apply (nodup_concat_disjoint (map snd producers) i j evs evs_j e Hnd);
          try assumption.
        -- now rewrite list_lookup_fmap, Hpi.
        -- now rewrite list_lookup_fmap, Hj.
        -- congruence.
    + intros p.
      destruct (decide (length producers = i)) as [<-|Hne].
      * now pose proof (Htick _ Hi).
      * rewrite list_lookup_insert_ne by congruence. apply Htick.
    + intros c0 x. rewrite sequence_of_append.
      destruct (same_category c0 c) eqn:Hc; [|apply Hmem].
      apply same_category_eq in Hc as ->.
      rewrite elem_of_app, list_elem_of_singleton.
      intros [Hx| ->]; [now apply Hmem|eauto].
  - injection He as <-. now apply Hquiet.
  - injection He as <-. now apply Hquiet.
Qed.

Lemma ordered_run (producers : list (category * list nat))
    (schedule : list nat) (s s' : cstate) :
  NoDup (concat (map snd producers)) ->
  ordered producers s -> run schedule s = Some s' -> ordered producers s'.
Proof.
  intros Hnd. revert s. induction schedule as [|i r IH]; intros s Hord Hrun.
  - now injection Hrun as <-.
  - cbn [run] in Hrun. destruct (exec i s) as [s1|] eqn:He; [|discriminate].
    eapply IH; [|exact Hrun]. eapply ordered_exec; eauto.
Qed.

Lemma replay_category (c : category) (evs : list nat) (st : Store) :
  replay (map (pair c) evs) st
  = match c with
    | Video => mkStore (video st ++ evs) (audio st)
    | Audio => mkStore (video st) (audio st ++ evs)
    end.
Proof.
  revert st. induction evs as [|e r IH]; intros st; cbn [map replay fst snd].
  - destruct c, st; cbn; now rewrite app_nil_r.
  - rewrite IH. destruct c; cbn [store_append video audio];
      now rewrite <- app_assoc.
Qed.

(** X28: under every schedule the store that [locked_append] builds,
    called for the appends of the schedule in their order, keeps for
    each producer the events of that producer in the order it appended
    them: the entries of its category that are its own, followed by the
    events it has yet to append, are its events in their order; and a
    category holds only events of the producers of that category.  With
    one producer per category (one camera, one audio activity) the store
    of a finished run is exactly the two sequences as they were
    produced, whatever the schedule was: the same store as when the
    camera had made all its calls before the first call of the audio
    activity. *)
Theorem producer_order_is_kept (producers : list (category * list nat))
    (k : nat) (schedule : list nat) (s : cstate) (w0 : World) :
  NoDup (concat (map snd producers)) ->
  run schedule (initial producers k) = Some s ->
  store w0 = mkStore [] [] ->
  store (snd (serial (trace schedule (initial producers k)) w0)) = shared s
  /\ (forall i c evs, producers !! i = Some (c, evs) ->
        exists p,
          pcs s !! i = Some p
          /\ filter (.∈ evs)
               (sequence_of c
                  (store (snd (serial (trace schedule (initial producers k))
                                      w0))))
             ++ appends p
             = evs)
  /\ (forall c e,
        e ∈ sequence_of c
              (store (snd (serial (trace schedule (initial producers k))
                                  w0))) ->
        exists i evs, producers !! i = Some (c, evs) /\ e ∈ evs)
  /\ (forall vs aus : list nat,
        producers = [(Video, vs); (Audio, aus)] ->
        finished s ->
        store (snd (serial (trace schedule (initial producers k)) w0))
          = mkStore vs aus
        /\ store (snd (serial (trace schedule (initial producers k)) w0))
           = store (snd (serial (map (pair Video) vs ++ map (pair Audio) aus)
                                w0))).
Proof.
  intros Hnd Hrun Hw0.
  pose proof (ordered_run _ _ _ _ Hnd (ordered_initial producers k) Hrun)
    as [Hlen Hprog Htick Hmem].
  assert (store (snd (serial (trace schedule (initial producers k)) w0))
          = shared s) as ->.
  { rewrite (proj1 (proj2 (serial_run _ w0))), Hw0.
    symmetry. exact (trace_replay _ _ _ Hrun). }
  split; [reflexivity|]. split; [|split; [exact Hmem|]].
  - intros i c evs Hi. destruct (Hprog i c evs Hi) as (p & Hp & _ & Heq).
    eauto.
  - intros vs aus -> Hfin.
    assert (forall i c evs,
              [(Video, vs); (Audio, aus)] !! i = Some (c, evs) ->
              sequence_of c (shared s) = evs) as Hseq.
    { intros i c evs Hi.
      destruct (Hprog i c evs Hi) as (p & Hp & _ & Heq).
      assert (p = []) as ->.
      { unfold finished in Hfin. rewrite Forall_forall in Hfin.
        apply Hfin. eapply list_elem_of_lookup_2, Hp. }
      cbn [appends flat_map] in Heq. rewrite app_nil_r in Heq.
      rewrite <- (filter_all (.∈ evs) (sequence_of c (shared s)));
        [exact Heq|].
      apply Forall_forall. intros e He.
      destruct (Hmem c e He) as (j & evs' & Hj & He').
      destruct i as [|[|i]], j as [|[|j]]; cbn in Hi, Hj;
        try discriminate; congruence. }
    pose proof (Hseq 0%nat Video vs eq_refl) as Hv.
    pose proof (Hseq 1%nat Audio aus eq_refl) as Ha.
    cbn [sequence_of] in Hv, Ha.
    assert (shared s = mkStore vs aus) as ->.
    { destruct (shared s) as [v a]. cbn [video audio] in Hv, Ha. now subst. }
    split; [reflexivity|].
    rewrite (proj1 (proj2 (serial_run _ w0))), Hw0, replay_app.
    now rewrite !replay_category.
Qed.

End Interleaving.

(** ** Reference collaborators

    Executable stand-ins for the three libraries, used to run the
    pipeline on concrete sessions: a transparent token format, a codec
    for the JSON subset above, and a clock formatter. *)

Module Reference.

(** *** Tokens: version octet, key, payload *)

Definition key_ok (k : pybytes) : bool := (length k =? 44)%nat.

Definition encrypt_token (k iv : pybytes) (t : N) (data : pybytes) : pybytes :=
  0x80 :: k ++ data.

Definition decrypt_token (k token : pybytes) : option pybytes :=
  match token with
  | v :: r =>
    if (v =? 0x80) && Str.startswith k r then Some (drop (length k) r)
    else None
  | [] => None
  end.

(** *** JSON text *)

Definition hexdigit (n : N) : N := if n <? 10 then 48 + n else 87 + n.

Definition u_escape (c : N) : pystr :=
  [92; 117; hexdigit (c / 4096 mod 16); hexdigit (c / 256 mod 16);
   hexdigit (c / 16 mod 16); hexdigit (c mod 16)].

Definition escape (c : N) : pystr :=
  if c =? 34 then [92; 34]
  else if c =? 92 then [92; 92]
  else if (c <? 32) || (126 <? c) then
    if c <? 0x10000 then u_escape c
    else u_escape (0xD800 + (c - 0x10000) / 1024)
         ++ u_escape (0xDC00 + (c - 0x10000) mod 1024)
  else [c].

Definition quote (s : pystr) : pystr := 34 :: flat_map escape s ++ [34].

Fixpoint dumps (v : json) : pystr :=
  match v with
  | JNull => py "null"
  | JBool true => py "true"
  | JBool false => py "false"
  | JInt z => py (pretty z)
  | JStr s => quote s
  | JList l =>
    py "[" ++
    (fix items (l : list json) : pystr :=
       match l with
       | [] => []
       | [x] => dumps x
       | x :: r => dumps x ++ py ", " ++ items r
       end) l ++ py "]"
  | JDict d =>
    py "{" ++
    (fix items (d : list (pystr * json)) : pystr :=
       match d with
       | [] => []
       | [(k, x)] => quote k ++ py ": " ++ dumps x
       | (k, x) :: r => quote k ++ py ": " ++ dumps x ++ py ", " ++ items r
       end) d ++ py "}"
  end.

Definition json_dumps (indent : option nat) (v : json) : pystr := dumps v.

Fixpoint skip_ws (s : pystr) : pystr :=
  match s with
  | c :: r => if (c =? 32) || (c =? 10) || (c =? 13) || (c =? 9)
              then skip_ws r else s
  | [] => []
  end.

Definition hexval (c : N) : option N :=
  if (48 <=? c) && (c <=? 57) then Some (c - 48)
  else if (97 <=? c) && (c <=? 102) then Some (c - 87)
  else if (65 <=? c) && (c <=? 70) then Some (c - 55)
  else None.

Definition hex4 (s : pystr) : option (N * pystr) :=
  match s with
  | a :: b :: c :: d :: r =>
    match hexval a, hexval b, hexval c, hexval d with
    | Some a, Some b, Some c, Some d =>
      Some (((a * 16 + b) * 16 + c) * 16 + d, r)
    | _, _, _, _ => None
    end
  | _ => None
  end.

(** The characters after an opening quote, up to the closing one. *)
Fixpoint parse_chars (fuel : nat) (s : pystr) : option (pystr * pystr) :=
  match fuel with
  | O => None
  | S f =>
    match s with
    | [] => None
    | 34 :: r => Some ([], r)
    | 92 :: e :: r =>
      let single c := option_map (fun p => (c :: fst p, snd p)) (parse_chars f r) in
      if e =? 34 then single 34
      else if e =? 92 then single 92
      else if e =? 47 then single 47
      else if e =? 98 then single 8
      else if e =? 102 then single 12
      else if e =? 110 then single 10
      else if e =? 114 then single 13
      else if e =? 116 then single 9
      else if e =? 117 then
        match hex4 r with
        | Some (hi, r1) =>
          let plain := option_map (fun p => (hi :: fst p, snd p))
                                  (parse_chars f r1) in
          if (0xD800 <=? hi) && (hi <=? 0xDBFF) then
            match r1 with
            | 92 :: 117 :: r2 =>
              match hex4 r2 with
              | Some (lo, r3) =>
                if (0xDC00 <=? lo) && (lo <=? 0xDFFF) then
                  option_map
                    (fun p => (0x10000 + (hi - 0xD800) * 1024 + (lo - 0xDC00)
                               :: fst p, snd p))
                    (parse_chars f r3)
                else plain
              | None => None
              end
            | _ => plain
            end
          else plain
        | None => None
        end
      else None
    | c :: r =>
      if c <? 32 then None
      else option_map (fun p => (c :: fst p, snd p)) (parse_chars f r)
    end
  end.

Fixpoint parse_digits (acc : N) (s : pystr) : N * pystr :=
  match s with
  | c :: r => if (48 <=? c) && (c <=? 57)
              then parse_digits (acc * 10 + (c - 48)) r else (acc, s)
  | [] => (acc, [])
  end.

Definition is_digit (s : pystr) : bool :=
  match s with
  | c :: _ => (48 <=? c) && (c <=? 57)
  | [] => false
  end.

Fixpoint parse_value (fuel : nat) (s : pystr) : option (json * pystr) :=
  match fuel with
  | O => None
  | S f =>
    let parse_items :=
      fix items (n : nat) (s : pystr) : option (list json * pystr) :=
        match n with
        | O => None
        | S n' =>
          match parse_value f (skip_ws s) with
          | Some (v, r) =>
            match skip_ws r with
            | 44 :: r' =>
              option_map (fun p => (v :: fst p, snd p)) (items n' r')
            | 93 :: r' => Some ([v], r')
            | _ => None
            end
          | None => None
          end
        end in
    let parse_members :=
      fix members (n : nat) (s : pystr)
        : option (list (pystr * json) * pystr) :=
        match n with
        | O => None
        | S n' =>
          match skip_ws s with
          | 34 :: r0 =>
            match parse_chars (length r0) r0 with
            | Some (k, r1) =>
              match skip_ws r1 with
              | 58 :: r2 =>
                match parse_value f (skip_ws r2) with
                | Some (v, r3) =>
                  match skip_ws r3 with
                  | 44 :: r' =>
                    option_map (fun p => ((k, v) :: fst p, snd p))
                               (members n' r')
                  | 125 :: r' => Some ([(k, v)], r')
                  | _ => None
                  end
                | None => None
                end
              | _ => None
              end
            | None => None
            end
          | _ => None
          end
        end in
    match s with
    | 34 :: r =>
      option_map (fun p => (JStr (fst p), snd p)) (parse_chars (length r) r)
    | 91 :: r =>
      match skip_ws r with
      | 93 :: r' => Some (JList [], r')
      | _ => option_map (fun p => (JList (fst p), snd p))
                        (parse_items (length r) r)
      end
    | 123 :: r =>
      match skip_ws r with
      | 125 :: r' => Some (JDict [], r')
      | _ => option_map (fun p => (JDict (fst p), snd p))
                        (parse_members (length r) r)
      end
    | 45 :: r =>
      if is_digit r
      then let '(n, r') := parse_digits 0 r in Some (JInt (- Z.of_N n), r')
      else None
    | _ :: _ =>
      if Str.startswith (py "true") s then Some (JBool true, drop 4 s)
      else if Str.startswith (py "false") s then Some (JBool false, drop 5 s)
      else if Str.startswith (py "null") s then Some (JNull, drop 4 s)
      else if is_digit s
      then let '(n, r') := parse_digits 0 s in Some (JInt (Z.of_N n), r')
      else None
    | [] => None
    end
  end.

Definition json_loads (s : pystr) : option json :=
  match parse_value (S (length s)) (skip_ws s) with
  | Some (v, r) => match skip_ws r with [] => Some v | _ => None end
  | None => None
  end.

Definition strftime (t : N) : pystr := py "t=" ++ py (pretty t).

Example loads_dumps_sample :
  let v := JDict [(py "video", JList [JDict [(py "id", JStr (py "s1_cam_7"));
                                             (py "data", JStr [34; 233; 0x1F600])]]);
                  (py "audio", JList []); (py "n", JInt (-12)); (py "b", JBool true)] in
  json_loads (json_dumps (Some 2%nat) v) = Some v.
Proof. vm_compute. reflexivity. Qed.

Lemma decrypt_encrypt_token (k iv : pybytes) (t : N) (data : pybytes) :
  decrypt_token k (encrypt_token k iv t data) = Some data.
Proof.
  unfold decrypt_token, encrypt_token. rewrite N.eqb_refl. cbn [andb].
  assert (Str.startswith k (k ++ data) = true) as ->.
  { induction k as [|c k IH]; [reflexivity|].
    cbn [app Str.startswith]. now rewrite N.eqb_refl. }
  now rewrite drop_app_length.
Qed.

End Reference.

(** A second token format, which notices every single altered octet:
    the payload is written twice, and a token is accepted when it
    starts with the version octet and the key and its two halves
    agree. *)

Module Sealed.

Definition encrypt_token (k iv : pybytes) (t : N) (data : pybytes) : pybytes :=
  0x80 :: k ++ data ++ data.

Definition decrypt_token (k token : pybytes) : option pybytes :=
  match token with
  | v :: r =>
    let p := drop (length k) r in
    let half := take (length p / 2) p in
    if (v =? 0x80) && bool_decide (take (length k) r = k)
       && bool_decide (p = half ++ half)
    then Some half else None
  | [] => None
  end.

Lemma half_length (m : pybytes) : (length (m ++ m) / 2)%nat = length m.
Proof.
  rewrite length_app. replace (length m + length m)%nat
    with (length m * 2)%nat by lia.
  now apply Nat.div_mul.
Qed.

Lemma repeated_payload_roundtrip (k iv : pybytes) (t : N) (m : pybytes) :
  decrypt_token k (encrypt_token k iv t m) = Some m.
Proof.
  unfold decrypt_token, encrypt_token.
  rewrite drop_app_length, take_app_length, half_length, take_app_length.
  rewrite !bool_decide_eq_true_2 by reflexivity. reflexivity.
Qed.



End Sealed.

(** ** Concrete sessions *)

Lemma reference_roundtrip (k iv : pybytes) (t : N) (m : pybytes) :
  Reference.key_ok k = true ->
  Reference.decrypt_token k (Reference.encrypt_token k iv t m) = Some m.
Proof. intros _. apply Reference.decrypt_encrypt_token. Qed.

Lemma reference_accepts_b64 (raw : pybytes) :
  length raw = 32%nat ->
  Reference.key_ok (Base64.urlsafe_b64encode raw) = true.
Proof.
  intros H. unfold Reference.key_ok.
  now rewrite Base64.urlsafe_b64encode_length, H.
Qed.

(** An empty working directory, a stopped clock, a constant entropy
    source. *)
Definition world0 : World :=
  mkWorld ∅ ∅ [] (fun _ => 0) 0 (fun _ => 0) 0 (fun _ => false) [] []
          (mkStore [] []) false [].

(** A key of the accepted shape and the objects built around it. *)
Definition key0 : pybytes := repeat 65 44.
Definition cipher0 : CryptoUtils := mkCryptoUtils key0.
Definition logger0 : SecureLogger := mkSecureLogger cipher0 "secure_logs.jsonl".
Definition system0 : CortexShadeSystem :=
  mkSystem (py "student1") key0 cipher0 logger0.

(** *** The cipher wrapper *)

Lemma roundtrip_hello :
  CryptoUtils_init Reference.key_ok (Some key0) world0 = (Ok cipher0, world0)
  /\ Utf8.encode (py "hello") = Some (py "hello")
  /\ exists (token : pybytes) (w' : World),
       encrypt Reference.encrypt_token cipher0 (py "hello") world0
         = (Ok token, w')
       /\ forall w'' : World,
            decrypt Reference.decrypt_token cipher0 token w''
              = (Ok (py "hello"), w'').
Proof.
  split; [reflexivity|]. split; [reflexivity|].
  exact (decrypt_encrypt_roundtrip
           Reference.key_ok Reference.encrypt_token Reference.decrypt_token
           reference_roundtrip (Some key0) cipher0 world0 world0
           (py "hello") (py "hello") world0 eq_refl eq_refl).
Defined.




(** A string holding the lone surrogate U+D800 is a [str], yet it has no
    UTF-8 encoding: [encrypt] raises and there is no token to decrypt. *)
Lemma lone_surrogate_not_encrypted :
  CryptoUtils_init Reference.key_ok (Some key0) world0 = (Ok cipher0, world0)
  /\ encrypt Reference.encrypt_token cipher0 [0xD800] world0
     = (Raise UnicodeEncodeError, world0).
Proof. split; reflexivity. Qed.

(** *** Key derivation *)

Definition salt0 : pybytes := repeat 7 16.
Definition salted : World := set_files {[ "salt.bin" := salt0 ]} world0.

Lemma derive_twice_same_key :
  files salted !! "salt.bin" = Some salt0
  /\ files (snd (KeyManager.derive_key_from_password
                   (py "hunter2") "salt.bin" salted)) = files salted
  /\ fst (KeyManager.derive_key_from_password (py "hunter2") "salt.bin" salted)
     = fst (KeyManager.derive_key_from_password
              (py "hunter2") "salt.bin"
              (set_stdout [LSaved] salted)).
Proof.
  split; [reflexivity|].
  destruct (KeyManager.derive_key_reuses_salt
              (py "hunter2") salt0 "salt.bin" salted
              (set_stdout [LSaved] salted) eq_refl eq_refl)
    as (Hfiles & _ & _ & Hsame & _).
  split; [exact Hfiles|exact Hsame].
Defined.

(** The passwords "a" and "a" followed by U+0000 differ, and derive the
    same key under the same salt: HMAC fills a short key with zero octets
    up to its block size. *)
Lemma distinct_passwords_same_key :
  py "a" <> [97; 0]
  /\ exists k : pybytes,
       fst (KeyManager.derive_key_from_password (py "a") "salt.bin" salted)
         = Ok k
       /\ fst (KeyManager.derive_key_from_password [97; 0] "salt.bin" salted)
          = Ok k.
Proof.
  split; [discriminate|].
  rewrite (KeyManager.derive_existing_salt (py "a") "salt.bin" salt0 salted
             eq_refl).
  rewrite (KeyManager.derive_existing_salt [97; 0] "salt.bin" salt0 salted
             eq_refl).
  cbn [fst]. unfold KeyManager.outcome.
  change (Utf8.encode (py "a")) with (Some [97]).
  change (Utf8.encode [97; 0]) with (Some [97; 0]).
  cbv beta iota. eexists. split; [reflexivity|].
  unfold KeyManager.key_of.
  rewrite (Pbkdf2.pbkdf2_block_key [97; 0] [97] salt0 KeyManager.iterations 32
             eq_refl).
  reflexivity.
Qed.

(** *** The secure logger *)

(** An event without "data", and a complete one. *)
Definition partial_event : pydict :=
  [(py "id", JStr (py "student1_cam_7"));
   (py "timestamp", JStr (py "2025-08-29 10:00:00"))].

Definition complete_event : pydict :=
  partial_event ++ [(py "data", JStr (py "Camera suspicion score: 3"))].

Lemma partial_event_skipped :
  heap (set_heap [partial_event] world0) !! 0%nat = Some partial_event
  /\ Dict.has (py "data") partial_event = false
  /\ exists w' : World,
       log_event Reference.encrypt_token Reference.json_dumps
                 Reference.strftime logger0 0 (set_heap [partial_event] world0)
         = (Ok tt, w')
       /\ files w' = ∅ /\ heap w' = [partial_event]
       /\ store w' = mkStore [] []
       /\ stdout w' = [LInvalidSchema].
Proof.
  split; [reflexivity|]. split; [reflexivity|].
  destruct (log_event_invalid_is_skipped
              Reference.encrypt_token Reference.json_dumps Reference.strftime
              logger0 0 partial_event (py "data")
              (set_heap [partial_event] world0) eq_refl)
    as (w' & Hrun & Hf & _ & Hh & Hs & _ & _ & _ & _ & Ho).
  - unfold EventSchema.required_keys. do 2 right. left.
  - reflexivity.
  - exists w'. repeat split; assumption.
Defined.

(** The line of the stamped event, and a logger whose log file lies in
    a directory that does not exist. *)
Definition complete_line : pystr :=
  Reference.json_dumps None
    (JDict (stamped Reference.strftime (set_heap [complete_event] world0)
              complete_event)).

Lemma complete_line_encodes : Utf8.encode complete_line = Some complete_line.
Proof. vm_compute. reflexivity. Qed.

Definition stray_logger : SecureLogger :=
  mkSecureLogger cipher0 "logs/secure_logs.jsonl".

Lemma complete_event_stamped :
  heap (set_heap [complete_event] world0) !! 0%nat = Some complete_event
  /\ EventSchema.validate complete_event = true
  /\ heap (snd (log_event Reference.encrypt_token Reference.json_dumps
                          Reference.strftime logger0 0
                          (set_heap [complete_event] world0))) !! 0%nat
     = Some (complete_event ++ [(py "logged_at", JStr (py "t=0"))])
  /\ Dict.get (py "data") (complete_event
                           ++ [(py "logged_at", JStr (py "t=0"))])
     = Dict.get (py "data") complete_event
  /\ fst (log_event Reference.encrypt_token Reference.json_dumps
                    Reference.strftime logger0 0
                    (set_heap [complete_event] world0))
     = Ok tt
  /\ fst (log_event Reference.encrypt_token Reference.json_dumps
                    Reference.strftime stray_logger 0
                    (set_heap [complete_event] world0))
     = Raise (FileNotFoundError "logs/secure_logs.jsonl")
  /\ heap (snd (log_event Reference.encrypt_token Reference.json_dumps
                          Reference.strftime stray_logger 0
                          (set_heap [complete_event] world0))) !! 0%nat
     = Some (complete_event ++ [(py "logged_at", JStr (py "t=0"))]).
Proof.
  split; [reflexivity|]. split; [reflexivity|].
  destruct (log_event_stamps_callers_dict
              Reference.encrypt_token Reference.json_dumps Reference.strftime
              logger0 0 complete_event (set_heap [complete_event] world0)
              eq_refl eq_refl)
    as (_ & Hat & _ & Hkeep & Hlog & _).
  destruct (log_event_stamps_callers_dict
              Reference.encrypt_token Reference.json_dumps Reference.strftime
              stray_logger 0 complete_event (set_heap [complete_event] world0)
              eq_refl eq_refl)
    as (_ & Hat' & _ & _ & Hstray & _).
  split; [exact Hat|]. split; [apply (Hkeep (py "data")); discriminate|].
  split.
  - destruct (Hlog complete_line complete_line_encodes) as [Hok _].
    destruct (Hok eq_refl) as (iv & t & Hret & _). exact Hret.
  - split; [|exact Hat'].
    destruct (Hstray complete_line complete_line_encodes) as [_ Hno].
    apply (Hno (FileNotFoundError "logs/secure_logs.jsonl")).
    vm_compute. reflexivity.
Defined.

(** *** The audit *)

Definition evidence : list pystr :=
  [py "phone_20250829_100000.jpg"; py "notes.txt";
   py "looking_away_20250829_100500.jpg"].

Definition evidence_world : World :=
  mkWorld ∅ {[ "screenshots" := evidence ]} [] (fun _ => 0) 0
          (fun _ => 0) 0 (fun _ => false) [] [] (mkStore [] []) false [].

Definition audited : pydict :=
  [(py "video", JList []); (py "audio", JList [JNull; JNull; JNull])].

Lemma scores_of_two_screenshots :
  Dict.get (py "audio") audited = Some (JList [JNull; JNull; JNull])
  /\ dirs evidence_world !! "screenshots" = Some evidence
  /\ exists w' : World,
       calculate_scores (JDict audited) evidence_world = (Ok 2%nat, w')
       /\ stdout w' = [LScoresHeader; LVideoScore 2; LAudioScore 3;
                      LNetScore 5].
Proof.
  assert (dirs evidence_world !! "screenshots" = Some evidence) as Hdir
    by (vm_compute; reflexivity).
  assert (files evidence_world !! "screenshots" = None) as Hfile
    by (vm_compute; reflexivity).
  split; [reflexivity|]. split; [exact Hdir|].
  destruct (scores_are_counts audited [JNull; JNull; JNull] evidence
              evidence_world eq_refl Hdir Hfile)
    as (w' & Hrun & Hout & _).
  exists w'. split; [exact Hrun|exact Hout].
Defined.

(** *** The persistence tick *)

Definition empty_snapshot_text : pystr :=
  Reference.json_dumps (Some 2%nat) (suspicions_json world0).


(** The tick writes its working file while it holds the lock. *)
Lemma tick_writes_under_lock :
  ~ io_outside_lock world0
      (snd (encrypt_and_save Reference.encrypt_token Reference.json_dumps
                             system0 world0)).
Proof.
  intros H. apply (H (IoWrite "suspicions.json")).
  vm_compute. right. left.
Qed.

(** *** A session with three video events and two audio events *)

Definition sample_event (id data : string) : pydict :=
  [(py "id", JStr (py id)); (py "timestamp", JStr (py "2025-08-29 10:00:00"));
   (py "data", JStr (py data))].

Definition injections0 : list (category * pydict) :=
  [(Video, sample_event "student1_cam_1" "Camera suspicion score: 1");
   (Audio, sample_event "student1_aud_2" "Audio event: whisper | Reasons: low");
   (Video, sample_event "student1_cam_3" "Camera suspicion score: 2");
   (Video, sample_event "student1_cam_4" "Camera suspicion score: 3");
   (Audio, sample_event "student1_aud_5" "Audio event: tapping | Reasons: hit")].

Definition snapshot_text0 : pystr :=
  Reference.json_dumps (Some 2%nat) (aggregate injections0).

Lemma snapshot_text0_encodes :
  Utf8.encode snapshot_text0 = Some snapshot_text0.
Proof. vm_compute. reflexivity. Qed.

Lemma snapshot_text0_loads :
  Reference.json_loads snapshot_text0 = Some (aggregate injections0).
Proof. vm_compute. reflexivity. Qed.

Lemma session_three_video_two_audio :
  length (events_of Video injections0) = 3%nat
  /\ length (events_of Audio injections0) = 2%nat
  /\ exists (V A : list json) (w' : World) (rest : list line),
       session Reference.key_ok Reference.encrypt_token
               Reference.decrypt_token Reference.json_dumps
               Reference.json_loads
               (py "student1") (py "default123") injections0 world0
         = (Ok tt, w')
       /\ length V = 3%nat /\ length A = 2%nat
       /\ stdout w' =
          stdout world0
          ++ [LSaved; LDecryptedHeader;
              LDecrypted (Reference.json_dumps (Some 2%nat)
                            (JDict [(py "video", JList V);
                                    (py "audio", JList A)]));
              LScoresHeader; LVideoScore (jpg_count world0);
              LAudioScore 2; LNetScore (jpg_count world0 + 2)]
          ++ rest.
Proof.
  split; [reflexivity|]. split; [reflexivity|].
  exact (normal_session_scores
           Reference.key_ok Reference.encrypt_token Reference.decrypt_token
           Reference.json_dumps Reference.json_loads
           reference_roundtrip reference_accepts_b64
           (py "student1") (py "default123") (py "default123")
           snapshot_text0 injections0 world0
           eq_refl eq_refl eq_refl eq_refl eq_refl eq_refl eq_refl
           snapshot_text0_encodes snapshot_text0_loads).
Defined.

(** With no screenshot on disk the same session is scored 2, not 5: the
    video score counts image files, not the video events. *)
Lemma session_without_screenshots_scores_two :
  length (events_of Video injections0) = 3%nat
  /\ length (events_of Audio injections0) = 2%nat
  /\ exists w' : World,
       session Reference.key_ok Reference.encrypt_token
               Reference.decrypt_token Reference.json_dumps
               Reference.json_loads
               (py "student1") (py "default123") injections0 world0
         = (Ok tt, w')
       /\ LNetScore 2 ∈ stdout w'
       /\ LNetScore 5 ∉ stdout w'.
Proof.
  split; [reflexivity|]. split; [reflexivity|].
  destruct (session_run
              Reference.key_ok Reference.encrypt_token Reference.decrypt_token
              Reference.json_dumps Reference.json_loads
              reference_roundtrip reference_accepts_b64
              (py "student1") (py "default123") (py "default123")
              snapshot_text0 injections0 world0
              eq_refl eq_refl eq_refl eq_refl eq_refl
              snapshot_text0_encodes snapshot_text0_loads)
    as (w' & rest & Hrun & Hout & Hrest).
  rewrite (Hrest eq_refl) in Hout.
  exists w'. split; [exact Hrun|]. rewrite Hout.
  change (jpg_count world0) with 0%nat.
  change (length (events_of Audio injections0)) with 2%nat.
  cbn [stdout world0 app Nat.add].
  split.
  - do 6 right. left.
  - rewrite !elem_of_cons, elem_of_nil. intuition discriminate.
Qed.

(** *** Two producers, two events each, one tick *)


(** *** Key derivation without a salt file, and the shape of the key *)

Lemma hunter2_key_is_fernet_shaped :
  KeyManager.derive_key_from_password (py "hunter2") "salt.bin" salted
  = (Ok (KeyManager.key_of (py "hunter2") salt0),
     log_io (IoRead "salt.bin") salted)
  /\ exists body : pybytes,
       KeyManager.key_of (py "hunter2") salt0 = body ++ [61]
       /\ length body = 43%nat
       /\ Forall (fun c => Base64.urlsafe c = true) body.
Proof.
  assert (KeyManager.derive_key_from_password (py "hunter2") "salt.bin" salted
          = (Ok (KeyManager.key_of (py "hunter2") salt0),
             log_io (IoRead "salt.bin") salted)) as Hrun.
  { rewrite (KeyManager.derive_existing_salt (py "hunter2") "salt.bin" salt0
               salted eq_refl).
    reflexivity. }
  split; [exact Hrun|].
  exact (KeyManager.derived_key_is_fernet_shaped
           (py "hunter2") "salt.bin" salted _ _ Hrun).
Defined.

Lemma first_derivation_creates_salt :
  files world0 !! "salt.bin" = None
  /\ dirs world0 !! "salt.bin" = None
  /\ (exists (salt : pybytes) (w1 : World),
        KeyManager.derive_key_from_password (py "hunter2") "salt.bin" world0
        = (KeyManager.outcome (py "hunter2") salt, w1)
        /\ length salt = 16%nat
        /\ files w1 = <["salt.bin" := salt]> (files world0))
  /\ KeyManager.derive_key_from_password (py "hunter2") "keys/salt.bin" world0
     = (Raise (FileNotFoundError "keys/salt.bin"),
        set_drawn (drawn world0 + 16) world0).
Proof.
  assert (files world0 !! "salt.bin" = None) as Hf by (vm_compute; reflexivity).
  assert (dirs world0 !! "salt.bin" = None) as Hd by (vm_compute; reflexivity).
  assert (files world0 !! "keys/salt.bin" = None) as Hf'
    by (vm_compute; reflexivity).
  assert (dirs world0 !! "keys/salt.bin" = None) as Hd'
    by (vm_compute; reflexivity).
  split; [exact Hf|]. split; [exact Hd|]. split.
  - destruct (KeyManager.derive_creates_then_reuses_salt
                (py "hunter2") "salt.bin" world0 Hf Hd) as [Hok _].
    destruct (Hok eq_refl) as (salt & w1 & Hrun & Hlen & _ & Hfiles & _).
    exists salt, w1. split; [exact Hrun|]. split; [exact Hlen|exact Hfiles].
  - destruct (KeyManager.derive_creates_then_reuses_salt
                (py "hunter2") "keys/salt.bin" world0 Hf' Hd') as [_ Hno].
    apply (Hno (FileNotFoundError "keys/salt.bin")).
    vm_compute. reflexivity.
Defined.

(** *** A generated key *)

Lemma generated_key :
  exists raw : pybytes,
    length raw = 32%nat
    /\ CryptoUtils_init Reference.key_ok None world0
       = (Ok (mkCryptoUtils (Base64.urlsafe_b64encode raw)),
          set_drawn 32 world0).
Proof.
  destruct (CryptoUtils_init_generates_key
              Reference.key_ok reference_accepts_b64 None world0
              (or_introl eq_refl))
    as (raw & Hlen & _ & Hrun & _).
  exists raw. split; [exact Hlen|exact Hrun].
Defined.

(** *** A log file that cannot be opened *)

Definition logdir_world : World :=
  mkWorld ∅ {[ "secure_logs.jsonl" := [] ]} [] (fun _ => 0) 0 (fun _ => 0) 0
          (fun _ => false) [] [] (mkStore [] []) false [].

Lemma logdir_world_blocks :
  dirs logdir_world !! "secure_logs.jsonl" = Some [].
Proof. vm_compute. reflexivity. Qed.

Lemma log_into_directory_fails :
  fst (log_event Reference.encrypt_token Reference.json_dumps
                 Reference.strftime logger0 0
                 (set_heap [complete_event] logdir_world))
  = Raise (IsADirectoryError "secure_logs.jsonl")
  /\ files (snd (log_event Reference.encrypt_token Reference.json_dumps
                           Reference.strftime logger0 0
                           (set_heap [complete_event] logdir_world)))
     = files logdir_world
  /\ stdout (snd (log_event Reference.encrypt_token Reference.json_dumps
                            Reference.strftime logger0 0
                            (set_heap [complete_event] logdir_world)))
     = []
  /\ fst (log_event Reference.encrypt_token Reference.json_dumps
                    Reference.strftime stray_logger 0
                    (set_heap [complete_event] world0))
     = Raise (FileNotFoundError "logs/secure_logs.jsonl")
  /\ files (snd (log_event Reference.encrypt_token Reference.json_dumps
                           Reference.strftime stray_logger 0
                           (set_heap [complete_event] world0)))
     = files world0.
Proof.
  assert (fst (log_event Reference.encrypt_token Reference.json_dumps
                 Reference.strftime logger0 0
                 (set_heap [complete_event] logdir_world))
          = Raise (IsADirectoryError "secure_logs.jsonl")) as Hfail
    by (vm_compute; reflexivity).
  assert (fst (log_event Reference.encrypt_token Reference.json_dumps
                 Reference.strftime stray_logger 0
                 (set_heap [complete_event] world0))
          = Raise (FileNotFoundError "logs/secure_logs.jsonl")) as Hstray
    by (vm_compute; reflexivity).
  split; [exact Hfail|].
  destruct (log_event_failure_keeps_log
              Reference.encrypt_token Reference.json_dumps Reference.strftime
              logger0 0 complete_event _
              (set_heap [complete_event] logdir_world) eq_refl eq_refl Hfail)
    as (_ & Hfiles & Hout & _).
  split; [exact Hfiles|]. split; [exact Hout|]. split; [exact Hstray|].
  destruct (log_event_failure_keeps_log
              Reference.encrypt_token Reference.json_dumps Reference.strftime
              stray_logger 0 complete_event _
              (set_heap [complete_event] world0) eq_refl eq_refl Hstray)
    as (_ & Hfiles' & _).
  exact Hfiles'.
Defined.

(** *** Rounds of the producers *)

Definition camera_line3 : pystr :=
  Reference.json_dumps None
    (JDict (camera_event Reference.strftime system0 3 world0
            ++ [(py "logged_at", JStr (Reference.strftime 0))])).

Lemma camera_line3_encodes : Utf8.encode camera_line3 = Some camera_line3.
Proof. vm_compute. reflexivity. Qed.

(** A tick and a camera round on the empty working directory: the tick
    writes under the lock, the round logs and reports without it. *)
Lemma tick_on_empty_store :
  lock_held world0 = false
  /\ Utf8.encode empty_snapshot_text = Some empty_snapshot_text
  /\ (exists w' : World,
        encrypt_and_save Reference.encrypt_token Reference.json_dumps
                         system0 world0 = (Ok tt, w')
        /\ lock_held w' = false
        /\ io_log w' = [(false, IoSleep 10);
                        (true, IoWrite "suspicions.json");
                        (true, IoWrite "suspicions.json");
                        (true, IoRead "suspicions.json");
                        (true, IoWrite "suspicions.json.encrypted");
                        (true, IoPrint)])
  /\ store (snd (run_camera Reference.encrypt_token Reference.json_dumps
                            Reference.strftime system0 3 world0))
     = mkStore [0%nat] []
  /\ io_log (snd (run_camera Reference.encrypt_token Reference.json_dumps
                             Reference.strftime system0 3 world0))
     = [(false, IoAppend "secure_logs.jsonl"); (false, IoPrint);
        (false, IoPrint)].
Proof.
  split; [reflexivity|]. split; [reflexivity|].
  destruct (tick_holds_lock_across_io
              Reference.encrypt_token Reference.json_dumps Reference.strftime
              system0 empty_snapshot_text world0
              eq_refl eq_refl eq_refl eq_refl)
    as (Htick & _ & _ & _ & Hcam & _).
  split; [exact Htick|].
  destruct (Hcam 3%Z camera_line3 world0 eq_refl eq_refl eq_refl
              camera_line3_encodes) as (_ & Hstore & Hio).
  split; [exact Hstore|exact Hio].
Defined.

Lemma camera_round_score_3 :
  (0 < 3)%Z
  /\ exists w' : World,
       run_camera Reference.encrypt_token Reference.json_dumps
                  Reference.strftime system0 3 world0 = (Ok tt, w')
       /\ video (store w') = [0%nat] /\ audio (store w') = []
       /\ lock_held w' = false.
Proof.
  split; [reflexivity|].
  destruct (run_camera_records_event
              Reference.encrypt_token Reference.json_dumps Reference.strftime
              system0 3 camera_line3 world0 eq_refl eq_refl
              camera_line3_encodes)
    as (w' & text & Hrun & _ & Hv & Ha & Hl & _).
  exists w'. split; [exact Hrun|]. split; [exact Hv|]. split; [exact Ha|].
  exact Hl.
Defined.

Definition whisper_line : pystr :=
  Reference.json_dumps None
    (JDict (audio_event Reference.strftime system0 (py "whisper")
              (py "a secret plan") world0
            ++ [(py "logged_at", JStr (Reference.strftime 0))])).

Lemma whisper_line_encodes : Utf8.encode whisper_line = Some whisper_line.
Proof. vm_compute. reflexivity. Qed.

Lemma whisper_in_labels : py "whisper" ∈ audio_labels.
Proof. left. Qed.

Lemma audio_round_whisper :
  py "whisper" ∈ audio_labels
  /\ exists w' : World,
       run_audio Reference.encrypt_token Reference.json_dumps
                 Reference.strftime system0
                 (Ok (py "whisper", py "a secret plan")) world0 = (Ok tt, w')
       /\ audio (store w') = [0%nat] /\ video (store w') = []
       /\ Dict.get (py "data")
            (audio_event Reference.strftime system0 (py "whisper")
               (py "a secret plan") world0)
          = Some (JStr (py "Audio event: whisper | Reasons: a [REDACTED] plan")).
Proof.
  split; [exact whisper_in_labels|].
  destruct (run_audio_records_event
              Reference.encrypt_token Reference.json_dumps Reference.strftime
              system0 (py "whisper") (py "a secret plan") whisper_line world0
              whisper_in_labels eq_refl whisper_line_encodes)
    as (w' & text & Hrun & _ & Ha & Hv & _).
  exists w'. split; [exact Hrun|]. split; [exact Ha|]. split; [exact Hv|].
  reflexivity.
Defined.

Definition camera_line3_blocked : pystr :=
  Reference.json_dumps None
    (JDict (camera_event Reference.strftime system0 3 logdir_world
            ++ [(py "logged_at", JStr (Reference.strftime 0))])).

Lemma camera_line3_blocked_encodes :
  Utf8.encode camera_line3_blocked = Some camera_line3_blocked.
Proof. vm_compute. reflexivity. Qed.

Lemma camera_round_blocked :
  (0 < 3)%Z
  /\ dirs logdir_world !! "secure_logs.jsonl" = Some []
  /\ exists w' : World,
       run_camera Reference.encrypt_token Reference.json_dumps
                  Reference.strftime system0 3 logdir_world
       = (Raise (IsADirectoryError "secure_logs.jsonl"), w')
       /\ store w' = mkStore [] [].
Proof.
  split; [reflexivity|]. split; [exact logdir_world_blocks|].
  destruct (run_camera_log_failure_escapes
              Reference.encrypt_token Reference.json_dumps Reference.strftime
              system0 3 camera_line3_blocked [] logdir_world eq_refl
              logdir_world_blocks camera_line3_blocked_encodes)
    as (w' & Hrun & Hs & _).
  exists w'. split; [exact Hrun|exact Hs].
Defined.

Definition whisper_line_blocked : pystr :=
  Reference.json_dumps None
    (JDict (audio_event Reference.strftime system0 (py "whisper")
              (py "low") logdir_world
            ++ [(py "logged_at", JStr (Reference.strftime 0))])).

Lemma whisper_line_blocked_encodes :
  Utf8.encode whisper_line_blocked = Some whisper_line_blocked.
Proof. vm_compute. reflexivity. Qed.

Lemma audio_round_blocked :
  dirs logdir_world !! "secure_logs.jsonl" = Some []
  /\ exists w' : World,
       run_audio Reference.encrypt_token Reference.json_dumps
                 Reference.strftime system0 (Ok (py "whisper", py "low"))
                 logdir_world
       = (Ok tt, w')
       /\ store w' = mkStore [] []
       /\ stdout w' = [LAudioError (IsADirectoryError "secure_logs.jsonl")].
Proof.
  split; [exact logdir_world_blocks|].
  destruct (run_audio_log_failure_is_reported
              Reference.encrypt_token Reference.json_dumps Reference.strftime
              system0 (py "whisper") (py "low") whisper_line_blocked []
              logdir_world whisper_in_labels logdir_world_blocks
              whisper_line_blocked_encodes)
    as (w' & Hrun & Hs & _ & Hout & _).
  exists w'. split; [exact Hrun|]. split; [exact Hs|exact Hout].
Defined.

(** *** Ticks that fail, and a snapshot read back *)

Definition snapshot_dir_world : World :=
  mkWorld {[ "suspicions.json.encrypted" := [1; 2; 3] ]} ∅ [] (fun _ => 0) 0
          (fun _ => 0) 0 (fun _ => false) [] [] (mkStore [] []) false [].

Definition encrypted_dir_world : World :=
  mkWorld ∅ {[ "suspicions.json.encrypted" := [] ]} [] (fun _ => 0) 0
          (fun _ => 0) 0 (fun _ => false) [] [] (mkStore [] []) false [].

Lemma tick_into_directory_fails :
  fst (encrypt_and_save Reference.encrypt_token Reference.json_dumps
                        system0 encrypted_dir_world)
  = Raise (IsADirectoryError "suspicions.json.encrypted")
  /\ stdout (snd (encrypt_and_save Reference.encrypt_token Reference.json_dumps
                                   system0 encrypted_dir_world)) = []
  /\ files (snd (encrypt_and_save Reference.encrypt_token Reference.json_dumps
                                  system0 encrypted_dir_world))
       !! "suspicions.json.encrypted" = None.
Proof.
  assert (fst (encrypt_and_save Reference.encrypt_token Reference.json_dumps
                                system0 encrypted_dir_world)
          = Raise (IsADirectoryError "suspicions.json.encrypted")) as Hfail
    by (vm_compute; reflexivity).
  split; [exact Hfail|].
  destruct (failed_tick_keeps_snapshot
              Reference.encrypt_token Reference.json_dumps system0 _
              encrypted_dir_world Hfail) as (Hkeep & Hout & _).
  split; [exact Hout|]. rewrite Hkeep. vm_compute. reflexivity.
Defined.

Lemma snapshot_of_empty_store_reads_back :
  Reference.key_ok (cu_key (crypto system0)) = true
  /\ Utf8.encode empty_snapshot_text = Some empty_snapshot_text
  /\ exists (token : pybytes) (w' : World),
       encrypt_and_save Reference.encrypt_token Reference.json_dumps
                        system0 snapshot_dir_world = (Ok tt, w')
       /\ files w' !! "suspicions.json.encrypted" = Some token
       /\ files w' !! "suspicions.json" = Some empty_snapshot_text
       /\ forall w'' : World,
            decrypt Reference.decrypt_token (crypto system0) token w''
            = (Ok empty_snapshot_text, w'').
Proof.
  split; [reflexivity|]. split; [reflexivity|].
  assert (dirs snapshot_dir_world !! "suspicions.json" = None) as Hd1
    by (vm_compute; reflexivity).
  assert (dirs snapshot_dir_world !! "suspicions.json.encrypted" = None)
    as Hd2 by (vm_compute; reflexivity).
  destruct (snapshot_decrypts_to_store_text
              Reference.key_ok Reference.encrypt_token Reference.decrypt_token
              Reference.json_dumps reference_roundtrip system0
              empty_snapshot_text snapshot_dir_world eq_refl Hd1 Hd2 eq_refl)
    as (token & w' & Hrun & Henc & Hplain & _ & Hdec).
  exists token, w'. split; [exact Hrun|]. split; [exact Henc|].
  split; [exact Hplain|exact Hdec].
Defined.

(** *** Audits that find nothing to show *)





Definition left_shot : pystr := py "LEFT_1756461600.jpg".

Definition shot_world : World :=
  mkWorld ∅ {[ "screenshots" := [left_shot] ]} [] (fun _ => 0) 0
          (fun _ => 0) 0 (fun _ => true) [] [] (mkStore [] []) false [].

Definition logged_video : pydict :=
  [(py "video",
    JList [JDict (sample_event "student1_cam_1" "Camera suspicion score: 1")]);
   (py "audio", JList [])].

Lemma replay_of_logged_video_shows_nothing :
  is_jpg left_shot = true
  /\ imread shot_world left_shot = true
  /\ exists w' : World,
       display_screenshots (JDict logged_video) 1 shot_world = (Ok tt, w')
       /\ windows w' = []
       /\ stdout w' = [LDisplayHeader].
Proof.
  split; [reflexivity|]. split; [reflexivity|].
  assert (dirs shot_world !! "screenshots" = Some [left_shot]) as Hdir
    by (vm_compute; reflexivity).
  apply (replay_needs_event_key logged_video
           [JDict (sample_event "student1_cam_1" "Camera suspicion score: 1")]
           [left_shot] 1 shot_world).
  - apply Nat.lt_0_1.
  - reflexivity.
  - constructor; [|constructor]. eexists. split; reflexivity.
  - exact Hdir.
  - constructor; [reflexivity|constructor].
Defined.

(** *** The score database and the camera *)

Definition first_score_text : pystr :=
  Reference.json_dumps (Some 2%nat)
    (JDict (Dict.set (py "student1") (JInt 2) [])).

Lemma first_score_text_encodes :
  Utf8.encode first_score_text = Some first_score_text.
Proof. vm_compute. reflexivity. Qed.

Lemma no_scores_on_record : scores_on_record Reference.json_loads world0 [].
Proof.
  unfold scores_on_record.
  assert (dirs world0 !! "cheating_scores.json" = None) as ->
    by (vm_compute; reflexivity).
  assert (files world0 !! "cheating_scores.json" = None) as ->
    by (vm_compute; reflexivity).
  split; reflexivity.
Qed.

Lemma first_score_is_recorded :
  scores_on_record Reference.json_loads world0 []
  /\ exists w' : World,
       update_database Reference.json_dumps Reference.json_loads
                       (py "student1") 2 world0 = (Ok tt, w')
       /\ files w' = <["cheating_scores.json" := first_score_text]> (files world0)
       /\ Reference.json_loads first_score_text
          = Some (JDict [(py "student1", JInt 2)]).
Proof.
  split; [exact no_scores_on_record|].
  destruct (update_database_sets_score
              Reference.json_dumps Reference.json_loads (py "student1") 2 []
              first_score_text world0 no_scores_on_record
              first_score_text_encodes)
    as (w' & Hrun & Hf & _).
  exists w'. split; [exact Hrun|]. split; [exact Hf|].
  vm_compute. reflexivity.
Defined.

Definition released : Camera.Detector :=
  Camera.mkDetector 2 None true false false.

Lemma run_after_release_returns_old_score :
  Camera.cap_open released = false
  /\ exists w' : World,
       camera_run Reference.json_dumps Reference.json_loads released []
                  (py "student1") world0
       = (Ok (released,
              [Camera.NamedWindow; Camera.DestroyAllWindows;
               Camera.PrintReleased; Camera.PrintFinal (py "student1") 2],
              Camera.Returned 2), w')
       /\ stdout w' = [].
Proof.
  split; [reflexivity|].
  destruct (camera_run_after_release
              Reference.json_dumps Reference.json_loads released []
              (py "student1") [] first_score_text world0 eq_refl
              no_scores_on_record first_score_text_encodes)
    as (w' & Hrun & _ & Hout & _).
  exists w'. split; [exact Hrun|exact Hout].
Defined.

Definition flat_hand : list Camera.Landmark :=
  repeat (Camera.mkLandmark 0 0) 21.

Lemma flat_hand_counts_no_finger :
  (21 <= length flat_hand)%nat
  /\ exists n : nat,
       Camera.count_fingers flat_hand (py "Right") = Some n
       /\ (n <= 5)%nat.
Proof.
  assert (21 <= length flat_hand)%nat as Hlen by (cbn; lia).
  split; [exact Hlen|].
  destruct (Camera.count_fingers_bounds flat_hand (py "Right") Hlen)
    as (n & Hn & Hle & _).
  exists n. split; [exact Hn|exact Hle].
Defined.

Lemma left_in_reasons : py "LEFT" ∈ Camera.reasons.
Proof. left. Qed.

Lemma left_shot_is_counted_not_replayed :
  py "LEFT" ∈ Camera.reasons
  /\ Camera.screenshot_entry (py "LEFT") 1756461600 = left_shot
  /\ is_jpg left_shot = true
  /\ Str.contains (py "unknown") left_shot = false.
Proof.
  split; [exact left_in_reasons|]. split; [vm_compute; reflexivity|].
  destruct (CameraAudit.camera_screenshots_counted_not_replayed
              (py "LEFT") 1756461600 left_in_reasons) as (Hj & _ & Hu).
  split; [exact Hj|exact Hu].
Defined.

(** *** Inside a critical section *)

Definition two_producers : list (category * list nat) :=
  [(Video, [0; 1]%nat); (Audio, [2; 3]%nat)].

Lemma camera_inside_excludes_others :
  Interleaving.run [0; 0]%nat (Interleaving.initial two_producers 1)
  = Some (Interleaving.mkC (Some 0%nat) (mkStore [0%nat] [])
            [[Interleaving.Release; Interleaving.Acquire;
              Interleaving.Append Video 1; Interleaving.Release];
             Interleaving.producer_program Audio [2; 3]%nat;
             Interleaving.tick_program 1] [])
  /\ forall (j : nat) (q : list Interleaving.instr),
       [[Interleaving.Release; Interleaving.Acquire;
         Interleaving.Append Video 1; Interleaving.Release];
        Interleaving.producer_program Audio [2; 3]%nat;
        Interleaving.tick_program 1] !! j = Some q ->
       Interleaving.inside q = true -> j = 0%nat.
Proof.
  assert (Interleaving.run [0; 0]%nat (Interleaving.initial two_producers 1)
          = Some (Interleaving.mkC (Some 0%nat) (mkStore [0%nat] [])
                    [[Interleaving.Release; Interleaving.Acquire;
                      Interleaving.Append Video 1; Interleaving.Release];
                     Interleaving.producer_program Audio [2; 3]%nat;
                     Interleaving.tick_program 1] [])) as Hrun
    by (vm_compute; reflexivity).
  split; [exact Hrun|].
  destruct (Interleaving.mutual_exclusion two_producers 1 [0; 0]%nat _ 0%nat _
              Hrun eq_refl eq_refl) as [_ Hexcl].
  exact Hexcl.
Defined.

Lemma two_producers_keep_their_order :
  Interleaving.run [0; 0; 0; 2; 2; 2; 1; 1; 1; 0; 0; 0; 1; 1; 1]%nat
    (Interleaving.initial two_producers 1)
  = Some (Interleaving.mkC None (mkStore [0; 1]%nat [2; 3]%nat) [[]; []; []]
            [(mkStore [0]%nat [], false)])
  /\ store world0 = mkStore [] []
  /\ store (snd (Interleaving.serial
                   (Interleaving.trace
                      [0; 0; 0; 2; 2; 2; 1; 1; 1; 0; 0; 0; 1; 1; 1]%nat
                      (Interleaving.initial two_producers 1))
                   world0))
     = mkStore [0; 1]%nat [2; 3]%nat.
Proof.
  assert (Interleaving.run [0; 0; 0; 2; 2; 2; 1; 1; 1; 0; 0; 0; 1; 1; 1]%nat
            (Interleaving.initial two_producers 1)
          = Some (Interleaving.mkC None (mkStore [0; 1]%nat [2; 3]%nat)
                    [[]; []; []] [(mkStore [0]%nat [], false)])) as Hrun
    by (vm_compute; reflexivity).
  assert (NoDup (concat (map snd two_producers))) as Hfresh.
  { cbn [map snd concat app two_producers].
    repeat (apply NoDup_cons_2;
            [rewrite ?elem_of_cons, ?elem_of_nil; lia|]).
    apply NoDup_nil_2. }
  split; [exact Hrun|]. split; [reflexivity|].
  destruct (Interleaving.producer_order_is_kept two_producers 1 _ _ world0
              Hfresh Hrun eq_refl) as (_ & _ & _ & Hone).
  apply (Hone [0; 1]%nat [2; 3]%nat eq_refl). repeat constructor.
Defined.
